(** * Cataloger of household objects: the catalog tree and its operations

    The catalog is the nested dictionary that [json.load] builds: container
    dictionaries with the keys [name], [objects] and [containers], object
    dictionaries with the keys [name] and [category], and Python lists in
    between.  Dictionaries and lists are mutable and are handed around by
    reference ([get_object] returns the dictionary itself, [delete_object]
    calls [remove] on the list stored in the container), so the embedding
    keeps them in a store of cells and the functions of
    [src/catalog_manage.py] run in a state-and-exception monad over it.

    - The cells are typed as the document format prescribes: [name] and the
      values of an object are strings, [objects] and [containers] are lists
      of dictionaries.  Any key may be missing.  Reading a cell of another
      kind stops with [TypeError].
    - The recursive functions take the depth they may recurse to ([fuel]);
      beyond it they raise [RecursionError], as the interpreter does at its
      recursion limit.  The theorems give the depth that suffices.
    - [data.get(key, [])] creates its default list before the lookup, so a
      search leaves empty lists behind in the store; nothing refers to
      them. *)

From stdpp Require Import base option list gmap strings fin_maps.

Set Warnings "-register-all".

Open Scope string_scope.
Open Scope list_scope.
Open Scope nat_scope.

(** ** The store *)

Definition loc := positive.

(** A container dictionary.  Every key may be missing ([None]). *)
Record container_dict := ContainerDict {
  cd_name : option string;
  cd_objects : option loc;
  cd_containers : option loc
}.

(** A cell of the store: an object dictionary (string keys, string
    values), a container dictionary, or a list of references. *)
Inductive cell :=
| ObjDict (d : gmap string string)
| ContDict (c : container_dict)
| PyList (items : list loc).

Abbreviation store := (gmap loc cell).

(** ** Exceptions and outcomes *)

Inductive exn :=
| KeyError (key : string)
| TypeError
| ValueError
| EOFError
| RecursionError.

Inductive outcome (A : Type) :=
| Ret (a : A) (s : store)
| Raise (e : exn) (s : store).
Arguments Ret {A} a s.
Arguments Raise {A} e s.

Definition M (A : Type) : Type := store → outcome A.

Definition ret {A} (a : A) : M A := λ s, Ret a s.
Definition raise {A} (e : exn) : M A := λ s, Raise e s.
Definition bind {A B} (m : M A) (k : A → M B) : M B :=
  λ s, match m s with
       | Ret a s' => k a s'
       | Raise e s' => Raise e s'
       end.

Notation "x <- m ;; k" := (bind m (λ x, k))
  (at level 100, m at next level, right associativity).
Notation "m ;; k" := (bind m (λ _, k))
  (at level 100, right associativity).

Definition store_of {A} (o : outcome A) : store :=
  match o with Ret _ s => s | Raise _ s => s end.

(** ** Primitive operations on cells *)

Definition fresh_loc (s : store) : loc := fresh (dom s).

(** Creating a new dictionary or list. *)
Definition alloc (c : cell) : M loc :=
  λ s, Ret (fresh_loc s) (<[fresh_loc s := c]> s).

Definition read_cont (l : loc) : M container_dict :=
  λ s, match s !! l with
       | Some (ContDict c) => Ret c s
       | _ => Raise TypeError s
       end.

Definition read_obj (l : loc) : M (gmap string string) :=
  λ s, match s !! l with
       | Some (ObjDict d) => Ret d s
       | _ => Raise TypeError s
       end.

Definition read_list (l : loc) : M (list loc) :=
  λ s, match s !! l with
       | Some (PyList items) => Ret items s
       | _ => Raise TypeError s
       end.

Definition write (l : loc) (c : cell) : M unit :=
  λ s, Ret tt (<[l := c]> s).

(** ** Python expressions used by the source *)

(** [data.get("objects", [])] and [data.get("containers", [])]: the default
    [[]] is a new list, created before the lookup. *)
Definition dict_get_list (field : container_dict → option loc) (data : loc) : M loc :=
  tmp <- alloc (PyList []) ;;
  c <- read_cont data ;;
  ret (default tmp (field c)).

(** [data.get("name")] on a container. *)
Definition cont_get_name (data : loc) : M (option string) :=
  c <- read_cont data ;; ret (cd_name c).

(** [data["name"]] on a container. *)
Definition cont_subscript_name (data : loc) : M string :=
  c <- read_cont data ;;
  match cd_name c with
  | Some v => ret v
  | None => raise (KeyError "name")
  end.

(** [object.get(key)]. *)
Definition obj_get (object : loc) (key : string) : M (option string) :=
  d <- read_obj object ;; ret (d !! key).

(** [object[key]]. *)
Definition obj_subscript (object : loc) (key : string) : M string :=
  d <- read_obj object ;;
  match d !! key with
  | Some v => ret v
  | None => raise (KeyError key)
  end.

(** [object[key] = value]. *)
Definition obj_set (object : loc) (key value : string) : M unit :=
  d <- read_obj object ;; write object (ObjDict (<[key := value]> d)).

(** [a == b] on two references, as [list.remove] evaluates it: the same
    dictionary, or two object dictionaries with the same items. *)
Definition py_eq (s : store) (a b : loc) : bool :=
  bool_decide (a = b) ||
  match s !! a, s !! b with
  | Some (ObjDict d1), Some (ObjDict d2) => bool_decide (d1 = d2)
  | _, _ => false
  end.

Fixpoint py_index (s : store) (x : loc) (items : list loc) : option nat :=
  match items with
  | [] => None
  | y :: rest => if py_eq s y x then Some 0 else S <$> py_index s x rest
  end.

(** [lst.remove(x)]: drops the first item equal to [x]. *)
Definition list_remove (lst x : loc) : M unit :=
  λ s, match s !! lst with
       | Some (PyList items) =>
           match py_index s x items with
           | Some i => Ret tt (<[lst := PyList (delete i items)]> s)
           | None => Raise ValueError s
           end
       | _ => Raise TypeError s
       end.

(** [lst.append(x)]. *)
Definition list_append (lst x : loc) : M unit :=
  items <- read_list lst ;; write lst (PyList (items ++ [x])).

(** Truth value of a function result that is [None] or a reference:
    an empty dictionary or list is false. *)
Definition truthy (r : option loc) : M bool :=
  match r with
  | None => ret false
  | Some l =>
      λ s, match s !! l with
           | Some (ObjDict d) => Ret (negb (bool_decide (d = ∅))) s
           | Some (ContDict c) =>
               Ret (bool_decide (is_Some (cd_name c))
                    || bool_decide (is_Some (cd_objects c))
                    || bool_decide (is_Some (cd_containers c))) s
           | Some (PyList items) => Ret (negb (bool_decide (items = []))) s
           | None => Raise TypeError s
           end
  end.

(** [for x in items: ...] whose body may [return]: [Some v] is a return
    from the enclosing function, [None] falls through to the next item.
    The loop runs over the items read when it starts; the only body that
    changes the list ([delete_object]) returns right after. *)
Section for_each.
Context {A R : Type} (body : A → M (option R)).
Fixpoint for_each (items : list A) : M (option R) :=
  match items with
  | [] => ret None
  | x :: rest =>
      r <- body x ;;
      match r with
      | Some v => ret (Some v)
      | None => for_each rest
      end
  end.
End for_each.

(** ** src/catalog_manage.py *)

(** [get_object_info]: the two loops of the source, the first over the
    objects of the node, the second over its containers; [if result:] on a
    list is the test for a non-empty list. *)
Fixpoint get_object_info (fuel : nat) (data : loc) (object_to_search : string)
  : M (list string) :=
  match fuel with
  | 0 => raise RecursionError
  | S fuel =>
      objects <- dict_get_list cd_objects data ;;
      items <- read_list objects ;;
      found <- for_each (λ object,
                 nm <- obj_get object "name" ;;
                 if bool_decide (Some object_to_search = nm) then
                   n <- obj_subscript object "name" ;;
                   c <- obj_subscript object "category" ;;
                   dn <- cont_subscript_name data ;;
                   ret (Some [n; c; dn])
                 else ret None) items ;;
      match found with
      | Some r => ret r
      | None =>
          containers <- dict_get_list cd_containers data ;;
          kids <- read_list containers ;;
          found <- for_each (λ container,
                     result <- get_object_info fuel container object_to_search ;;
                     match result with
                     | [] => ret None
                     | _ :: _ =>
                         dn <- cont_subscript_name data ;;
                         ret (Some (result ++ [dn]))
                     end) kids ;;
          ret (default [] found)
      end
  end.

(** [delete_object]: [objects_list] is the list the container refers to
    (or the new default list), and [remove] acts on that very list. *)
Fixpoint delete_object (fuel : nat) (data : loc) (object_name : string) : M bool :=
  match fuel with
  | 0 => raise RecursionError
  | S fuel =>
      objects_list <- dict_get_list cd_objects data ;;
      items <- read_list objects_list ;;
      found <- for_each (λ object,
                 nm <- obj_get object "name" ;;
                 if bool_decide (nm = Some object_name) then
                   list_remove objects_list object ;;
                   ret (Some true)
                 else ret None) items ;;
      match found with
      | Some r => ret r
      | None =>
          containers <- dict_get_list cd_containers data ;;
          kids <- read_list containers ;;
          found <- for_each (λ container,
                     deleted <- delete_object fuel container object_name ;;
                     if deleted : bool then ret (Some true) else ret None) kids ;;
          ret (default false found)
      end
  end.

(** [get_object]: the answer is the reference of the dictionary found,
    [None] otherwise; [if result:] is the truth value of that answer. *)
Fixpoint get_object (fuel : nat) (data : loc) (object_name : string) : M (option loc) :=
  match fuel with
  | 0 => raise RecursionError
  | S fuel =>
      objects <- dict_get_list cd_objects data ;;
      items <- read_list objects ;;
      found <- for_each (λ object,
                 nm <- obj_get object "name" ;;
                 if bool_decide (nm = Some object_name) then ret (Some object)
                 else ret None) items ;;
      match found with
      | Some o => ret (Some o)
      | None =>
          containers <- dict_get_list cd_containers data ;;
          kids <- read_list containers ;;
          for_each (λ container,
              result <- get_object fuel container object_name ;;
              t <- truthy result ;;
              if t : bool then ret result else ret None) kids
      end
  end.

(** [modify_object]: [if new_object_name:] is the test for a non-empty
    string; the assignments go to the dictionary [get_object] returned. *)
Definition modify_object (fuel : nat) (data : loc) (object_name : string)
    (new_object_name new_category_name : string) : M bool :=
  object <- get_object fuel data object_name ;;
  match object with
  | None => ret false
  | Some o =>
      (if bool_decide (new_object_name = "") then ret tt
       else obj_set o "name" new_object_name) ;;
      (if bool_decide (new_category_name = "") then ret tt
       else obj_set o "category" new_category_name) ;;
      ret true
  end.

(** [get_container_by_name]: the node itself first, then its containers. *)
Fixpoint get_container_by_name (fuel : nat) (data : loc) (container_name : string)
  : M (option loc) :=
  match fuel with
  | 0 => raise RecursionError
  | S fuel =>
      nm <- cont_get_name data ;;
      if bool_decide (nm = Some container_name) then ret (Some data)
      else
        containers <- dict_get_list cd_containers data ;;
        kids <- read_list containers ;;
        for_each (λ container,
            result <- get_container_by_name fuel container container_name ;;
            t <- truthy result ;;
            if t : bool then ret result else ret None) kids
  end.

(** ** src/catalog_interface.py: adding objects

    [input(...).strip().lower()] is modelled by the list of the lines of
    standard input, already stripped and lowered, read front to back; at
    the end of the input Python raises [EOFError].  [print] and
    [save_json_file] do not touch the catalog and are left out. *)

Definition create_new_object (lines : list string) : M (loc * list string) :=
  match lines with
  | object_name :: object_category :: rest =>
      new_object <- alloc (ObjDict {["name" := object_name;
                                     "category" := object_category]}) ;;
      ret (new_object, rest)
  | _ => raise EOFError
  end.

(** [while not (container := get_container_by_name(data, input(...)))]. *)
Fixpoint get_container_for_adding (fuel : nat) (data : loc) (lines : list string)
  : M (loc * list string) :=
  match lines with
  | [] => raise EOFError
  | line :: rest =>
      container <- get_container_by_name fuel data line ;;
      t <- truthy container ;;
      match container with
      | Some c =>
          if t : bool then ret (c, rest)
          else get_container_for_adding fuel data rest
      | None => get_container_for_adding fuel data rest
      end
  end.

Definition add_object (fuel : nat) (data : loc) (lines : list string)
  : M (list string) :=
  created <- create_new_object lines ;;
  found <- get_container_for_adding fuel data created.2 ;;
  objects <- dict_get_list cd_objects found.1 ;;
  list_append objects created.1 ;;
  ret found.2.

(** [while not (user_choice := input(...).strip()) in ["1", "2"]]. *)
Fixpoint read_choice (lines : list string) : M (string * list string) :=
  match lines with
  | [] => raise EOFError
  | line :: rest =>
      if bool_decide (line ∈ ["1"; "2"]) then ret (line, rest)
      else read_choice rest
  end.

Definition add_object_in_catalog (fuel : nat) (data : loc) (lines : list string)
  : M (list string) :=
  choice <- read_choice lines ;;
  if bool_decide (choice.1 = "1") then add_object fuel data choice.2
  else
    match choice.2 with
    | [] => raise EOFError
    | new_container_name :: lines =>
        objects <- alloc (PyList []) ;;
        containers <- alloc (PyList []) ;;
        new_container <- alloc (ContDict (ContainerDict (Some new_container_name)
                                            (Some objects) (Some containers))) ;;
        found <- get_container_for_adding fuel data lines ;;
        siblings <- dict_get_list cd_containers found.1 ;;
        list_append siblings new_container ;;
        created <- create_new_object found.2 ;;
        own <- dict_get_list cd_objects new_container ;;
        list_append own created.1 ;;
        ret created.2
    end.

(** ** src/data_storage.py

    [load_json_file] and [save_json_file] wrap [open], [json.load] and
    [json.dump] in [try ... except].  What the wrapped block does is the
    environment's part and is a parameter: it completes with a value or
    raises an exception of some class of the Python library. *)
Module Storage.

Inductive exc :=
| BaseException | KeyboardInterrupt
| Exception
| OSError | FileNotFoundError | PermissionError | IsADirectoryError
| ValueError | JSONDecodeError | UnicodeDecodeError
| TypeError
| RecursionError.

Global Instance exc_eq_dec : EqDecision exc.
Proof. solve_decision. Defined.

(** The class itself followed by its base classes. *)
Definition mro (e : exc) : list exc :=
  match e with
  | BaseException => [BaseException]
  | KeyboardInterrupt => [KeyboardInterrupt; BaseException]
  | Exception => [Exception; BaseException]
  | OSError => [OSError; Exception; BaseException]
  | FileNotFoundError => [FileNotFoundError; OSError; Exception; BaseException]
  | PermissionError => [PermissionError; OSError; Exception; BaseException]
  | IsADirectoryError => [IsADirectoryError; OSError; Exception; BaseException]
  | ValueError => [ValueError; Exception; BaseException]
  | JSONDecodeError => [JSONDecodeError; ValueError; Exception; BaseException]
  | UnicodeDecodeError => [UnicodeDecodeError; ValueError; Exception; BaseException]
  | TypeError => [TypeError; Exception; BaseException]
  | RecursionError => [RecursionError; Exception; BaseException]
  end.

(** [except c:] catches [e]. *)
Definition catches (c e : exc) : bool := bool_decide (c ∈ mro e).

Inductive json :=
| JNull
| JBool (b : bool)
| JNumber (n : Z)
| JString (s : string)
| JArray (items : list json)
| JObject (items : list (string * json)).

Inductive attempt (A : Type) :=
| Completed (a : A)
| Raised (e : exc).
Arguments Completed {A} a.
Arguments Raised {A} e.

(** The lines the two functions print. *)
Inductive diagnostic :=
| FileNotFoundMessage (file_name : string)
| DecodeMessage (file_name : string) (error : exc)
| SaveMessage (error : exc).

(** [body] is the outcome of
    [with open(file_name, mode="r") as input_file: return json.load(input_file)]. *)
Definition load_json_file (file_name : string) (body : attempt json)
  : attempt json * list diagnostic :=
  match body with
  | Completed v => (Completed v, [])
  | Raised e =>
      if catches FileNotFoundError e then
        (Completed (JObject []), [FileNotFoundMessage file_name])
      else if catches JSONDecodeError e then
        (Completed (JObject []), [DecodeMessage file_name e])
      else (Raised e, [])
  end.

(** [body] is the outcome of
    [with open(file_name, mode="w") as output_file: json.dump(data, output_file, indent = 4)]. *)
Definition save_json_file (data : json) (file_name : string) (body : attempt unit)
  : attempt unit * list diagnostic :=
  match body with
  | Completed _ => (Completed tt, [])
  | Raised e =>
      if catches OSError e || catches TypeError e then
        (Completed tt, [SaveMessage e])
      else (Raised e, [])
  end.

End Storage.

(** ** Catalog trees as they lie in the store

    A located tree records, next to the contents of the catalog, the
    reference of every dictionary and list that holds it.  The tree
    invariant of the catalog (no cycles, no node owned twice) is that these
    references are pairwise distinct. *)

Definition object : Type := loc * gmap string string.

Inductive ltree :=
| LNode (l : loc) (name : option string)
        (objs : option (loc * list object))
        (kids : option (loc * list ltree)).

Definition root (t : ltree) : loc := match t with LNode l _ _ _ => l end.
Definition t_name (t : ltree) : option string :=
  match t with LNode _ nm _ _ => nm end.
Definition t_objs_field (t : ltree) : option (loc * list object) :=
  match t with LNode _ _ objs _ => objs end.
Definition t_kids_field (t : ltree) : option (loc * list ltree) :=
  match t with LNode _ _ _ kids => kids end.

(** A missing [objects] or [containers] key reads as the empty sequence. *)
Definition field_list {A} (f : option (loc * list A)) : list A :=
  match f with Some (_, xs) => xs | None => [] end.
Definition field_loc {A} (f : option (loc * list A)) : list loc :=
  match f with Some (l, _) => [l] | None => [] end.

Definition t_objs (t : ltree) : list object := field_list (t_objs_field t).
Definition t_kids (t : ltree) : list ltree := field_list (t_kids_field t).

Fixpoint height (t : ltree) : nat :=
  match t with
  | LNode _ _ _ kids =>
      S (match kids with
         | Some (_, ks) => foldr Nat.max 0 (map height ks)
         | None => 0
         end)
  end.

(** Every reference the tree occupies. *)
Fixpoint locs (t : ltree) : list loc :=
  match t with
  | LNode l _ objs kids =>
      l :: (field_loc objs ++ (field_list objs).*1)
        ++ match kids with
           | Some (kl, ks) => kl :: flat_map locs ks
           | None => []
           end
  end.

Definition objs_hold (s : store) (objs : option (loc * list object)) : Prop :=
  match objs with
  | Some (ol, os) =>
      s !! ol = Some (PyList os.*1) ∧
      Forall (λ o : object, s !! o.1 = Some (ObjDict o.2)) os
  | None => True
  end.

Definition kids_cell (s : store) (kids : option (loc * list ltree)) : Prop :=
  match kids with
  | Some (kl, ks) => s !! kl = Some (PyList (root <$> ks))
  | None => True
  end.

(** The store holds the tree [t] at [root t]. *)
Inductive holds (s : store) : ltree → Prop :=
| holds_node l nm objs kids :
    s !! l = Some (ContDict (ContainerDict nm (fst <$> objs) (fst <$> kids))) →
    objs_hold s objs →
    kids_cell s kids →
    Forall (holds s) (field_list kids) →
    holds s (LNode l nm objs kids).

(** A well-formed catalog: the tree is in the store and owns each of its
    dictionaries and lists once. *)
Definition wf (s : store) (t : ltree) : Prop := NoDup (locs t) ∧ holds s t.

(** The cells a tree consists of, and the store made of just these. *)
Definition objs_cells (objs : option (loc * list object)) : list (loc * cell) :=
  match objs with
  | Some (ol, os) => (ol, PyList os.*1) :: map (λ o : object, (o.1, ObjDict o.2)) os
  | None => []
  end.

Fixpoint cells (t : ltree) : list (loc * cell) :=
  match t with
  | LNode l nm objs kids =>
      (l, ContDict (ContainerDict nm (fst <$> objs) (fst <$> kids)))
      :: objs_cells objs
      ++ match kids with
         | Some (kl, ks) => (kl, PyList (root <$> ks)) :: flat_map cells ks
         | None => []
         end
  end.

Definition store_of_tree (t : ltree) : store := list_to_map (cells t).

(** ** Catalog documents and their layout in the store *)

(** A catalog document: the nested data of the persisted file. *)
Inductive document :=
| Doc (name : option string)
      (objects : option (list (gmap string string)))
      (containers : option (list document)).

Fixpoint erase (t : ltree) : document :=
  match t with
  | LNode _ nm objs kids =>
      Doc nm
        match objs with Some (_, os) => Some os.*2 | None => None end
        match kids with Some (_, ks) => Some (map erase ks) | None => None end
  end.

Section map_state.
Context {A B S : Type} (f : A → S → B * S).
Fixpoint map_state (l : list A) (s : S) : list B * S :=
  match l with
  | [] => ([], s)
  | x :: rest =>
      let (y, s1) := f x s in
      let (ys, s2) := map_state rest s1 in
      (y :: ys, s2)
  end.
End map_state.

(** Laying a document out in memory: every dictionary and list gets the
    next free reference, as [json.load] gives each a new object. *)
Fixpoint layout (d : document) (p : positive) : ltree * positive :=
  match d with
  | Doc nm objs kids =>
      let (objs', p1) :=
        match objs with
        | Some ds =>
            let (os, q) := map_state (λ d q, ((q, d), Pos.succ q)) ds (Pos.succ (Pos.succ p)) in
            (Some (Pos.succ p, os), q)
        | None => (None, Pos.succ p)
        end in
      let (kids', p2) :=
        match kids with
        | Some ks =>
            let (ks', q) := map_state layout ks (Pos.succ p1) in
            (Some (p1, ks'), q)
        | None => (None, p1)
        end in
      (LNode p nm objs' kids', p2)
  end.

(** [l] has no repetition and lies between [p] (included) and [q]. *)
Definition within (p q : positive) (l : list loc) : Prop :=
  NoDup l ∧ ∀ x, x ∈ l → (p ≤ x < q)%positive.

(** What laying out a document gives: a tree with the contents of the
    document, rooted at the first free reference, on pairwise distinct
    references. *)
Definition laid_out (d : document) : Prop := ∀ p,
  erase (layout d p).1 = d ∧ root (layout d p).1 = p ∧
  (Pos.succ p ≤ (layout d p).2)%positive ∧
  within p (layout d p).2 (locs (layout d p).1).

(** ** The traversal order

    Within a node the objects come first, in list order; then the child
    containers, in list order, each one completely before the next.  An
    entry keeps the object, the container that holds it and the containers
    above that one, innermost first. *)
Record entry := Entry {
  e_obj : object;
  e_parent : ltree;
  e_above : list ltree
}.

Definition lift_entry (t : ltree) (e : entry) : entry :=
  Entry (e_obj e) (e_parent e) (e_above e ++ [t]).

Fixpoint dfs (t : ltree) : list entry :=
  match t with
  | LNode l nm objs kids =>
      map (λ o, Entry o (LNode l nm objs kids) []) (field_list objs)
      ++ match kids with
         | Some (_, ks) =>
             flat_map (λ k, map (lift_entry (LNode l nm objs kids)) (dfs k)) ks
         | None => []
         end
  end.

Definition dfs_objects (t : ltree) : list object := map e_obj (dfs t).

Definition named (n : string) (o : object) : bool :=
  bool_decide (o.2 !! "name" = Some n).

(** The first entry of the traversal whose object has the name [n]. *)
Definition first_match (n : string) (t : ltree) : option entry :=
  find (λ e, named n (e_obj e)) (dfs t).

(** The containers from the direct parent of the object up to the root. *)
Definition e_chain (e : entry) : list ltree := e_parent e :: e_above e.

(** Pre-order traversal of the containers: a node before its children. *)
Fixpoint dfs_containers (t : ltree) : list ltree :=
  match t with
  | LNode l nm objs kids =>
      LNode l nm objs kids ::
      match kids with
      | Some (_, ks) => flat_map dfs_containers ks
      | None => []
      end
  end.

Definition e_loc (e : entry) : loc := (e_obj e).1.

Definition has_match (n : string) (t : ltree) : bool :=
  match first_match n t with Some _ => true | None => false end.

(** How many objects of the tree are named [n]. *)
Definition count_named (n : string) (t : ltree) : nat :=
  length (List.filter (named n) (dfs_objects t)).

Definition cnamed (n : string) (c : ltree) : bool :=
  bool_decide (t_name c = Some n).

(** The first container named [n] of the pre-order traversal. *)
Definition first_container (n : string) (t : ltree) : option ltree :=
  find (cnamed n) (dfs_containers t).

(** ** Where objects and containers lie in a tree *)

(** [o] is in the objects of [t] or in the objects of a descendant. *)
Inductive occurs (o : object) : ltree → Prop :=
| occurs_here t : In o (t_objs t) → occurs o t
| occurs_below t k : In k (t_kids t) → occurs o k → occurs o t.

(** [chain] lists the containers from the one that holds [o] directly up
    to [t], each one the parent of the one before it. *)
Inductive path_to (o : object) : ltree → list ltree → Prop :=
| path_here t : In o (t_objs t) → path_to o t [t]
| path_below t k chain :
    In k (t_kids t) → path_to o k chain → path_to o t (chain ++ [t]).

(** [c] is [t] or a container below [t]. *)
Inductive inside (c : ltree) : ltree → Prop :=
| inside_self : inside c c
| inside_kid t k : In k (t_kids t) → inside c k → inside c t.

(** The names of the containers of a chain, if each of them has one. *)
Fixpoint chain_names (chain : list ltree) : option (list string) :=
  match chain with
  | [] => Some []
  | c :: rest =>
      match t_name c with
      | Some n => cons n <$> chain_names rest
      | None => None
      end
  end.

(** ** Stores that only gained temporary lists

    [ext s s']: every cell of [s] is in [s'] with the same contents, and the
    cells that are new in [s'] are empty lists (the defaults that
    [data.get(key, [])] creates and drops). *)

Definition ext (s s' : store) : Prop :=
  (∀ l c, s !! l = Some c → s' !! l = Some c) ∧
  (∀ l c, s !! l = None → s' !! l = Some c → c = PyList []).

Definition tick (s : store) : store := <[fresh_loc s := PyList []]> s.

Definition extends {A} (m : M A) : Prop := ∀ s, ext s (store_of (m s)).

(** ** What the operations answer and write *)

(** What [get_object_info] answers for the entry it stops at: the name and
    the category of the object and the names along [e_chain]; a missing
    [category] or a missing container [name] is a [KeyError]. *)
Definition info_outcome (e : entry) (s : store) : outcome (list string) :=
  match (e_obj e).2 !! "name", (e_obj e).2 !! "category" with
  | None, _ => Raise (KeyError "name") s
  | Some _, None => Raise (KeyError "category") s
  | Some n, Some c =>
      match chain_names (e_chain e) with
      | Some names => Ret (n :: c :: names) s
      | None => Raise (KeyError "name") s
      end
  end.

Definition omap_outcome {A B} (f : A → B) (o : outcome A) : outcome B :=
  match o with Ret a s => Ret (f a) s | Raise e s => Raise e s end.

Section remove_first.
Context {A : Type} (p : A → bool).
(** The list without its first element that satisfies [p]. *)
Fixpoint remove_first (l : list A) : list A :=
  match l with
  | [] => []
  | x :: rest => if p x then rest else x :: remove_first rest
  end.
End remove_first.

(** The store after [objects_list.remove(object)] for the entry [e]: the
    list of the container that holds the object loses its first item with
    that name. *)
Definition delete_write (n : string) (e : entry) (s : store) : store :=
  match t_objs_field (e_parent e) with
  | Some (ol, os) => <[ol := PyList (remove_first (named n) os).*1]> s
  | None => s
  end.

Definition delete_outcome (n : string) (m : option entry) (s : store) : outcome bool :=
  match m with
  | Some e => Ret true (delete_write n e s)
  | None => Ret false s
  end.

(** [if value: d[key] = value] *)
Definition set_if (value key : string) (d : gmap string string) : gmap string string :=
  if bool_decide (value = "") then d else <[key := value]> d.

(** The dictionary of an object after [modify_object]. *)
Definition updated (new_name new_category : string) (d : gmap string string)
  : gmap string string :=
  set_if new_category "category" (set_if new_name "name" d).

Definition modify_write (new_name new_category : string) (e : entry) (s : store) : store :=
  <[e_loc e := ObjDict (updated new_name new_category (e_obj e).2)]> s.

(** ** The tree after a deletion or a modification *)

Section map_first.
Context {A : Type} (p : A → bool) (f : A → A).
(** [f] applied to the first element that satisfies [p]. *)
Fixpoint map_first (l : list A) : list A :=
  match l with
  | [] => []
  | x :: rest => if p x then f x :: rest else x :: map_first rest
  end.
End map_first.

Definition map_field {A} (f : list A → list A) (o : option (loc * list A))
  : option (loc * list A) :=
  match o with Some (l, xs) => Some (l, f xs) | None => None end.

(** The tree without the first object named [n] of the traversal: it goes
    from the objects of the node, or else from the first child container
    that has one. *)
Fixpoint t_delete (n : string) (t : ltree) : ltree :=
  match t with
  | LNode l nm objs kids =>
      match find (named n) (field_list objs) with
      | Some _ => LNode l nm (map_field (remove_first (named n)) objs) kids
      | None =>
          LNode l nm objs
            match kids with
            | Some (kl, ks) => Some (kl, map_first (has_match n) (t_delete n) ks)
            | None => None
            end
      end
  end.

Definition set_obj (o : loc) (d : gmap string string) (x : object) : object :=
  if bool_decide (x.1 = o) then (o, d) else x.

(** The tree in which the dictionary at reference [o] reads [d]. *)
Fixpoint t_update (o : loc) (d : gmap string string) (t : ltree) : ltree :=
  match t with
  | LNode l nm objs kids =>
      LNode l nm (map_field (map (set_obj o d)) objs)
        match kids with
        | Some (kl, ks) => Some (kl, map (t_update o d) ks)
        | None => None
        end
  end.

(** The tree after [modify_object]: the dictionary of the first match is
    rewritten. *)
Definition t_modify (n new_name new_category : string) (t : ltree) : ltree :=
  match first_match n t with
  | Some e => t_update (e_loc e) (updated new_name new_category (e_obj e).2) t
  | None => t
  end.

(** ** The tree after an addition

    [add_object] and [add_object_in_catalog] append to the list that the
    chosen container refers to; in a well-formed tree a reference occurs
    once, so the list is named by its reference. *)

(** The [objects] field with [x] appended when its list is the one at [ol]. *)
Definition append_at (ol : loc) (x : object) (objs : option (loc * list object))
  : option (loc * list object) :=
  match objs with
  | Some (l, os) => if bool_decide (l = ol) then Some (l, os ++ [x]) else Some (l, os)
  | None => None
  end.

(** The tree in which the objects list at reference [ol] has [x] at its end. *)
Fixpoint t_append (ol : loc) (x : object) (t : ltree) : ltree :=
  match t with
  | LNode l nm objs kids =>
      LNode l nm (append_at ol x objs)
        match kids with
        | Some (kl, ks) => Some (kl, map (t_append ol x) ks)
        | None => None
        end
  end.

(** The tree in which the containers list at reference [kl] has the
    container [new] at its end. *)
Fixpoint t_append_kid (kl : loc) (new : ltree) (t : ltree) : ltree :=
  match t with
  | LNode l nm objs kids =>
      LNode l nm objs
        match kids with
        | Some (l', ks) =>
            if bool_decide (l' = kl) then Some (l', ks ++ [new])
            else Some (l', map (t_append_kid kl new) ks)
        | None => None
        end
  end.

(** The container that option 2 of [add_object_in_catalog] makes. *)
Definition new_container (nc no nk o : loc) (container_name object_name category : string)
  : ltree :=
  LNode nc (Some container_name)
    (Some (no, [(o, {["name" := object_name; "category" := category]})]))
    (Some (nk, [])).

(** ** What a change of objects leaves as it is *)

(** An entry of the traversal after the dictionary at [o] was rewritten. *)
Definition upd_entry (o : loc) (d : gmap string string) (e : entry) : entry :=
  Entry (set_obj o d (e_obj e)) (t_update o d (e_parent e))
        (map (t_update o d) (e_above e)).

(** The reference and the name of each container, in traversal order. *)
Definition container_index (t : ltree) : list (loc * option string) :=
  map (λ c, (root c, t_name c)) (dfs_containers t).

(** ** src/catalog_interface.py: the commands that print

    Besides the catalog a command reads standard input and writes to
    standard output and to the catalog file.  The world of a command is
    the store, the lines of standard input still to come (each one as
    [input(...).strip().lower()] gives it), the trace of what was written
    so far, oldest first, and what the block that [save_json_file] wraps
    does when it is run. *)
Module Shell.

(** What a command writes: the prompt of an [input], a printed line, a
    diagnostic printed by [save_json_file], or the dump of [data], as the
    store [s] has it, to the file. *)
Inductive event :=
| Prompted (prompt : string)
| Printed (line : string)
| Reported (d : Storage.diagnostic)
| Saved (file_name : string) (data : loc) (s : store).

Record world := World {
  w_store : store;
  w_stdin : list string;
  w_trace : list event;
  w_disk : Storage.attempt unit
}.

(** How a command stops early: an exception of the catalog functions or of
    [input], an exception that [save_json_file] lets through, or a
    subscript out of range. *)
Inductive failure :=
| CatalogError (e : exn)
| StorageError (e : Storage.exc)
| IndexError.

Inductive result (A : Type) :=
| Done (a : A) (w : world)
| Failed (e : failure) (w : world).
Arguments Done {A} a w.
Arguments Failed {A} e w.

Definition IO (A : Type) : Type := world → result A.

Definition io_ret {A} (a : A) : IO A := λ w, Done a w.
Definition io_bind {A B} (m : IO A) (k : A → IO B) : IO B :=
  λ w, match m w with
       | Done a w' => k a w'
       | Failed e w' => Failed e w'
       end.

Notation "x <~ m ;; k" := (io_bind m (λ x, k))
  (at level 100, m at next level, right associativity).
Notation "m ;;; k" := (io_bind m (λ _, k))
  (at level 100, right associativity).

Definition with_store (s : store) (w : world) : world :=
  World s (w_stdin w) (w_trace w) (w_disk w).

Definition emit (e : event) (w : world) : world :=
  World (w_store w) (w_stdin w) (w_trace w ++ [e]) (w_disk w).

(** A function of [src/catalog_manage.py] run on the store of the world. *)
Definition lift {A} (m : M A) : IO A :=
  λ w, match m (w_store w) with
       | Ret a s => Done a (with_store s w)
       | Raise e s => Failed (CatalogError e) (with_store s w)
       end.

Definition print (line : string) : IO unit := λ w, Done tt (emit (Printed line) w).

(** [input(prompt).strip().lower()]. *)
Definition input (prompt : string) : IO string :=
  λ w, match w_stdin w with
       | [] => Failed (CatalogError EOFError) (emit (Prompted prompt) w)
       | line :: rest =>
           Done line (World (w_store w) rest (w_trace w ++ [Prompted prompt]) (w_disk w))
       end.

(** [save_json_file(data, file_name)] of [src/data_storage.py]: the dump
    of [data] as the store has it, or the diagnostic for [OSError] and
    [TypeError]; any other exception of the wrapped block propagates. *)
Definition save_json_file (data : loc) (file_name : string) : IO unit :=
  λ w, match w_disk w with
       | Storage.Completed _ => Done tt (emit (Saved file_name data (w_store w)) w)
       | Storage.Raised e =>
           if Storage.catches Storage.OSError e || Storage.catches Storage.TypeError e
           then Done tt (emit (Reported (Storage.SaveMessage e)) w)
           else Failed (StorageError e) w
       end.

(** [for x in items: ...] whose body does not [return]. *)
Section for_all.
Context {A : Type} (body : A → IO unit).
Fixpoint for_all (items : list A) : IO unit :=
  match items with
  | [] => io_ret tt
  | x :: rest => body x ;;; for_all rest
  end.
End for_all.

(** [sequence[i]]. *)
Definition subscript (sequence : list string) (i : nat) : IO string :=
  match sequence !! i with
  | Some v => io_ret v
  | None => λ w, Failed IndexError w
  end.

(** [" > ".join(path)]. *)
Definition join_path (path : list string) : string := String.concat " > " path.

(** ["-" * 50]. *)
Definition rule : string := String.concat "" (replicate 50 "-").

Fixpoint explore_catalog (fuel : nat) (data : loc) (path : option (list string))
  : IO unit :=
  match fuel with
  | 0 => λ w, Failed (CatalogError RecursionError) w
  | S fuel =>
      path <~ match path with
              | None =>
                  nm <~ lift (cont_get_name data) ;;
                  io_ret [default "house" nm]
              | Some p => io_ret p
              end ;;
      objects <~ lift (dict_get_list cd_objects data) ;;
      items <~ lift (read_list objects) ;;
      for_all (λ object,
          nm <~ lift (obj_get object "name") ;;
          print ("Name: " ++ default "" nm) ;;;
          cat <~ lift (obj_get object "category") ;;
          print ("Category: " ++ default "" cat) ;;;
          print ("Location: " ++ join_path path) ;;;
          print rule) items ;;;
      containers <~ lift (dict_get_list cd_containers data) ;;
      kids <~ lift (read_list containers) ;;
      for_all (λ container,
          nm <~ lift (cont_get_name container) ;;
          explore_catalog fuel container (Some (path ++ [default "" nm]))) kids
  end.

Definition search_object_in_catalog (fuel : nat) (data : loc) : IO unit :=
  object_name <~ input "Enter the name of the object to search: " ;;
  object_info <~ lift (get_object_info fuel data object_name) ;;
  match object_info with
  | _ :: _ =>
      name <~ subscript object_info 0 ;;
      print ("Name: " ++ name) ;;;
      category <~ subscript object_info 1 ;;
      print ("Category: " ++ category) ;;;
      print ("Location: " ++ join_path (reverse (drop 2 object_info)))
  | [] => print "Object not found in the catalog!"
  end.

Definition delete_object_from_catalog (fuel : nat) (data : loc) (file_name : string)
  : IO unit :=
  object_name <~ input "Enter the name of the object to delete: " ;;
  deleted <~ lift (delete_object fuel data object_name) ;;
  if deleted : bool then
    save_json_file data file_name ;;;
    print "Object successfully deleted from the catalog!"
  else print "Object not found in the catalog!".

Definition modify_object_in_catalog (fuel : nat) (data : loc) (file_name : string)
  : IO unit :=
  object_name <~ input "Enter the name of the object to modify: " ;;
  new_object_name <~
    input "Enter the new name of the object (blank line to keep it unchanged): " ;;
  new_category_name <~
    input "Enter the new category of the object (blank line to keep it unchanged): " ;;
  modified <~ lift (modify_object fuel data object_name
                      new_object_name new_category_name) ;;
  if modified : bool then
    save_json_file data file_name ;;;
    print "Object successfully modified in the catalog!"
  else print "Object not found in the catalog!".

(** What [explore_catalog] prints for an entry of the traversal. *)
Definition shown_name (dflt : string) (c : ltree) : string := default dflt (t_name c).

(** The containers of an entry from the root down to the parent. *)
Definition descent (e : entry) : list ltree := reverse (e_chain e).

Definition shown_path (e : entry) : list string :=
  match descent e with
  | [] => []
  | r :: below => shown_name "house" r :: map (shown_name "") below
  end.

(** The four lines that [explore_catalog] prints for an object. *)
Definition card (o : object) (path : list string) : list event :=
  [Printed ("Name: " ++ default "" (o.2 !! "name"));
   Printed ("Category: " ++ default "" (o.2 !! "category"));
   Printed ("Location: " ++ join_path path);
   Printed rule].

(** What [explore_catalog] prints below a node reached with the path [p]. *)
Definition cards (p : list string) (t : ltree) : list event :=
  flat_map (λ e, card (e_obj e) (p ++ map (shown_name "") (tail (descent e)))) (dfs t).

(** The objects below a node reached with the path [p], in the order of
    the traversal, each with the path it is shown under. *)
Definition listing (p : list string) (t : ltree) : list (object * list string) :=
  map (λ e, (e_obj e, p ++ map (shown_name "") (tail (descent e)))) (dfs t).

End Shell.

(** ** Worked catalogs *)

Definition bulb_a : gmap string string := {["name" := "bulb"; "category" := "lighting"]}.
Definition bulb_b : gmap string string := {["name" := "bulb"; "category" := "spare"]}.
Definition lamp : gmap string string := {["name" := "lamp"; "category" := "lighting"]}.
Definition hammer : gmap string string := {["name" := "hammer"; "category" := "tools"]}.

(** house > a (bulb, lamp), house > b (bulb). *)
Definition two_bulbs_tree : ltree :=
  LNode 1%positive (Some "house") (Some (2%positive, []))
    (Some (3%positive,
       [LNode 4%positive (Some "a")
          (Some (5%positive, [(6%positive, bulb_a); (7%positive, lamp)])) None;
        LNode 8%positive (Some "b")
          (Some (9%positive, [(10%positive, bulb_b)])) None])).

Definition two_bulbs_store : store :=
  list_to_map [
    (1%positive, ContDict (ContainerDict (Some "house") (Some 2%positive) (Some 3%positive)));
    (2%positive, PyList []);
    (3%positive, PyList [4%positive; 8%positive]);
    (4%positive, ContDict (ContainerDict (Some "a") (Some 5%positive) None));
    (5%positive, PyList [6%positive; 7%positive]);
    (6%positive, ObjDict bulb_a);
    (7%positive, ObjDict lamp);
    (8%positive, ContDict (ContainerDict (Some "b") (Some 9%positive) None));
    (9%positive, PyList [10%positive]);
    (10%positive, ObjDict bulb_b)].

(** house > garage > shelf (hammer). *)
Definition hammer_tree : ltree :=
  LNode 1%positive (Some "house") (Some (2%positive, []))
    (Some (3%positive,
       [LNode 4%positive (Some "garage") (Some (5%positive, []))
          (Some (6%positive,
             [LNode 7%positive (Some "shelf")
                (Some (8%positive, [(10%positive, hammer)]))
                (Some (9%positive, []))]))])).

Definition hammer_store : store :=
  list_to_map [
    (1%positive, ContDict (ContainerDict (Some "house") (Some 2%positive) (Some 3%positive)));
    (2%positive, PyList []);
    (3%positive, PyList [4%positive]);
    (4%positive, ContDict (ContainerDict (Some "garage") (Some 5%positive) (Some 6%positive)));
    (5%positive, PyList []);
    (6%positive, PyList [7%positive]);
    (7%positive, ContDict (ContainerDict (Some "shelf") (Some 8%positive) (Some 9%positive)));
    (8%positive, PyList [10%positive]);
    (9%positive, PyList []);
    (10%positive, ObjDict hammer)].

(** A container without a [name] key that holds a bulb. *)
Definition nameless_store : store :=
  list_to_map [
    (1%positive, ContDict (ContainerDict None (Some 2%positive) None));
    (2%positive, PyList [3%positive]);
    (3%positive, ObjDict bulb_a)].

(** A container without an [objects] key. *)
Definition attic_store : store :=
  {[1%positive := ContDict (ContainerDict (Some "attic") None None)]}.

(** house > box (name only). *)
Definition uncategorized_tree : ltree :=
  LNode 1%positive (Some "house")
    (Some (2%positive, [(3%positive, {["name" := "box"]})])) None.

Definition uncategorized_store : store :=
  list_to_map [
    (1%positive, ContDict (ContainerDict (Some "house") (Some 2%positive) None));
    (2%positive, PyList [3%positive]);
    (3%positive, ObjDict {["name" := "box"]})].

(** The tree that [nameless_store] holds: a root without a [name] key
    that holds a bulb. *)
Definition nameless_tree : ltree :=
  LNode 1%positive None (Some (2%positive, [(3%positive, bulb_a)])) None.

(** * Proofs *)

(** ** Lists *)

Lemma find_app' {A} (p : A → bool) (l1 l2 : list A) :
  find p (l1 ++ l2) = match find p l1 with Some x => Some x | None => find p l2 end.
Proof. induction l1 as [|x l1 IH]; simpl; [done|]. by destruct (p x). Qed.

Lemma find_map' {A B} (p : B → bool) (f : A → B) (l : list A) :
  find p (map f l) = f <$> find (λ x, p (f x)) l.
Proof. induction l as [|x l IH]; simpl; [done|]. by destruct (p (f x)). Qed.

Lemma find_None_iff {A} (p : A → bool) (l : list A) :
  find p l = None ↔ ∀ x, In x l → p x = false.
Proof.
  split; [apply find_none|].
  induction l as [|x l IH]; simpl; [done|]. intros H.
  rewrite (H x) by auto. apply IH. auto.
Qed.

(** ** Trees *)

Lemma ltree_ind' (P : ltree → Prop) :
  (∀ l nm objs kids, Forall P (field_list kids) → P (LNode l nm objs kids)) →
  ∀ t, P t.
Proof.
  intros IH. fix rec 1. intros [l nm objs kids]. apply IH.
  destruct kids as [[kl ks]|]; simpl; [|constructor].
  induction ks as [|k ks IHks]; constructor; [apply rec | apply IHks].
Qed.

Lemma height_eq l nm objs kids :
  height (LNode l nm objs kids) = S (foldr Nat.max 0 (map height (field_list kids))).
Proof. by destruct kids as [[??]|]. Qed.

Lemma locs_eq l nm objs kids :
  locs (LNode l nm objs kids) =
  l :: (field_loc objs ++ (field_list objs).*1)
    ++ (field_loc kids ++ flat_map locs (field_list kids)).
Proof. by destruct kids as [[??]|]. Qed.

Lemma dfs_eq l nm objs kids :
  dfs (LNode l nm objs kids) =
  map (λ o, Entry o (LNode l nm objs kids) []) (field_list objs)
  ++ flat_map (λ k, map (lift_entry (LNode l nm objs kids)) (dfs k)) (field_list kids).
Proof. by destruct kids as [[??]|]. Qed.

Lemma dfs_containers_eq l nm objs kids :
  dfs_containers (LNode l nm objs kids) =
  LNode l nm objs kids :: flat_map dfs_containers (field_list kids).
Proof. by destruct kids as [[??]|]. Qed.

Lemma height_kid k ks : In k ks → height k ≤ foldr Nat.max 0 (map height ks).
Proof.
  induction ks as [|k' ks IH]; simpl; [done|].
  intros [->|Hin]; [lia|]. specialize (IH Hin). lia.
Qed.

Lemma height_kids_lt l nm objs kids fuel :
  height (LNode l nm objs kids) < S fuel →
  Forall (λ k, height k < fuel) (field_list kids).
Proof.
  rewrite height_eq. intros H. apply Forall_forall. intros k Hk.
  apply list_elem_of_In, height_kid in Hk. lia.
Qed.

(** ** Stores that only gained temporary lists: [ext] is a preorder *)

Lemma fresh_loc_None (s : store) : s !! fresh_loc s = None.
Proof. unfold fresh_loc. apply (not_elem_of_dom (D := gset positive)), is_fresh. Qed.

Lemma ext_refl s : ext s s.
Proof. split; [done|]. intros l c H1 H2. congruence. Qed.

Lemma ext_trans s1 s2 s3 : ext s1 s2 → ext s2 s3 → ext s1 s3.
Proof.
  intros [A1 B1] [A2 B2]. split; [by auto|].
  intros l c Hn H3. destruct (s2 !! l) as [c2|] eqn:E2.
  - pose proof (B1 _ _ Hn E2) as ->. apply A2 in E2. congruence.
  - eauto.
Qed.

Lemma ext_tick s : ext s (tick s).
Proof.
  unfold tick. split.
  - intros l c H. rewrite lookup_insert_ne; [done|].
    intros <-. rewrite fresh_loc_None in H. done.
  - intros l c Hn H. destruct (decide (fresh_loc s = l)) as [<-|Hne].
    + rewrite lookup_insert_eq in H. congruence.
    + rewrite lookup_insert_ne in H by done. congruence.
Qed.

Lemma objs_hold_ext s s' objs : ext s s' → objs_hold s objs → objs_hold s' objs.
Proof.
  intros [He _]. destruct objs as [[ol os]|]; [|done]. intros [H1 H2]. split; [by auto|].
  eapply Forall_impl; [exact H2|]. simpl. auto.
Qed.

Lemma holds_ext s s' t : ext s s' → holds s t → holds s' t.
Proof.
  intros Hext. induction t as [l nm objs kids IH] using ltree_ind'.
  inversion 1 as [? ? ? ? Hl Ho Hk Hks]; subst. constructor.
  - by apply Hext.
  - by eapply objs_hold_ext.
  - destruct kids as [[kl ks]|]; [|done]. by apply Hext.
  - rewrite Forall_forall in IH, Hks |- *. auto.
Qed.

Lemma holds_kids_ext s s' ks :
  ext s s' → Forall (holds s) ks → Forall (holds s') ks.
Proof. intros He H. eapply Forall_impl; [exact H|]. intros k. by apply holds_ext. Qed.

(** What the store holds for the entries of the traversal. *)
Lemma holds_dfs_obj s t e :
  holds s t → In e (dfs t) → s !! (e_obj e).1 = Some (ObjDict (e_obj e).2).
Proof.
  revert e. induction t as [l nm objs kids IH] using ltree_ind'.
  intros e. inversion 1 as [? ? ? ? Hl Ho Hk Hks]; subst.
  rewrite dfs_eq, in_app_iff, in_map_iff, in_flat_map.
  intros [(o & <- & Hin)|(k & Hk' & Hin)].
  - destruct objs as [[ol os]|]; [|done]. destruct Ho as [_ Ho].
    rewrite Forall_forall in Ho. apply Ho. by apply list_elem_of_In.
  - apply in_map_iff in Hin as (e' & <- & He'). simpl.
    rewrite Forall_forall in IH, Hks.
    apply list_elem_of_In in Hk'. apply (IH k Hk'); [by apply Hks | done].
Qed.

(** ** Running the monad *)

Lemma bind_Ret {A B} (m : M A) (k : A → M B) s a s' :
  m s = Ret a s' → bind m k s = k a s'.
Proof. unfold bind. by intros ->. Qed.

Lemma bind_assoc {A B C} (m : M A) (f : A → M B) (g : B → M C) s :
  bind (bind m f) g s = bind m (λ a, bind (f a) g) s.
Proof. unfold bind. by destruct (m s). Qed.

Lemma bind_ret_l {A B} (a : A) (k : A → M B) s : bind (ret a) k s = k a s.
Proof. done. Qed.

Lemma dict_get_list_eq field data s c :
  s !! data = Some (ContDict c) →
  dict_get_list field data s = Ret (default (fresh_loc s) (field c)) (tick s).
Proof.
  intros H. unfold dict_get_list, bind, alloc, read_cont. fold (tick s).
  destruct (ext_tick s) as [He _]. by rewrite (He _ _ H).
Qed.

(** Reading the list behind [data.get("objects", [])]. *)
Lemma read_objs s l nm objs kids :
  holds s (LNode l nm objs kids) →
  read_list (default (fresh_loc s) (fst <$> objs)) (tick s)
  = Ret (field_list objs).*1 (tick s).
Proof.
  inversion 1 as [? ? ? ? Hl Ho Hk Hks]; subst. unfold read_list.
  destruct objs as [[ol os]|]; simpl.
  - destruct Ho as [Ho _]. destruct (ext_tick s) as [He _]. by rewrite (He _ _ Ho).
  - unfold tick. by rewrite lookup_insert_eq.
Qed.

(** Reading the list behind [data.get("containers", [])]. *)
Lemma read_kids s l nm objs kids :
  holds s (LNode l nm objs kids) →
  read_list (default (fresh_loc s) (fst <$> kids)) (tick s)
  = Ret (root <$> field_list kids) (tick s).
Proof.
  inversion 1 as [? ? ? ? Hl Ho Hk Hks]; subst. unfold read_list.
  destruct kids as [[kl ks]|]; simpl.
  - simpl in Hk. destruct (ext_tick s) as [He _]. by rewrite (He _ _ Hk).
  - unfold tick. by rewrite lookup_insert_eq.
Qed.

Lemma obj_get_eq s o d key :
  s !! o = Some (ObjDict d) → obj_get o key s = Ret (d !! key) s.
Proof. intros H. unfold obj_get, bind, read_obj. by rewrite H. Qed.

Lemma obj_subscript_eq s o d key :
  s !! o = Some (ObjDict d) →
  obj_subscript o key s =
  match d !! key with Some v => Ret v s | None => Raise (KeyError key) s end.
Proof.
  intros H. unfold obj_subscript, bind, read_obj. rewrite H.
  by destruct (d !! key).
Qed.

Lemma cont_subscript_name_eq s l c :
  s !! l = Some (ContDict c) →
  cont_subscript_name l s =
  match cd_name c with Some v => Ret v s | None => Raise (KeyError "name") s end.
Proof.
  intros H. unfold cont_subscript_name, bind, read_cont. rewrite H.
  by destruct (cd_name c).
Qed.

Lemma cont_get_name_eq s l c :
  s !! l = Some (ContDict c) → cont_get_name l s = Ret (cd_name c) s.
Proof. intros H. unfold cont_get_name, bind, read_cont. by rewrite H. Qed.

(** ** get_object *)

Lemma first_match_eq n l nm objs kids :
  first_match n (LNode l nm objs kids) =
  match find (named n) (field_list objs) with
  | Some o => Some (Entry o (LNode l nm objs kids) [])
  | None =>
      find (λ e, named n (e_obj e))
        (flat_map (λ k, map (lift_entry (LNode l nm objs kids)) (dfs k)) (field_list kids))
  end.
Proof.
  unfold first_match. rewrite dfs_eq, find_app', find_map'. simpl.
  by destruct (find _ (field_list objs)).
Qed.

Lemma find_kids_cons n t k ks :
  find (λ e, named n (e_obj e)) (flat_map (λ k, map (lift_entry t) (dfs k)) (k :: ks)) =
  match first_match n k with
  | Some e => Some (lift_entry t e)
  | None => find (λ e, named n (e_obj e)) (flat_map (λ k, map (lift_entry t) (dfs k)) ks)
  end.
Proof.
  simpl. rewrite find_app', find_map'. unfold first_match. simpl.
  by destruct (find _ (dfs k)).
Qed.

Lemma first_match_In n t e : first_match n t = Some e → In e (dfs t) ∧ (e_obj e).2 !! "name" = Some n.
Proof.
  intros H. apply find_some in H as [H1 H2]. split; [done|].
  unfold named in H2. by apply bool_decide_eq_true in H2.
Qed.

Lemma get_object_scan s n os :
  Forall (λ o : object, s !! o.1 = Some (ObjDict o.2)) os →
  for_each (λ object,
      nm <- obj_get object "name" ;;
      if bool_decide (nm = Some n) then ret (Some object) else ret None) os.*1 s
  = Ret (fst <$> find (named n) os) s.
Proof.
  induction 1 as [|[o d] os Ho _ IH]; [done|].
  cbn [for_each fmap list_fmap fst find]. simpl in Ho.
  erewrite (bind_Ret _ _ _ (if named n (o, d) then Some o else None)); cycle 1.
  { erewrite bind_Ret by (by apply obj_get_eq).
    unfold named. cbn [snd]. by destruct (bool_decide _). }
  destruct (named n (o, d)); [done|]. exact IH.
Qed.

Lemma truthy_match s n t e :
  holds s t → first_match n t = Some e → truthy (Some (e_loc e)) s = Ret true s.
Proof.
  intros Hh Hm. apply first_match_In in Hm as [Hin Hn].
  unfold truthy, e_loc. rewrite (holds_dfs_obj _ _ _ Hh Hin).
  rewrite bool_decide_eq_false_2; [done|]. intros E. rewrite E in Hn.
  by rewrite lookup_empty in Hn.
Qed.

Lemma get_object_spec fuel : ∀ t s n,
  holds s t → height t < fuel →
  ∃ s1, ext s s1 ∧
    get_object fuel (root t) n s = Ret (e_loc <$> first_match n t) s1.
Proof.
  induction fuel as [|fuel IH]; intros [l nm objs kids] s n Hh Hfuel; [lia|].
  pose proof Hh as Hh'. inversion Hh' as [? ? ? ? Hl Ho Hk Hks]; subst.
  cbn [get_object root].
  erewrite bind_Ret by (by apply dict_get_list_eq).
  erewrite bind_Ret by (by eapply read_objs).
  erewrite bind_Ret; cycle 1.
  { apply get_object_scan. apply (objs_hold_ext _ _ _ (ext_tick s)) in Ho.
    destruct objs as [[??]|]; [apply Ho | constructor]. }
  rewrite first_match_eq.
  destruct (find (named n) (field_list objs)) as [o|]; cbn [fmap option_fmap option_map].
  { exists (tick s). split; [apply ext_tick | done]. }
  pose proof (ext_tick s) as Ht1. pose proof (holds_ext _ _ _ Ht1 Hh) as Hh1.
  assert (Hl1 : tick s !! l = Some (ContDict (ContainerDict nm (fst <$> objs) (fst <$> kids))))
    by (by apply Ht1).
  erewrite bind_Ret by (by apply dict_get_list_eq).
  erewrite bind_Ret by (by eapply read_kids).
  pose proof (ext_tick (tick s)) as Ht2.
  assert (Hext : ext s (tick (tick s))) by (by eapply ext_trans).
  apply (holds_kids_ext _ _ _ Hext) in Hks.
  apply height_kids_lt in Hfuel.
  revert Hext Hks Hfuel. generalize (tick (tick s)) as s2.
  generalize (LNode l nm objs kids) as t. clear -IH.
  intros t s2 Hext Hks. revert s2 Hext Hks.
  induction (field_list kids) as [|k ks IHks]; intros s2 Hext Hks Hfuel.
  { exists s2. done. }
  apply Forall_cons in Hks as [Hk Hks]. apply Forall_cons in Hfuel as [Hfk Hfuel].
  rewrite find_kids_cons. cbn [fmap list_fmap for_each].
  destruct (IH k s2 n Hk Hfk) as (s3 & He3 & Hrun).
  destruct (first_match n k) as [e|] eqn:Hm; cbn [fmap option_fmap option_map] in *.
  - erewrite bind_Ret; cycle 1.
    { erewrite bind_Ret by exact Hrun.
      erewrite bind_Ret by (eapply truthy_match; [by eapply holds_ext | exact Hm]).
      reflexivity. }
    exists s3. split; [by eapply ext_trans | done].
  - erewrite bind_Ret; cycle 1.
    { erewrite bind_Ret by exact Hrun. reflexivity. }
    apply IHks; [by eapply ext_trans | by eapply holds_kids_ext | done].
Qed.

(** ** get_object_info *)

Lemma chain_names_snoc chain t :
  chain_names (chain ++ [t]) =
  match chain_names chain, t_name t with
  | Some ns, Some n => Some (ns ++ [n])
  | _, _ => None
  end.
Proof.
  induction chain as [|c chain IH]; simpl.
  - by destruct (t_name t).
  - destruct (t_name c); [|done]. rewrite IH.
    destruct (chain_names chain); [|done]. by destruct (t_name t).
Qed.

Lemma info_outcome_lift t e s :
  info_outcome (lift_entry t e) s =
  match info_outcome e s with
  | Ret r s' =>
      match t_name t with
      | Some dn => Ret (r ++ [dn]) s'
      | None => Raise (KeyError "name") s'
      end
  | Raise x s' => Raise x s'
  end.
Proof.
  unfold info_outcome, e_chain. cbn [lift_entry e_obj e_parent e_above].
  destruct (_ !! "name"); [|done]. destruct (_ !! "category"); [|done].
  rewrite app_comm_cons, chain_names_snoc.
  destruct (chain_names (e_parent e :: e_above e)); [|done].
  by destruct (t_name t).
Qed.

Lemma info_outcome_nonempty e s r s' : info_outcome e s = Ret r s' → r ≠ [].
Proof.
  unfold info_outcome. destruct (_ !! "name"); [|done].
  destruct (_ !! "category"); [|done]. destruct (chain_names _); [|done].
  by intros [= <- <-].
Qed.

Lemma get_object_info_scan s n l nm objs kids os :
  s !! l = Some (ContDict (ContainerDict nm (fst <$> objs) (fst <$> kids))) →
  Forall (λ o : object, s !! o.1 = Some (ObjDict o.2)) os →
  for_each (λ object,
      nm <- obj_get object "name" ;;
      if bool_decide (Some n = nm) then
        n <- obj_subscript object "name" ;;
        c <- obj_subscript object "category" ;;
        dn <- cont_subscript_name l ;;
        ret (Some [n; c; dn])
      else ret None) os.*1 s
  = match find (named n) os with
    | Some o => omap_outcome Some (info_outcome (Entry o (LNode l nm objs kids) []) s)
    | None => Ret None s
    end.
Proof.
  intros Hl. induction 1 as [|[o d] os Ho _ IH]; [done|].
  cbn [for_each fmap list_fmap fst find]. simpl in Ho.
  unfold named at 1. cbn [snd].
  destruct (bool_decide (d !! "name" = Some n)) eqn:Hb.
  - apply bool_decide_eq_true in Hb.
    unfold info_outcome, e_chain. cbn [e_obj e_parent e_above snd chain_names t_name].
    rewrite Hb.
    unfold bind at 1. erewrite bind_Ret by (by apply obj_get_eq).
    rewrite Hb, bool_decide_eq_true_2 by done.
    unfold bind at 1. rewrite (obj_subscript_eq _ _ _ _ Ho), Hb.
    unfold bind at 1. rewrite (obj_subscript_eq _ _ _ _ Ho).
    destruct (d !! "category") as [c|]; [|done].
    unfold bind at 1. rewrite (cont_subscript_name_eq _ _ _ Hl). cbn [cd_name].
    by destruct nm.
  - apply bool_decide_eq_false in Hb.
    erewrite bind_Ret; cycle 1.
    { erewrite bind_Ret by (by apply obj_get_eq).
      rewrite bool_decide_eq_false_2 by congruence. reflexivity. }
    exact IH.
Qed.

Lemma get_object_info_spec fuel : ∀ t s n,
  holds s t → height t < fuel →
  ∃ s1, ext s s1 ∧
    get_object_info fuel (root t) n s =
    match first_match n t with
    | Some e => info_outcome e s1
    | None => Ret [] s1
    end.
Proof.
  induction fuel as [|fuel IH]; intros [l nm objs kids] s n Hh Hfuel; [lia|].
  pose proof Hh as Hh'. inversion Hh' as [? ? ? ? Hl Ho Hk Hks]; subst.
  cbn [get_object_info root].
  erewrite bind_Ret by (by apply dict_get_list_eq).
  erewrite bind_Ret by (by eapply read_objs).
  pose proof (ext_tick s) as Ht1. pose proof (holds_ext _ _ _ Ht1 Hh) as Hh1.
  assert (Hl1 : tick s !! l = Some (ContDict (ContainerDict nm (fst <$> objs) (fst <$> kids))))
    by (by apply Ht1).
  unfold bind at 1. erewrite get_object_info_scan; [|exact Hl1|]; cycle 1.
  { apply (objs_hold_ext _ _ _ Ht1) in Ho.
    destruct objs as [[??]|]; [apply Ho | constructor]. }
  rewrite first_match_eq.
  destruct (find (named n) (field_list objs)) as [o|].
  { exists (tick s). split; [done|].
    by destruct (info_outcome _ _). }
  erewrite bind_Ret by (by apply dict_get_list_eq).
  erewrite bind_Ret by (by eapply read_kids).
  pose proof (ext_tick (tick s)) as Ht2.
  assert (Hext : ext s (tick (tick s))) by (by eapply ext_trans).
  apply (holds_kids_ext _ _ _ Hext) in Hks.
  apply height_kids_lt in Hfuel.
  assert (Hl2 : tick (tick s) !! l = Some (ContDict (ContainerDict nm (fst <$> objs) (fst <$> kids))))
    by (by apply Ht2).
  revert Hext Hl2 Hks Hfuel. generalize (tick (tick s)) as s2.
  assert (Hnm : t_name (LNode l nm objs kids) = nm) by done.
  revert Hnm. generalize (LNode l nm objs kids) as t. clear -IH.
  intros t Hnm s2 Hext Hl2 Hks. revert s2 Hext Hl2 Hks.
  induction (field_list kids) as [|k ks IHks]; intros s2 Hext Hl2 Hks Hfuel.
  { exists s2. done. }
  apply Forall_cons in Hks as [Hk Hks]. apply Forall_cons in Hfuel as [Hfk Hfuel].
  rewrite find_kids_cons. cbn [fmap list_fmap for_each].
  destruct (IH k s2 n Hk Hfk) as (s3 & He3 & Hrun).
  assert (Hl3 : s3 !! l = Some (ContDict (ContainerDict nm (fst <$> objs) (fst <$> kids))))
    by (by apply He3).
  destruct (first_match n k) as [e|] eqn:Hm.
  - exists s3. split; [by eapply ext_trans|].
    rewrite info_outcome_lift, Hnm.
    unfold bind at 1 2 3. rewrite Hrun.
    destruct (info_outcome e s3) as [r s4|x s4] eqn:Hi; [|done].
    assert (s4 = s3) as ->.
    { revert Hi. unfold info_outcome. repeat case_match; congruence. }
    destruct r as [|r0 r]; [by apply info_outcome_nonempty in Hi|].
    unfold bind at 1. rewrite (cont_subscript_name_eq _ _ _ Hl3). cbn [cd_name].
    by destruct nm.
  - rewrite !bind_assoc. erewrite bind_Ret by exact Hrun.
    cbv beta iota. rewrite bind_ret_l.
    apply IHks; [by eapply ext_trans | done | by eapply holds_kids_ext | done].
Qed.

(** ** get_container_by_name *)

Lemma holds_cell s t :
  holds s t →
  s !! root t = Some (ContDict (ContainerDict (t_name t) (fst <$> t_objs_field t)
                                              (fst <$> t_kids_field t))).
Proof. by inversion 1. Qed.

Lemma holds_sub s t c : holds s t → In c (dfs_containers t) → holds s c.
Proof.
  revert c. induction t as [l nm objs kids IH] using ltree_ind'. intros c Hh.
  rewrite dfs_containers_eq. intros [<-|Hin]; [done|].
  inversion Hh as [? ? ? ? Hl Ho Hk Hks]; subst.
  apply in_flat_map in Hin as (k & Hk' & Hin). apply list_elem_of_In in Hk'.
  rewrite Forall_forall in IH, Hks. eauto.
Qed.

Lemma truthy_container s n t c :
  holds s t → first_container n t = Some c → truthy (Some (root c)) s = Ret true s.
Proof.
  intros Hh Hm. apply find_some in Hm as [Hin Hn].
  apply bool_decide_eq_true in Hn.
  unfold truthy. rewrite (holds_cell _ _ (holds_sub _ _ _ Hh Hin)). cbn [cd_name].
  rewrite Hn. by rewrite bool_decide_eq_true_2 by eauto.
Qed.

Lemma get_container_by_name_spec fuel : ∀ t s n,
  holds s t → height t < fuel →
  ∃ s1, ext s s1 ∧
    get_container_by_name fuel (root t) n s = Ret (root <$> first_container n t) s1.
Proof.
  induction fuel as [|fuel IH]; intros [l nm objs kids] s n Hh Hfuel; [lia|].
  pose proof Hh as Hh'. inversion Hh' as [? ? ? ? Hl Ho Hk Hks]; subst.
  cbn [get_container_by_name root].
  erewrite bind_Ret by (by apply cont_get_name_eq). cbn [cd_name].
  unfold first_container. rewrite dfs_containers_eq. cbn [find].
  unfold cnamed at 1. cbn [t_name].
  destruct (bool_decide (nm = Some n)).
  { exists s. split; [apply ext_refl | done]. }
  erewrite bind_Ret by (by apply dict_get_list_eq).
  erewrite bind_Ret by (by eapply read_kids).
  pose proof (ext_tick s) as Hext.
  apply (holds_kids_ext _ _ _ Hext) in Hks.
  apply height_kids_lt in Hfuel.
  revert Hext Hks Hfuel. generalize (tick s) as s2. clear -IH.
  induction (field_list kids) as [|k ks IHks]; intros s2 Hext Hks Hfuel.
  { exists s2. done. }
  apply Forall_cons in Hks as [Hk Hks]. apply Forall_cons in Hfuel as [Hfk Hfuel].
  cbn [flat_map fmap list_fmap for_each]. rewrite find_app'.
  destruct (IH k s2 n Hk Hfk) as (s3 & He3 & Hrun). unfold first_container in Hrun.
  destruct (find (cnamed n) (dfs_containers k)) as [c|] eqn:Hm;
    cbn [fmap option_fmap option_map] in *.
  - erewrite bind_Ret; cycle 1.
    { erewrite bind_Ret by exact Hrun.
      erewrite bind_Ret by (eapply truthy_container; [by eapply holds_ext | exact Hm]).
      reflexivity. }
    exists s3. split; [by eapply ext_trans | done].
  - erewrite bind_Ret; cycle 1.
    { erewrite bind_Ret by exact Hrun. reflexivity. }
    apply IHks; [by eapply ext_trans | by eapply holds_kids_ext | done].
Qed.

(** ** delete_object: what the code writes *)

Lemma py_index_first s n all o :
  Forall (λ o : object, s !! o.1 = Some (ObjDict o.2)) all →
  find (named n) all = Some o →
  ∃ i, py_index s o.1 all.*1 = Some i ∧
       delete i all.*1 = (remove_first (named n) all).*1.
Proof.
  induction 1 as [|[o' d'] os Ho Hos IH]; [done|].
  cbn [find remove_first fmap list_fmap py_index fst]. simpl in Ho.
  destruct (named n (o', d')) eqn:Hn.
  - intros [= <-]. exists 0. split; [|done]. unfold py_eq. cbn [fst].
    by rewrite bool_decide_eq_true_2.
  - intros Hf. destruct (IH Hf) as (i & Hi & Hd).
    exists (S i). split; [|cbn; f_equal; exact Hd].
    assert (py_eq s o' o.1 = false) as ->; [|by rewrite Hi].
    apply find_some in Hf as [Hin Hno]. rewrite Forall_forall in Hos.
    apply list_elem_of_In, Hos in Hin.
    assert (d' ≠ o.2).
    { intros ->. unfold named in Hn, Hno. simpl in Hn. congruence. }
    unfold py_eq. rewrite Ho, Hin.
    rewrite (bool_decide_eq_false_2 (d' = o.2)) by done.
    rewrite bool_decide_eq_false_2; [done|]. intros ->. congruence.
Qed.

Lemma delete_object_scan s n ol all :
  s !! ol = Some (PyList all.*1) →
  Forall (λ o : object, s !! o.1 = Some (ObjDict o.2)) all →
  ∀ os,
  (∀ o, find (named n) os = Some o → find (named n) all = Some o) →
  Forall (λ o : object, s !! o.1 = Some (ObjDict o.2)) os →
  for_each (λ object,
      nm <- obj_get object "name" ;;
      if bool_decide (nm = Some n) then
        list_remove ol object ;; ret (Some true)
      else ret None) os.*1 s
  = match find (named n) os with
    | Some _ => Ret (Some true) (<[ol := PyList (remove_first (named n) all).*1]> s)
    | None => Ret None s
    end.
Proof.
  intros Hol Hall os Hsuf. induction 1 as [|[o d] os Ho _ IH]; [done|].
  cbn [for_each fmap list_fmap fst find] in *. simpl in Ho.
  unfold named at 1 in Hsuf. unfold named at 1. cbn [snd] in *.
  destruct (bool_decide (d !! "name" = Some n)) eqn:Hb.
  - destruct (py_index_first s n all (o, d) Hall (Hsuf _ eq_refl)) as (i & Hi & Hd).
    unfold bind at 1. erewrite bind_Ret by (by apply obj_get_eq).
    rewrite Hb. unfold bind at 1, list_remove. rewrite Hol. cbn [fst] in Hi.
    by rewrite Hi, Hd.
  - erewrite bind_Ret; cycle 1.
    { erewrite bind_Ret by (by apply obj_get_eq). rewrite Hb. reflexivity. }
    apply IH. exact Hsuf.
Qed.

Lemma delete_write_lift n t e s : delete_write n (lift_entry t e) s = delete_write n e s.
Proof. done. Qed.

Lemma delete_object_spec fuel : ∀ t s n,
  holds s t → height t < fuel →
  ∃ s1, ext s s1 ∧
    delete_object fuel (root t) n s = delete_outcome n (first_match n t) s1.
Proof.
  induction fuel as [|fuel IH]; intros [l nm objs kids] s n Hh Hfuel; [lia|].
  pose proof Hh as Hh'. inversion Hh' as [? ? ? ? Hl Ho Hk Hks]; subst.
  cbn [delete_object root].
  erewrite bind_Ret by (by apply dict_get_list_eq).
  erewrite bind_Ret by (by eapply read_objs).
  pose proof (ext_tick s) as Ht1. pose proof (holds_ext _ _ _ Ht1 Hh) as Hh1.
  assert (Hl1 : tick s !! l = Some (ContDict (ContainerDict nm (fst <$> objs) (fst <$> kids))))
    by (by apply Ht1).
  rewrite first_match_eq.
  assert (Hscan :
    for_each (λ object,
      nm <- obj_get object "name" ;;
      if bool_decide (nm = Some n) then
        list_remove (default (fresh_loc s) (fst <$> objs)) object ;; ret (Some true)
      else ret None) (field_list objs).*1 (tick s)
    = match find (named n) (field_list objs) with
      | Some o => Ret (Some true)
                    (delete_write n (Entry o (LNode l nm objs kids) []) (tick s))
      | None => Ret None (tick s)
      end).
  { destruct objs as [[ol os]|]; [|done].
    apply (objs_hold_ext _ _ _ Ht1) in Ho. destruct Ho as [Hol Hos].
    cbn [field_list fmap option_fmap option_map default fst].
    etrans; [exact (delete_object_scan _ n ol os Hol Hos os (λ _ H, H) Hos)|].
    by destruct (find (named n) os). }
  cbn [cd_objects]. unfold bind at 1. rewrite Hscan. clear Hscan.
  destruct (find (named n) (field_list objs)) as [o|].
  { exists (tick s). done. }
  erewrite bind_Ret by (by apply dict_get_list_eq).
  erewrite bind_Ret by (by eapply read_kids).
  pose proof (ext_tick (tick s)) as Ht2.
  assert (Hext : ext s (tick (tick s))) by (by eapply ext_trans).
  apply (holds_kids_ext _ _ _ Hext) in Hks.
  apply height_kids_lt in Hfuel.
  revert Hext Hks Hfuel. generalize (tick (tick s)) as s2.
  generalize (LNode l nm objs kids) as t. clear -IH.
  intros t s2 Hext Hks. revert s2 Hext Hks.
  induction (field_list kids) as [|k ks IHks]; intros s2 Hext Hks Hfuel.
  { exists s2. done. }
  apply Forall_cons in Hks as [Hk Hks]. apply Forall_cons in Hfuel as [Hfk Hfuel].
  rewrite find_kids_cons. cbn [fmap list_fmap for_each].
  destruct (IH k s2 n Hk Hfk) as (s3 & He3 & Hrun).
  rewrite !bind_assoc.
  destruct (first_match n k) as [e|] eqn:Hm; cbn [delete_outcome] in *;
    erewrite bind_Ret by exact Hrun; cbv beta iota.
  - exists s3. split; [by eapply ext_trans|]. done.
  - rewrite bind_ret_l.
    apply IHks; [by eapply ext_trans | by eapply holds_kids_ext | done].
Qed.

(** ** modify_object: what the code writes *)

Lemma obj_set_if_eq s o d value key :
  s !! o = Some (ObjDict d) →
  (if bool_decide (value = "") then ret tt else obj_set o key value) s
  = Ret tt (<[o := ObjDict (set_if value key d)]> s).
Proof.
  intros H. unfold set_if. destruct (bool_decide (value = "")).
  - unfold ret. by rewrite insert_id.
  - unfold obj_set, bind, read_obj, write. by rewrite H.
Qed.

Lemma modify_object_spec fuel t s n new_name new_category :
  holds s t → height t < fuel →
  ∃ s1, ext s s1 ∧
    modify_object fuel (root t) n new_name new_category s =
    match first_match n t with
    | Some e => Ret true (modify_write new_name new_category e s1)
    | None => Ret false s1
    end.
Proof.
  intros Hh Hfuel. destruct (get_object_spec fuel t s n Hh Hfuel) as (s1 & He & Hrun).
  exists s1. split; [done|]. unfold modify_object.
  erewrite bind_Ret by exact Hrun.
  destruct (first_match n t) as [e|] eqn:Hm; cbn [fmap option_fmap option_map]; [|done].
  apply first_match_In in Hm as [Hin _].
  pose proof (holds_dfs_obj _ _ _ (holds_ext _ _ _ He Hh) Hin) as Ho.
  erewrite bind_Ret by (by apply obj_set_if_eq).
  erewrite bind_Ret; cycle 1.
  { apply obj_set_if_eq. apply lookup_insert_eq. }
  unfold modify_write, updated. by rewrite insert_insert_eq.
Qed.

(** ** The tree after a deletion *)

Lemma t_delete_eq n l nm objs kids :
  t_delete n (LNode l nm objs kids) =
  match find (named n) (field_list objs) with
  | Some _ => LNode l nm (map_field (remove_first (named n)) objs) kids
  | None => LNode l nm objs (map_field (map_first (has_match n) (t_delete n)) kids)
  end.
Proof. by destruct kids as [[??]|]. Qed.

Lemma field_list_map_field {A} (f : list A → list A) o :
  f [] = [] → field_list (map_field f o) = f (field_list o).
Proof. by destruct o as [[??]|]. Qed.

Lemma field_loc_map_field {A} (f : list A → list A) o :
  field_loc (map_field f o) = field_loc o.
Proof. by destruct o as [[??]|]. Qed.

Lemma fst_map_field {A} (f : list A → list A) (o : option (loc * list A)) :
  fst <$> map_field f o = fst <$> o.
Proof. by destruct o as [[??]|]. Qed.

Lemma root_t_delete n t : root (t_delete n t) = root t.
Proof. destruct t as [l nm objs kids]. rewrite t_delete_eq. by destruct (find _ _). Qed.

Lemma map_first_id {A} (p : A → bool) (f : A → A) l :
  (∀ x, In x l → p x = false) → map_first p f l = l.
Proof.
  induction l as [|x l IH]; [done|]. intros H. simpl.
  rewrite (H x) by (by left). f_equal. apply IH. intros y Hy. apply H. by right.
Qed.

Lemma map_first_root n ks :
  root <$> map_first (has_match n) (t_delete n) ks = root <$> ks.
Proof.
  induction ks as [|k ks IH]; [done|]. simpl.
  destruct (has_match n k); cbn [fmap list_fmap]; [by rewrite root_t_delete | by f_equal].
Qed.

Lemma dfs_objects_eq l nm objs kids :
  dfs_objects (LNode l nm objs kids) =
  field_list objs ++ flat_map dfs_objects (field_list kids).
Proof.
  unfold dfs_objects. rewrite dfs_eq, map_app, map_map. simpl. rewrite map_id.
  f_equal. induction (field_list kids) as [|k ks IH]; [done|].
  simpl. rewrite map_app, map_map, IH. done.
Qed.

Lemma has_match_objects n t :
  has_match n t = match find (named n) (dfs_objects t) with Some _ => true | None => false end.
Proof.
  unfold has_match, first_match, dfs_objects. rewrite find_map'.
  by destruct (find _ (dfs t)).
Qed.

Lemma remove_first_app {A} (p : A → bool) l1 l2 :
  remove_first p (l1 ++ l2) =
  match find p l1 with
  | Some _ => remove_first p l1 ++ l2
  | None => l1 ++ remove_first p l2
  end.
Proof.
  induction l1 as [|x l1 IH]; simpl; [done|].
  destruct (p x); [done|]. rewrite IH. by destruct (find p l1).
Qed.

Lemma dfs_objects_t_delete n t :
  dfs_objects (t_delete n t) = remove_first (named n) (dfs_objects t).
Proof.
  induction t as [l nm objs kids IH] using ltree_ind'.
  rewrite t_delete_eq, (dfs_objects_eq l nm objs kids), remove_first_app.
  destruct (find (named n) (field_list objs)) as [o|].
  { rewrite dfs_objects_eq, field_list_map_field by done. done. }
  rewrite dfs_objects_eq, field_list_map_field by done. f_equal.
  induction (field_list kids) as [|k ks IHks]; [done|].
  apply Forall_cons in IH as [IHk IH]. cbn [map_first flat_map].
  rewrite remove_first_app, has_match_objects.
  destruct (find (named n) (dfs_objects k)); cbn [flat_map].
  - by rewrite IHk.
  - by rewrite IHks.
Qed.

Lemma first_match_None_delete n t : first_match n t = None → t_delete n t = t.
Proof.
  induction t as [l nm objs kids IH] using ltree_ind'.
  rewrite first_match_eq, t_delete_eq.
  destruct (find (named n) (field_list objs)); [done|]. intros Hf. f_equal.
  destruct kids as [[kl ks]|]; [|done]. simpl in *. do 2 f_equal.
  revert Hf. generalize (LNode l nm objs (Some (kl, ks))) as t0. intros t0.
  induction ks as [|k ks IHks]; [done|].
  apply Forall_cons in IH as [IHk IH]. rewrite find_kids_cons.
  simpl. unfold has_match at 1. destruct (first_match n k); [done|].
  intros Hf. f_equal. by apply IHks.
Qed.

Lemma height_t_delete n t : height (t_delete n t) = height t.
Proof.
  induction t as [l nm objs kids IH] using ltree_ind'.
  rewrite t_delete_eq. destruct (find _ _); rewrite !height_eq; [done|].
  rewrite field_list_map_field by done. do 2 f_equal.
  induction (field_list kids) as [|k ks IHks]; [done|].
  apply Forall_cons in IH as [IHk IH]. simpl.
  destruct (has_match n k); simpl; [by rewrite IHk | by rewrite IHks].
Qed.

Lemma remove_first_sublist {A} (p : A → bool) l : remove_first p l `sublist_of` l.
Proof.
  induction l as [|x l IH]; simpl; [done|].
  destruct (p x); [by apply sublist_cons | by apply sublist_skip].
Qed.

Lemma locs_t_delete_sublist n t : locs (t_delete n t) `sublist_of` locs t.
Proof.
  induction t as [l nm objs kids IH] using ltree_ind'.
  rewrite t_delete_eq. destruct (find _ _); rewrite !locs_eq.
  - rewrite field_loc_map_field, field_list_map_field by done.
    apply sublist_skip, sublist_app; [|done]. apply sublist_app; [done|].
    apply fmap_sublist, remove_first_sublist.
  - rewrite field_loc_map_field, field_list_map_field by done.
    apply sublist_skip, sublist_app; [done|]. apply sublist_app; [done|].
    induction (field_list kids) as [|k ks IHks]; [done|].
    apply Forall_cons in IH as [IHk IH]. simpl.
    destruct (has_match n k); simpl; apply sublist_app; auto.
Qed.

Lemma NoDup_t_delete n t : NoDup (locs t) → NoDup (locs (t_delete n t)).
Proof. intros H. exact (sublist_NoDup _ _ H (locs_t_delete_sublist n t)). Qed.

Lemma elem_of_flat_map {A B} (f : A → list B) (l : list A) (x : B) :
  x ∈ flat_map f l ↔ ∃ y, y ∈ l ∧ x ∈ f y.
Proof.
  rewrite list_elem_of_In, in_flat_map. split; intros (y & H1 & H2); exists y;
    by rewrite ?list_elem_of_In in *.
Qed.

Lemma root_in_locs t : root t ∈ locs t.
Proof. destruct t. rewrite locs_eq. apply list_elem_of_here. Qed.

Lemma kid_locs_in l nm objs kids k x :
  k ∈ field_list kids → x ∈ locs k → x ∈ locs (LNode l nm objs kids).
Proof.
  intros Hk Hx. rewrite locs_eq. apply list_elem_of_further.
  rewrite !elem_of_app, elem_of_flat_map. eauto.
Qed.

(** A store that agrees with [s] on the references of [t] holds [t] too. *)
Lemma holds_agree s s' t :
  holds s t → (∀ l, l ∈ locs t → s' !! l = s !! l) → holds s' t.
Proof.
  induction t as [l nm objs kids IH] using ltree_ind'.
  inversion 1 as [? ? ? ? Hl Ho Hk Hks]; subst. intros Hag.
  assert (Hag' : ∀ x, x ∈ (field_loc objs ++ (field_list objs).*1)
                        ++ (field_loc kids ++ flat_map locs (field_list kids)) →
                      s' !! x = s !! x).
  { intros x Hx. apply Hag. rewrite locs_eq. by apply list_elem_of_further. }
  constructor.
  - rewrite Hag; [done|]. apply (root_in_locs (LNode l nm objs kids)).
  - destruct objs as [[ol os]|]; [|done]. destruct Ho as [Ho1 Ho2]. split.
    + rewrite Hag'; [done|]. simpl. apply list_elem_of_here.
    + rewrite Forall_forall in Ho2 |- *. intros x Hx. rewrite Hag'; [by apply Ho2|].
      simpl. apply list_elem_of_further, elem_of_app. left.
      apply list_elem_of_fmap. eauto.
  - destruct kids as [[kl ks]|]; [|done]. simpl in *.
    rewrite Hag'; [done|]. rewrite !elem_of_app. right. apply list_elem_of_here.
  - rewrite Forall_forall in IH, Hks |- *. intros k Hk'.
    apply IH; [done | by apply Hks |]. intros x Hx. apply Hag.
    by eapply kid_locs_in.
Qed.

Lemma holds_frame s t l c : holds s t → l ∉ locs t → holds (<[l := c]> s) t.
Proof.
  intros Hh Hl. apply (holds_agree s); [done|]. intros x Hx.
  apply lookup_insert_ne. intros ->. done.
Qed.

(** Every tree with pairwise distinct references is held by a store. *)
Lemma objs_cells_fst objs :
  (objs_cells objs).*1 = field_loc objs ++ (field_list objs).*1.
Proof.
  destruct objs as [[ol os]|]; [|done]. cbn [objs_cells fmap list_fmap fst field_loc
    field_list app]. f_equal. induction os as [|o os IH]; [done|].
  cbn [map fmap list_fmap fst]. by rewrite IH.
Qed.

Lemma cells_fst t : (cells t).*1 = locs t.
Proof.
  induction t as [l nm objs kids IH] using ltree_ind'.
  rewrite locs_eq. cbn [cells fmap list_fmap fst]. f_equal.
  rewrite fmap_app, objs_cells_fst. f_equal.
  destruct kids as [[kl ks]|]; [|done]. cbn [fmap list_fmap fst field_loc field_list app] in *.
  f_equal. induction ks as [|k ks IHks]; [done|].
  apply Forall_cons in IH as [IHk IH]. cbn [flat_map]. by rewrite fmap_app, IHk, IHks.
Qed.

Lemma objs_cells_hold s objs :
  (∀ x, x ∈ objs_cells objs → s !! x.1 = Some x.2) → objs_hold s objs.
Proof.
  destruct objs as [[ol os]|]; [|done]. intros Hc. split.
  - apply (Hc (ol, PyList os.*1)). apply list_elem_of_here.
  - apply Forall_forall. intros o Ho. apply (Hc (o.1, ObjDict o.2)).
    apply list_elem_of_further, list_elem_of_In, in_map_iff. exists o.
    by rewrite <- list_elem_of_In.
Qed.

Lemma holds_of_cells s t :
  (∀ x, x ∈ cells t → s !! x.1 = Some x.2) → holds s t.
Proof.
  induction t as [l nm objs kids IH] using ltree_ind'. cbn [cells]. intros Hc.
  constructor.
  - apply (Hc (l, _)). apply list_elem_of_here.
  - apply objs_cells_hold. intros x Hx. apply Hc.
    apply list_elem_of_further, elem_of_app. by left.
  - destruct kids as [[kl ks]|]; [|done]. apply (Hc (kl, _)).
    apply list_elem_of_further, elem_of_app. right. apply list_elem_of_here.
  - destruct kids as [[kl ks]|]; [|by constructor]. cbn [field_list] in *.
    rewrite Forall_forall in IH |- *. intros k Hk. apply IH; [done|].
    intros x Hx. apply Hc. apply list_elem_of_further, elem_of_app. right.
    apply list_elem_of_further, elem_of_flat_map. eauto.
Qed.

Lemma store_of_tree_wf t : NoDup (locs t) → wf (store_of_tree t) t.
Proof.
  intros Hnd. split; [done|]. apply holds_of_cells. intros [l c] Hin.
  apply elem_of_list_to_map_1; [by rewrite cells_fst | done].
Qed.

Lemma document_ind' (P : document → Prop) :
  (∀ nm objs kids,
     match kids with Some ks => Forall P ks | None => True end → P (Doc nm objs kids)) →
  ∀ d, P d.
Proof.
  intros IH. fix rec 1. intros [nm objs kids]. apply IH.
  destruct kids as [ks|]; [|done].
  induction ks as [|k ks IHks]; constructor; [apply rec | apply IHks].
Qed.

Lemma within_nil p q : within p q [].
Proof. split; [constructor|]. intros x Hx. by apply elem_of_nil in Hx. Qed.

Lemma within_cons p q l :
  (Pos.succ p ≤ q)%positive → within (Pos.succ p) q l → within p q (p :: l).
Proof.
  intros Hpq [Hnd Hr]. split.
  - apply NoDup_cons. split; [|done]. intros Hp. apply Hr in Hp. lia.
  - intros x [->|Hx]%elem_of_cons; [lia|]. apply Hr in Hx. lia.
Qed.

Lemma within_app p q r l1 l2 :
  (p ≤ q)%positive → (q ≤ r)%positive →
  within p q l1 → within q r l2 → within p r (l1 ++ l2).
Proof.
  intros Hpq Hqr [Hnd1 Hr1] [Hnd2 Hr2]. split.
  - apply NoDup_app. split; [done|]. split; [|done].
    intros x Hx1 Hx2. apply Hr1 in Hx1. apply Hr2 in Hx2. lia.
  - intros x [Hx|Hx]%elem_of_app; [apply Hr1 in Hx | apply Hr2 in Hx]; lia.
Qed.

Lemma layout_objects ds : ∀ q,
  let r := map_state (λ (d : gmap string string) q, ((q, d), Pos.succ q)) ds q in
  snd <$> fst r = ds ∧ (q ≤ snd r)%positive ∧ within q (snd r) (fst <$> fst r).
Proof.
  induction ds as [|d ds IH]; intros q; cbv zeta; cbn [map_state fst snd].
  - split; [done|]. split; [lia | apply within_nil].
  - specialize (IH (Pos.succ q)). cbv zeta in IH.
    destruct (map_state _ ds (Pos.succ q)) as [os q'].
    cbn [fst snd fmap list_fmap] in *. destruct IH as (H1 & H2 & H3).
    split; [by f_equal|]. split; [lia|]. by apply within_cons.
Qed.

Lemma layout_containers ks : Forall laid_out ks → ∀ q,
  map erase (map_state layout ks q).1 = ks ∧
  (q ≤ (map_state layout ks q).2)%positive ∧
  within q (map_state layout ks q).2 (flat_map locs (map_state layout ks q).1).
Proof.
  induction 1 as [|k ks Hk _ IH]; intros q; cbn [map_state].
  - cbn [fst snd]. split; [done|]. split; [lia | apply within_nil].
  - destruct (Hk q) as (E1 & _ & E2 & E3).
    destruct (layout k q) as [k' q1]. specialize (IH q1).
    destruct (map_state layout ks q1) as [ks' q2].
    cbn [fst snd map flat_map] in *. destruct IH as (H1 & H2 & H3).
    split; [by f_equal|]. split; [lia|].
    apply (within_app q q1 q2); [lia | done | done | done].
Qed.

Lemma layout_laid_out d : laid_out d.
Proof.
  induction d as [nm objs kids IH] using document_ind'. intros p.
  cbn [layout].
  assert (Hobjs : ∃ objs' p1,
    match objs with
    | Some ds =>
        let (os, q) := map_state (λ d q, ((q, d), Pos.succ q)) ds (Pos.succ (Pos.succ p)) in
        (Some (Pos.succ p, os), q)
    | None => (None, Pos.succ p)
    end = (objs', p1) ∧
    match objs' with Some (_, os) => Some os.*2 | None => None end = objs ∧
    (Pos.succ p ≤ p1)%positive ∧
    within (Pos.succ p) p1 (field_loc objs' ++ (field_list objs').*1)).
  { destruct objs as [ds|].
    - pose proof (layout_objects ds (Pos.succ (Pos.succ p))) as (H1 & H2 & H3).
      destruct (map_state _ ds _) as [os q]. cbn [fst snd] in *.
      eexists _, _. split; [done|]. split; [by rewrite H1|]. split; [lia|].
      by apply within_cons.
    - eexists _, _. split; [done|]. split; [done|]. split; [lia | apply within_nil]. }
  destruct Hobjs as (objs' & p1 & -> & Eo & Hp1 & Hw1).
  assert (Hkids : ∃ kids' p2,
    match kids with
    | Some ks =>
        let (ks', q) := map_state layout ks (Pos.succ p1) in (Some (p1, ks'), q)
    | None => (None, p1)
    end = (kids', p2) ∧
    match kids' with Some (_, ks) => Some (map erase ks) | None => None end = kids ∧
    (p1 ≤ p2)%positive ∧
    within p1 p2 (field_loc kids' ++ flat_map locs (field_list kids'))).
  { destruct kids as [ks|].
    - pose proof (layout_containers ks IH (Pos.succ p1)) as (H1 & H2 & H3).
      destruct (map_state layout ks _) as [ks' q]. cbn [fst snd] in *.
      eexists _, _. split; [done|]. split; [by rewrite H1|]. split; [lia|].
      by apply within_cons.
    - eexists _, _. split; [done|]. split; [done|]. split; [lia | apply within_nil]. }
  destruct Hkids as (kids' & p2 & -> & Ek & Hp2 & Hw2).
  cbn [fst snd root]. split.
  { destruct objs' as [[??]|], kids' as [[??]|]; simpl in *; by subst. }
  split; [done|]. split; [lia|].
  rewrite locs_eq. apply within_cons; [lia|].
  apply (within_app _ p1 p2); [lia | done | done | done].
Qed.

(** Every catalog document is the contents of a well-formed catalog. *)
Lemma every_document_has_a_store d :
  ∃ s t, erase t = d ∧ wf s t.
Proof.
  destruct (layout_laid_out d 1%positive) as (He & _ & _ & Hnd & _).
  exists (store_of_tree (layout d 1%positive).1), (layout d 1%positive).1.
  split; [done|]. by apply store_of_tree_wf.
Qed.

(** The container of an entry and its list of objects. *)
Lemma dfs_parent t e :
  In e (dfs t) →
  ∃ ol os, t_objs_field (e_parent e) = Some (ol, os) ∧ In (e_obj e) os ∧
           ol ∈ locs t ∧ e_loc e ∈ locs t.
Proof.
  revert e. induction t as [l nm objs kids IH] using ltree_ind'. intros e.
  rewrite dfs_eq, in_app_iff, in_map_iff, in_flat_map.
  intros [(o & <- & Hin)|(k & Hk & Hin)].
  - destruct objs as [[ol os]|]; [|done]. exists ol, os.
    cbn [e_parent e_obj t_objs_field field_list] in *.
    split; [done|]. split; [done|]. rewrite locs_eq. simpl. split.
    + apply list_elem_of_further, list_elem_of_here.
    + do 2 apply list_elem_of_further. apply elem_of_app. left.
      apply list_elem_of_fmap. exists o. by rewrite list_elem_of_In.
  - apply in_map_iff in Hin as (e' & <- & He'). apply list_elem_of_In in Hk.
    rewrite Forall_forall in IH. destruct (IH k Hk e' He') as (ol & os & H1 & H2 & H3 & H4).
    exists ol, os. cbn [lift_entry e_parent e_obj]. repeat split; [done..| |];
      by eapply kid_locs_in.
Qed.

Lemma delete_write_frame n t e :
  In e (dfs t) →
  ∃ ol, ol ∈ locs t ∧ ∀ s l, l ≠ ol → delete_write n e s !! l = s !! l.
Proof.
  intros (ol & os & H1 & _ & H3 & _)%dfs_parent. exists ol. split; [done|].
  intros s l Hne. unfold delete_write. rewrite H1. by apply lookup_insert_ne.
Qed.

Lemma holds_delete_kids n t0 s : ∀ ks e,
  NoDup (flat_map locs ks) →
  Forall (holds s) ks →
  Forall (λ k, ∀ s e, NoDup (locs k) → holds s k → first_match n k = Some e →
               holds (delete_write n e s) (t_delete n k)) ks →
  find (λ e, named n (e_obj e)) (flat_map (λ k, map (lift_entry t0) (dfs k)) ks) = Some e →
  Forall (holds (delete_write n e s)) (map_first (has_match n) (t_delete n) ks) ∧
  ∃ ol, ol ∈ flat_map locs ks ∧ ∀ l, l ≠ ol → delete_write n e s !! l = s !! l.
Proof.
  induction ks as [|k ks IHks]; intros e Hnd Hks IH; [done|].
  cbn [flat_map] in Hnd. apply NoDup_app in Hnd as (Hnd1 & Hdisj & Hnd2).
  apply Forall_cons in Hks as [Hk Hks]. apply Forall_cons in IH as [IHk IH].
  rewrite find_kids_cons. cbn [map_first]. unfold has_match at 1.
  destruct (first_match n k) as [e0|] eqn:Hm.
  - intros [= <-]. rewrite delete_write_lift. 
    destruct (delete_write_frame n k e0) as (ol & Hol & Hfr);
      [by apply first_match_In in Hm as [? _]|].
    split.
    + apply Forall_cons. split; [by apply IHk|].
      rewrite Forall_forall in Hks |- *. intros k' Hk'.
      apply (holds_agree s); [by apply Hks|]. intros x Hx. apply Hfr.
      intros ->. apply (Hdisj _ Hol). apply elem_of_flat_map. eauto.
    + exists ol. split; [|by auto]. cbn [flat_map]. apply elem_of_app. by left.
  - intros Hf. destruct (IHks e Hnd2 Hks IH Hf) as (Hall & ol & Hol & Hfr).
    split.
    + apply Forall_cons. split; [|done].
      apply (holds_agree s); [done|]. intros x Hx. apply Hfr.
      intros ->. by apply (Hdisj _ Hx).
    + exists ol. split; [|done]. cbn [flat_map]. apply elem_of_app. by right.
Qed.

(** After [delete_object] has run, the store holds [t_delete n t]. *)
Lemma holds_delete n t : ∀ s e,
  NoDup (locs t) → holds s t → first_match n t = Some e →
  holds (delete_write n e s) (t_delete n t).
Proof.
  induction t as [l nm objs kids IH] using ltree_ind'. intros s e Hnd Hh.
  inversion Hh as [? ? ? ? Hl Ho Hk Hks]; subst.
  rewrite first_match_eq, t_delete_eq. rewrite locs_eq in Hnd.
  apply NoDup_cons in Hnd as [Hl' Hnd]. apply NoDup_app in Hnd as (Hnd1 & Hdisj & Hnd2).
  destruct (find (named n) (field_list objs)) as [o|] eqn:Hfind.
  - intros [= <-]. destruct objs as [[ol os]|]; [|done].
    unfold delete_write. cbn [e_parent t_objs_field map_field field_list field_loc] in *.
    cbn [app] in Hnd1. apply NoDup_cons in Hnd1 as [Hol Hnd1].
    assert (Hne : ∀ x, x ≠ ol → (<[ol := PyList (remove_first (named n) os).*1]> s : store) !! x = s !! x).
    { intros x Hx. by apply lookup_insert_ne. }
    constructor.
    + rewrite Hne; [done|]. intros ->. apply Hl'. apply elem_of_app. left.
      apply list_elem_of_here.
    + destruct Ho as [Ho1 Ho2]. split; [apply lookup_insert_eq|].
      rewrite Forall_forall in Ho2 |- *. intros x Hx.
      assert (Hx' : x ∈ os).
      { eapply elem_of_sublist; [exact Hx | apply remove_first_sublist]. }
      rewrite Hne; [by apply Ho2|]. intros E. apply Hol. rewrite <- E.
      apply list_elem_of_fmap. eauto.
    + destruct kids as [[kl ks]|]; [|done]. simpl in *. rewrite Hne; [done|].
      intros E. apply (Hdisj ol); [apply list_elem_of_here|].
      rewrite <- E. apply list_elem_of_here.
    + rewrite Forall_forall in Hks |- *. intros k Hk'. apply holds_frame; [by apply Hks|].
      intros Hin. apply (Hdisj ol); [apply list_elem_of_here|].
      apply elem_of_app. right. apply elem_of_flat_map. eauto.
  - intros Hf.
    assert (Hndk : NoDup (flat_map locs (field_list kids))).
    { by apply NoDup_app in Hnd2 as (_ & _ & ?). }
    destruct (holds_delete_kids n _ s _ e Hndk Hks IH Hf) as (Hall & ol & Hol & Hfr).
    assert (Hne : ∀ x, x ∈ l :: (field_loc objs ++ (field_list objs).*1) ++ field_loc kids →
                       delete_write n e s !! x = s !! x).
    { intros x Hx. apply Hfr. intros ->.
      apply elem_of_cons in Hx as [->|Hx].
      - apply Hl'. rewrite !elem_of_app. auto.
      - apply elem_of_app in Hx as [Hx|Hx].
        + apply (Hdisj _ Hx). apply elem_of_app. auto.
        + apply NoDup_app in Hnd2 as (_ & Hd2 & _). by apply (Hd2 _ Hx). }
    constructor.
    + rewrite fst_map_field, Hne; [done|]. apply list_elem_of_here.
    + destruct objs as [[ol' os]|]; [|done]. destruct Ho as [Ho1 Ho2]. split.
      * rewrite Hne; [done|]. simpl. apply list_elem_of_further, list_elem_of_here.
      * rewrite Forall_forall in Ho2 |- *. intros x Hx. rewrite Hne; [by apply Ho2|].
        simpl. do 2 apply list_elem_of_further. apply elem_of_app. left.
        apply list_elem_of_fmap. eauto.
    + destruct kids as [[kl ks]|]; [|done]. simpl in *. rewrite map_first_root.
      rewrite Hne; [done|]. apply list_elem_of_further.
      rewrite !elem_of_app. right. apply list_elem_of_here.
    + by rewrite field_list_map_field.
Qed.

(** ** The tree after a modification *)

Lemma t_update_eq o d l nm objs kids :
  t_update o d (LNode l nm objs kids) =
  LNode l nm (map_field (map (set_obj o d)) objs) (map_field (map (t_update o d)) kids).
Proof. by destruct kids as [[??]|]. Qed.

Lemma root_t_update o d t : root (t_update o d t) = root t.
Proof. by destruct t. Qed.

Lemma set_obj_fst o d (os : list object) : (map (set_obj o d) os).*1 = os.*1.
Proof.
  induction os as [|x os IH]; [done|]. cbn [map fmap list_fmap]. f_equal; [|exact IH].
  unfold set_obj. case_bool_decide; [by subst|done].
Qed.

Lemma height_t_update o d t : height (t_update o d t) = height t.
Proof.
  induction t as [l nm objs kids IH] using ltree_ind'.
  rewrite t_update_eq, !height_eq, field_list_map_field by done. do 2 f_equal.
  rewrite map_map. induction (field_list kids) as [|k ks IHks]; [done|].
  apply Forall_cons in IH as [IHk IH]. simpl. by rewrite IHk, IHks.
Qed.

Lemma locs_t_update o d t : locs (t_update o d t) = locs t.
Proof.
  induction t as [l nm objs kids IH] using ltree_ind'.
  rewrite t_update_eq, !locs_eq, !field_loc_map_field, !field_list_map_field by done.
  rewrite set_obj_fst.
  assert (flat_map locs (map (t_update o d) (field_list kids))
          = flat_map locs (field_list kids)) as ->; [|done].
  induction (field_list kids) as [|k ks IHks]; [done|].
  apply Forall_cons in IH as [IHk IH]. simpl. by rewrite IHk, IHks.
Qed.

Lemma dfs_objects_t_update o d t :
  dfs_objects (t_update o d t) = map (set_obj o d) (dfs_objects t).
Proof.
  induction t as [l nm objs kids IH] using ltree_ind'.
  rewrite t_update_eq, !dfs_objects_eq, !field_list_map_field, map_app by done.
  f_equal. induction (field_list kids) as [|k ks IHks]; [done|].
  apply Forall_cons in IH as [IHk IH]. simpl. by rewrite IHk, IHks, map_app.
Qed.

Lemma holds_update s t o d0 d :
  holds s t → s !! o = Some (ObjDict d0) →
  holds (<[o := ObjDict d]> s) (t_update o d t).
Proof.
  intros Hh Ho. induction t as [l nm objs kids IH] using ltree_ind'.
  inversion Hh as [? ? ? ? Hl Hos Hk Hks]; subst. rewrite t_update_eq.
  assert (Hne : ∀ x c, s !! x = Some c → (∀ d', c ≠ ObjDict d') →
                       (<[o := ObjDict d]> s : store) !! x = Some c).
  { intros x c Hx Hc. rewrite lookup_insert_ne; [done|]. intros ->.
    rewrite Ho in Hx. injection Hx as <-. by eapply Hc. }
  constructor.
  - rewrite !fst_map_field. by apply Hne.
  - destruct objs as [[ol os]|]; [|done]. destruct Hos as [Ho1 Ho2]. split.
    + rewrite set_obj_fst. by apply Hne.
    + rewrite Forall_forall in Ho2 |- *. intros x Hx.
      apply list_elem_of_In, in_map_iff in Hx as (y & <- & Hy).
      apply list_elem_of_In, Ho2 in Hy. unfold set_obj. case_bool_decide.
      * apply lookup_insert_eq.
      * by rewrite lookup_insert_ne.
  - destruct kids as [[kl ks]|]; [|done]. simpl in *.
    replace (root <$> map (t_update o d) ks) with (root <$> ks); [by apply Hne|].
    clear. induction ks as [|k ks IHks]; [done|].
    cbn [map fmap list_fmap]. by rewrite root_t_update, IHks.
  - rewrite field_list_map_field by done.
    rewrite Forall_forall in IH, Hks |- *. intros k' Hk'.
    apply list_elem_of_In, in_map_iff in Hk' as (k & <- & Hk').
    apply list_elem_of_In in Hk'. auto.
Qed.

(** The objects of the traversal lie at distinct references. *)
Lemma dfs_objects_sublist t : (dfs_objects t).*1 `sublist_of` locs t.
Proof.
  induction t as [l nm objs kids IH] using ltree_ind'.
  rewrite dfs_objects_eq, locs_eq, fmap_app. apply sublist_cons.
  apply sublist_app.
  - apply sublist_inserts_l. done.
  - apply sublist_inserts_l.
    induction (field_list kids) as [|k ks IHks]; [done|].
    apply Forall_cons in IH as [IHk IH]. simpl. rewrite fmap_app.
    apply sublist_app; auto.
Qed.

Lemma NoDup_dfs_objects t : NoDup (locs t) → NoDup (dfs_objects t).*1.
Proof. intros H. exact (sublist_NoDup _ _ H (dfs_objects_sublist t)). Qed.

Lemma map_set_obj_first n (f : gmap string string → gmap string string) (L : list object) o :
  NoDup L.*1 → find (named n) L = Some o →
  map (set_obj o.1 (f o.2)) L = map_first (named n) (λ x, (x.1, f x.2)) L.
Proof.
  induction L as [|x L IH]; [done|]. cbn [fmap list_fmap find map map_first].
  intros [Hx Hnd]%NoDup_cons. destruct (named n x) eqn:Hn.
  - intros [= <-]. unfold set_obj at 1. rewrite bool_decide_eq_true_2 by done.
    f_equal. clear IH Hn. induction L as [|y L IHL]; [done|].
    cbn [fmap list_fmap] in Hx. apply not_elem_of_cons in Hx as [Hxy Hx].
    cbn [map]. rewrite IHL by (by apply NoDup_cons_1_2 in Hnd || done).
    unfold set_obj at 1. by rewrite bool_decide_eq_false_2 by done.
  - intros Hf. rewrite IH by done. f_equal.
    unfold set_obj. rewrite bool_decide_eq_false_2; [done|]. intros E.
    apply Hx. rewrite E. apply find_some in Hf as [Hin _].
    apply list_elem_of_fmap. exists o. by rewrite list_elem_of_In.
Qed.

(** ** Searches only add temporary lists to the store *)

Lemma extends_ret {A} (a : A) : extends (ret a).
Proof. intros s. apply ext_refl. Qed.

Lemma extends_raise {A} e : extends (raise (A := A) e).
Proof. intros s. apply ext_refl. Qed.

Lemma extends_bind {A B} (m : M A) (k : A → M B) :
  extends m → (∀ a, extends (k a)) → extends (bind m k).
Proof.
  intros Hm Hk s. unfold bind. specialize (Hm s).
  destruct (m s) as [a s'|e s']; simpl in *; [|done].
  eapply ext_trans; [exact Hm | apply Hk].
Qed.

Lemma extends_alloc_list : extends (alloc (PyList [])).
Proof. intros s. apply ext_tick. Qed.

Lemma extends_read_cont l : extends (read_cont l).
Proof. intros s. unfold read_cont. repeat case_match; apply ext_refl. Qed.

Lemma extends_read_obj l : extends (read_obj l).
Proof. intros s. unfold read_obj. repeat case_match; apply ext_refl. Qed.

Lemma extends_read_list l : extends (read_list l).
Proof. intros s. unfold read_list. repeat case_match; apply ext_refl. Qed.

Lemma extends_truthy r : extends (truthy r).
Proof. intros s. unfold truthy, ret. repeat case_match; apply ext_refl. Qed.

Lemma extends_for_each {A R} (body : A → M (option R)) items :
  (∀ x, extends (body x)) → extends (for_each body items).
Proof.
  intros Hb. induction items as [|x items IH]; simpl; [apply extends_ret|].
  apply extends_bind; [apply Hb|]. intros [v|]; [apply extends_ret | exact IH].
Qed.

Ltac extends_step :=
  first
    [ apply extends_ret | apply extends_raise | apply extends_alloc_list
    | apply extends_read_cont | apply extends_read_obj | apply extends_read_list
    | apply extends_truthy
    | apply extends_bind; [|intros ?]
    | apply extends_for_each; intros ?
    | progress unfold dict_get_list, cont_get_name, cont_subscript_name,
        obj_get, obj_subscript
    | case_match ].

Lemma extends_get_object_info fuel : ∀ data n, extends (get_object_info fuel data n).
Proof.
  induction fuel as [|fuel IH]; intros data n; cbn [get_object_info];
    [apply extends_raise|].
  repeat first [apply IH | extends_step].
Qed.

Lemma extends_get_object fuel : ∀ data n, extends (get_object fuel data n).
Proof.
  induction fuel as [|fuel IH]; intros data n; cbn [get_object];
    [apply extends_raise|].
  repeat first [apply IH | extends_step].
Qed.

Lemma extends_get_container_by_name fuel :
  ∀ data n, extends (get_container_by_name fuel data n).
Proof.
  induction fuel as [|fuel IH]; intros data n; cbn [get_container_by_name];
    [apply extends_raise|].
  repeat first [apply IH | extends_step].
Qed.

(** ** Where objects and containers lie in a tree *)

Lemma occurs_dfs o t : occurs o t ↔ In o (dfs_objects t).
Proof.
  split.
  - induction 1 as [[l nm objs kids] H|[l nm objs kids] k Hk _ IH];
      rewrite dfs_objects_eq, in_app_iff; [by left|].
    right. apply in_flat_map. eauto.
  - induction t as [l nm objs kids IH] using ltree_ind'.
    rewrite dfs_objects_eq, in_app_iff, in_flat_map. intros [H|(k & Hk & H)].
    + by apply occurs_here.
    + apply (occurs_below _ _ k); [done|]. rewrite Forall_forall in IH.
      apply IH; [by apply list_elem_of_In | done].
Qed.

Lemma dfs_path t e : In e (dfs t) → path_to (e_obj e) t (e_chain e).
Proof.
  revert e. induction t as [l nm objs kids IH] using ltree_ind'. intros e.
  rewrite dfs_eq, in_app_iff, in_map_iff, in_flat_map.
  intros [(o & <- & Hin)|(k & Hk & Hin)].
  - by apply path_here.
  - apply in_map_iff in Hin as (e' & <- & He'). unfold e_chain.
    cbn [lift_entry e_obj e_parent e_above]. rewrite app_comm_cons.
    apply path_below with k; [done|]. rewrite Forall_forall in IH.
    apply IH; [by apply list_elem_of_In | done].
Qed.

Lemma inside_dfs c t : inside c t ↔ In c (dfs_containers t).
Proof.
  split.
  - induction 1 as [|[l nm objs kids] k Hk _ IH].
    + destruct c. rewrite dfs_containers_eq. by left.
    + rewrite dfs_containers_eq. right. apply in_flat_map. eauto.
  - induction t as [l nm objs kids IH] using ltree_ind'.
    rewrite dfs_containers_eq. intros [<-|H]; [constructor|].
    apply in_flat_map in H as (k & Hk & H). apply (inside_kid _ _ k); [done|].
    rewrite Forall_forall in IH. apply IH; [by apply list_elem_of_In | done].
Qed.

Lemma chain_names_Forall2 chain names :
  chain_names chain = Some names ↔ Forall2 (λ c x, t_name c = Some x) chain names.
Proof.
  revert names. induction chain as [|c chain IH]; intros names; simpl.
  - split; [by intros [= <-]; constructor | by inversion 1].
  - split.
    + destruct (t_name c) as [x|] eqn:Hc; [|done].
      destruct (chain_names chain) as [ns|]; [|done]. intros [= <-].
      constructor; [done|]. by apply IH.
    + inversion 1 as [|? x ? ns Hx Hrest]; subst. rewrite Hx.
      apply IH in Hrest. by rewrite Hrest.
Qed.

Lemma find_Some_filter {A} (p : A → bool) l :
  (match find p l with Some _ => true | None => false end)
  = bool_decide (1 ≤ length (List.filter p l)).
Proof.
  induction l as [|x l IH]; cbn [find List.filter]; [done|].
  destruct (p x); cbn [length]; [|done].
  symmetry. apply bool_decide_eq_true_2. lia.
Qed.

Lemma find_remove_first_filter {A} (p : A → bool) l :
  (match find p (remove_first p l) with Some _ => true | None => false end)
  = bool_decide (2 ≤ length (List.filter p l)).
Proof.
  induction l as [|x l IH]; cbn [remove_first find List.filter]; [done|].
  destruct (p x) eqn:Hp; cbn [find length].
  - rewrite find_Some_filter. apply bool_decide_ext. lia.
  - by rewrite Hp.
Qed.

Lemma has_match_count n t : has_match n t = bool_decide (1 ≤ count_named n t).
Proof. rewrite has_match_objects. apply find_Some_filter. Qed.

Lemma has_match_t_delete n t :
  has_match n (t_delete n t) = bool_decide (2 ≤ count_named n t).
Proof.
  rewrite has_match_objects, dfs_objects_t_delete. apply find_remove_first_filter.
Qed.

Lemma delete_outcome_eq n t s :
  delete_outcome n (first_match n t) s =
  Ret (has_match n t)
      (match first_match n t with Some e => delete_write n e s | None => s end).
Proof. unfold has_match. by destruct (first_match n t). Qed.

Lemma wf_delete n s t :
  wf s t →
  wf (match first_match n t with Some e => delete_write n e s | None => s end)
     (t_delete n t).
Proof.
  intros [Hnd Hh]. split; [by apply NoDup_t_delete|].
  destruct (first_match n t) as [e|] eqn:Hm.
  - by apply holds_delete.
  - by rewrite first_match_None_delete.
Qed.

Lemma wf_ext s s' t : ext s s' → wf s t → wf s' t.
Proof. intros He [Hnd Hh]. split; [done | by eapply holds_ext]. Qed.

Lemma wf_modify n nn nc s t :
  wf s t →
  wf (match first_match n t with Some e => modify_write nn nc e s | None => s end)
     (t_modify n nn nc t).
Proof.
  intros [Hnd Hh]. unfold t_modify. destruct (first_match n t) as [e|] eqn:Hm; [|done].
  split; [by rewrite locs_t_update|]. apply first_match_In in Hm as [Hin _].
  eapply holds_update; [done|]. by eapply holds_dfs_obj.
Qed.

Lemma dfs_objects_t_modify n nn nc t :
  NoDup (locs t) →
  dfs_objects (t_modify n nn nc t) =
  map_first (named n) (λ x, (x.1, updated nn nc x.2)) (dfs_objects t).
Proof.
  intros Hnd. unfold t_modify, first_match.
  destruct (find _ (dfs t)) as [e|] eqn:Hm.
  - rewrite dfs_objects_t_update.
    apply (map_set_obj_first n (updated nn nc) (dfs_objects t) (e_obj e)).
    + by apply NoDup_dfs_objects.
    + unfold dfs_objects. by rewrite find_map', Hm.
  - symmetry. apply map_first_id. intros x Hx. unfold dfs_objects in Hx.
    apply in_map_iff in Hx as (e & <- & He).
    by apply (find_none _ _ Hm).
Qed.

(** ** What the operations leave behind: further lemmas *)

Lemma updated_name nn nc d :
  updated nn nc d !! "name" = if bool_decide (nn = "") then d !! "name" else Some nn.
Proof.
  unfold updated, set_if.
  destruct (bool_decide (nc = "")); [|rewrite lookup_insert_ne by done];
    destruct (bool_decide (nn = "")); by rewrite ?lookup_insert_eq.
Qed.

Lemma updated_category nn nc d :
  updated nn nc d !! "category" =
  if bool_decide (nc = "") then d !! "category" else Some nc.
Proof.
  unfold updated, set_if.
  destruct (bool_decide (nc = "")); [|by rewrite lookup_insert_eq].
  destruct (bool_decide (nn = "")); [done|]. by rewrite lookup_insert_ne.
Qed.


Lemma modify_outcome_eq n nn nc t s :
  match first_match n t with
  | Some e => Ret true (modify_write nn nc e s)
  | None => Ret false s
  end =
  Ret (has_match n t)
      (match first_match n t with Some e => modify_write nn nc e s | None => s end).
Proof. unfold has_match. by destruct (first_match n t). Qed.




(** ** The worked catalogs are well formed *)

Ltac holds_by_computation :=
  repeat first
    [ done
    | apply Forall_nil
    | apply Forall_cons; split
    | apply holds_node
    | split ].

Lemma two_bulbs_wf : wf two_bulbs_store two_bulbs_tree.
Proof.
  split.
  - apply (bool_decide_unpack _). vm_compute. exact I.
  - holds_by_computation.
Defined.

Lemma hammer_holds : holds hammer_store hammer_tree.
Proof. holds_by_computation. Defined.

Lemma holds_objects s t c ol os :
  holds s t → In c (dfs_containers t) → t_objs_field c = Some (ol, os) →
  s !! ol = Some (PyList os.*1) ∧
  Forall (λ o : object, s !! o.1 = Some (ObjDict o.2)) os.
Proof.
  intros Hh Hin Hf. apply (holds_sub _ _ _ Hh) in Hin. destruct c.
  inversion Hin as [? ? ? ? _ Ho _ _]; subst. simpl in Hf. by subst.
Qed.

(** * The claims *)

(** ** C1 *)

(** C1. With several objects of the same name in the tree, each operation
    acts on the first one of the traversal (objects of a node in list
    order, then its containers in list order, depth first): [get_object]
    returns its reference; [get_object_info] answers for it (or raises
    [KeyError] at a key that is missing on its path); [delete_object]
    changes only the list of its container and leaves the tree whose
    traversal lost exactly that entry; [modify_object] changes only its
    dictionary and leaves the tree in which exactly that entry was
    rewritten. *)
Theorem first_match_wins s t fuel n :
  wf s t → height t < fuel →
  (∃ s1, ext s s1 ∧
     get_object fuel (root t) n s = Ret (e_loc <$> first_match n t) s1) ∧
  (∃ s1, ext s s1 ∧
     get_object_info fuel (root t) n s =
     match first_match n t with
     | Some e => info_outcome e s1
     | None => Ret [] s1
     end) ∧
  (∃ s1 s', ext s s1 ∧
     s' = match first_match n t with Some e => delete_write n e s1 | None => s1 end ∧
     delete_object fuel (root t) n s = Ret (has_match n t) s' ∧
     wf s' (t_delete n t) ∧
     dfs_objects (t_delete n t) = remove_first (named n) (dfs_objects t)) ∧
  (∀ nn nc, ∃ s1 s', ext s s1 ∧
     s' = match first_match n t with Some e => modify_write nn nc e s1 | None => s1 end ∧
     modify_object fuel (root t) n nn nc s = Ret (has_match n t) s' ∧
     wf s' (t_modify n nn nc t) ∧
     dfs_objects (t_modify n nn nc t) =
     map_first (named n) (λ x, (x.1, updated nn nc x.2)) (dfs_objects t)).
Proof.
  intros Hwf Hfuel. pose proof Hwf as [Hnd Hh].
  split; [by apply get_object_spec|]. split; [by apply get_object_info_spec|]. split.
  - destruct (delete_object_spec fuel t s n Hh Hfuel) as (s1 & He & Hrun).
    rewrite delete_outcome_eq in Hrun. exists s1. eexists.
    split; [exact He|]. split; [reflexivity|]. split; [exact Hrun|].
    split; [|apply dfs_objects_t_delete]. apply wf_delete. by eapply wf_ext.
  - intros nn nc.
    destruct (modify_object_spec fuel t s n nn nc Hh Hfuel) as (s1 & He & Hrun).
    rewrite modify_outcome_eq in Hrun. exists s1. eexists.
    split; [exact He|]. split; [reflexivity|]. split; [exact Hrun|].
    split; [|by apply dfs_objects_t_modify]. apply wf_modify. by eapply wf_ext.
Qed.

(** C1 on the catalog with a bulb in [a] and a bulb in [b]: the search
    returns the bulb of [a]; deleting "bulb" empties it from the list of
    [a] and leaves the list and the bulb of [b] as they were. *)
Lemma first_match_wins_two_bulbs :
  wf two_bulbs_store two_bulbs_tree ∧ height two_bulbs_tree < 3 ∧
  (∃ s1, get_object 3 1%positive "bulb" two_bulbs_store = Ret (Some 6%positive) s1) ∧
  (∃ s1, get_object_info 3 1%positive "bulb" two_bulbs_store
         = Ret ["bulb"; "lighting"; "a"; "house"] s1) ∧
  (∃ s', delete_object 3 1%positive "bulb" two_bulbs_store = Ret true s' ∧
         s' !! 5%positive = Some (PyList [7%positive]) ∧
         s' !! 9%positive = Some (PyList [10%positive]) ∧
         s' !! 10%positive = Some (ObjDict bulb_b)) ∧
  (∃ s', modify_object 3 1%positive "bulb" "" "led" two_bulbs_store = Ret true s' ∧
         s' !! 6%positive = Some (ObjDict {["name" := "bulb"; "category" := "led"]}) ∧
         s' !! 10%positive = Some (ObjDict bulb_b)).
Proof.
  assert (Hlt : height two_bulbs_tree < 3) by (vm_compute; lia).
  split; [exact two_bulbs_wf|]. split; [exact Hlt|].
  destruct (first_match_wins two_bulbs_store two_bulbs_tree 3 "bulb" two_bulbs_wf Hlt)
    as ((s1 & _ & Hget) & (s2 & _ & Hinfo) & (? & s3 & _ & _ & Hdel & [_ Hh3] & _) & Hmod).
  destruct (Hmod "" "led") as (? & s4 & _ & _ & Hmod' & [_ Hh4] & _). clear Hmod.
  split; [by exists s1|]. split; [by exists s2|]. split.
  - exists s3. split; [exact Hdel|].
    assert (Ht : t_delete "bulb" two_bulbs_tree =
      LNode 1%positive (Some "house") (Some (2%positive, []))
        (Some (3%positive,
           [LNode 4%positive (Some "a") (Some (5%positive, [(7%positive, lamp)])) None;
            LNode 8%positive (Some "b") (Some (9%positive, [(10%positive, bulb_b)])) None])))
      by (vm_compute; reflexivity).
    rewrite Ht in Hh3.
    destruct (holds_objects _ _ _ _ _ Hh3 (or_intror (or_introl eq_refl)) eq_refl)
      as [Ha _].
    destruct (holds_objects _ _ _ _ _ Hh3 (or_intror (or_intror (or_introl eq_refl))) eq_refl)
      as [Hb Hb'].
    split; [exact Ha|]. split; [exact Hb|]. exact (Forall_inv Hb').
  - exists s4. split; [exact Hmod'|].
    assert (Ht : t_modify "bulb" "" "led" two_bulbs_tree =
      LNode 1%positive (Some "house") (Some (2%positive, []))
        (Some (3%positive,
           [LNode 4%positive (Some "a")
              (Some (5%positive,
                 [(6%positive, {["name" := "bulb"; "category" := "led"]});
                  (7%positive, lamp)])) None;
            LNode 8%positive (Some "b") (Some (9%positive, [(10%positive, bulb_b)])) None])))
      by (vm_compute; reflexivity).
    rewrite Ht in Hh4.
    destruct (holds_objects _ _ _ _ _ Hh4 (or_intror (or_introl eq_refl)) eq_refl)
      as [_ Ha].
    destruct (holds_objects _ _ _ _ _ Hh4 (or_intror (or_intror (or_introl eq_refl))) eq_refl)
      as [_ Hb].
    split; [exact (Forall_inv Ha) | exact (Forall_inv Hb)].
Defined.

(** ** C2 *)

(** C2. [get_object] returns [None] exactly when no object named [n] lies
    in the objects of the tree or in the objects of one of its descendant
    containers; with fuel above the height of the tree it always returns. *)
Theorem get_object_None_iff s t fuel n :
  holds s t → height t < fuel →
  ∃ r s1, get_object fuel (root t) n s = Ret r s1 ∧
    (r = None ↔ ¬ ∃ o, occurs o t ∧ o.2 !! "name" = Some n).
Proof.
  intros Hh Hfuel. destruct (get_object_spec fuel t s n Hh Hfuel) as (s1 & _ & Hrun).
  exists (e_loc <$> first_match n t), s1. split; [done|].
  rewrite fmap_None. unfold first_match. rewrite find_None_iff. split.
  - intros Hnone (o & Ho & Hn). apply occurs_dfs in Ho. unfold dfs_objects in Ho.
    apply in_map_iff in Ho as (e & <- & He). specialize (Hnone e He).
    unfold named in Hnone. by rewrite bool_decide_eq_true_2 in Hnone.
  - intros Hno e He. unfold named. apply bool_decide_eq_false_2. intros Hn.
    apply Hno. exists (e_obj e). split; [|done]. apply occurs_dfs.
    unfold dfs_objects. apply in_map_iff. eauto.
Qed.

Lemma get_object_None_iff_witness :
  holds two_bulbs_store two_bulbs_tree ∧ height two_bulbs_tree < 3 ∧
  ∃ r s1, get_object 3 1%positive "hammer" two_bulbs_store = Ret r s1 ∧
    (r = None ↔ ¬ ∃ o, occurs o two_bulbs_tree ∧ o.2 !! "name" = Some "hammer").
Proof.
  assert (Hlt : height two_bulbs_tree < 3) by (vm_compute; lia).
  split; [exact (proj2 two_bulbs_wf)|]. split; [exact Hlt|].
  exact (get_object_None_iff two_bulbs_store two_bulbs_tree 3 "hammer"
           (proj2 two_bulbs_wf) Hlt).
Defined.

(** ** C3 *)

(** C3. When [get_object_info] finds an object, its answer is the name and
    the category of the first match followed by the names of the containers
    from the direct parent of the object up to the root, in that order; and
    it gives this answer whenever those containers and the object carry the
    keys it reads. *)
Theorem get_object_info_path s t fuel n :
  holds s t → height t < fuel →
  ∃ s1, ext s s1 ∧
    (∀ res s', get_object_info fuel (root t) n s = Ret res s' → res ≠ [] →
       ∃ e cat names,
         first_match n t = Some e ∧
         path_to (e_obj e) t (e_chain e) ∧
         Forall2 (λ c x, t_name c = Some x) (e_chain e) names ∧
         (e_obj e).2 !! "category" = Some cat ∧
         res = n :: cat :: names) ∧
    (∀ e cat names,
       first_match n t = Some e →
       Forall2 (λ c x, t_name c = Some x) (e_chain e) names →
       (e_obj e).2 !! "category" = Some cat →
       get_object_info fuel (root t) n s = Ret (n :: cat :: names) s1).
Proof.
  intros Hh Hfuel.
  destruct (get_object_info_spec fuel t s n Hh Hfuel) as (s1 & He & Hrun).
  exists s1. split; [done|]. split.
  - intros res s' Hres Hne. rewrite Hrun in Hres.
    destruct (first_match n t) as [e|] eqn:Hm; [|by injection Hres as <- _].
    pose proof (first_match_In _ _ _ Hm) as [Hin Hn].
    unfold info_outcome in Hres. rewrite Hn in Hres.
    destruct (_ !! "category") as [cat|] eqn:Hc; [|done].
    destruct (chain_names (e_chain e)) as [names|] eqn:Hch; [|done].
    injection Hres as <- _. exists e, cat, names.
    split; [done|]. split; [by apply dfs_path|].
    split; [by apply chain_names_Forall2 | done].
  - intros e cat names Hm Hch Hc. rewrite Hrun, Hm.
    pose proof (first_match_In _ _ _ Hm) as [_ Hn].
    apply chain_names_Forall2 in Hch. unfold info_outcome. by rewrite Hn, Hc, Hch.
Qed.

(** C3 on house > garage > shelf: the path of the hammer, reversed, reads
    house, garage, shelf. *)
Lemma get_object_info_path_hammer :
  holds hammer_store hammer_tree ∧ height hammer_tree < 4 ∧
  ∃ s1 path,
    get_object_info 4 1%positive "hammer" hammer_store
    = Ret ("hammer" :: "tools" :: path) s1 ∧
    rev path = ["house"; "garage"; "shelf"].
Proof.
  assert (Hlt : height hammer_tree < 4) by (vm_compute; lia).
  split; [exact hammer_holds|]. split; [exact Hlt|].
  destruct (get_object_info_path hammer_store hammer_tree 4 "hammer" hammer_holds Hlt)
    as (s1 & _ & _ & Hfound).
  exists s1, ["shelf"; "garage"; "house"]. split; [|reflexivity].
  destruct (first_match "hammer" hammer_tree) as [e|] eqn:Hm; [|by vm_compute in Hm].
  apply (Hfound e); [done | |].
  - vm_compute in Hm. injection Hm as <-. repeat constructor.
  - vm_compute in Hm. by injection Hm as <-.
Defined.

(** ** C4 *)



(** ** C5 *)

(** C5. [delete_object] answers whether the tree has an object named [n].
    When it has one, the only cell that changes is the list of the
    container that holds the first match, which loses that one item; the
    store then holds the tree whose traversal lost exactly its first object
    of that name.  A second call with the same name answers [true] exactly
    when the tree had a duplicate. *)
Theorem delete_object_exactly_once s t fuel n :
  wf s t → height t < fuel →
  ∃ s1 s',
    ext s s1 ∧
    s' = match first_match n t with Some e => delete_write n e s1 | None => s1 end ∧
    delete_object fuel (root t) n s = Ret (bool_decide (1 ≤ count_named n t)) s' ∧
    wf s' (t_delete n t) ∧
    root (t_delete n t) = root t ∧
    dfs_objects (t_delete n t) = remove_first (named n) (dfs_objects t) ∧
    ∃ s'',
      delete_object fuel (root t) n s' = Ret (bool_decide (2 ≤ count_named n t)) s''.
Proof.
  intros Hwf Hfuel.
  destruct (delete_object_spec fuel t s n (proj2 Hwf) Hfuel) as (s1 & He & Hrun).
  rewrite delete_outcome_eq, has_match_count in Hrun.
  exists s1. eexists. split; [exact He|]. split; [reflexivity|]. split; [exact Hrun|].
  pose proof (wf_delete n s1 t (wf_ext _ _ _ He Hwf)) as Hwf'.
  split; [done|]. split; [apply root_t_delete|]. split; [apply dfs_objects_t_delete|].
  destruct (delete_object_spec fuel (t_delete n t) _ n (proj2 Hwf')) as (s2 & _ & Hrun2).
  { by rewrite height_t_delete. }
  rewrite delete_outcome_eq, has_match_t_delete, root_t_delete in Hrun2.
  eexists. exact Hrun2.
Qed.

(** C5 on the two-bulbs catalog: "bulb" has a duplicate, so the second
    deletion succeeds as well; "lamp" has none, so the second answers
    [false]. *)
Lemma delete_object_exactly_once_witness :
  wf two_bulbs_store two_bulbs_tree ∧ height two_bulbs_tree < 3 ∧
  (∃ s' s'', delete_object 3 1%positive "bulb" two_bulbs_store = Ret true s' ∧
             delete_object 3 1%positive "bulb" s' = Ret true s'') ∧
  (∃ s' s'', delete_object 3 1%positive "lamp" two_bulbs_store = Ret true s' ∧
             delete_object 3 1%positive "lamp" s' = Ret false s'').
Proof.
  assert (Hlt : height two_bulbs_tree < 3) by (vm_compute; lia).
  split; [exact two_bulbs_wf|]. split; [exact Hlt|]. split.
  - destruct (delete_object_exactly_once two_bulbs_store two_bulbs_tree 3 "bulb"
                two_bulbs_wf Hlt) as (? & s' & _ & _ & H1 & _ & _ & _ & s'' & H2).
    exists s', s''. split; [exact H1 | exact H2].
  - destruct (delete_object_exactly_once two_bulbs_store two_bulbs_tree 3 "lamp"
                two_bulbs_wf Hlt) as (? & s' & _ & _ & H1 & _ & _ & _ & s'' & H2).
    exists s', s''. split; [exact H1 | exact H2].
Defined.

(** ** C6 *)

(** Whenever a container on the path of the first match has no [name]
    key, [get_object_info] raises [KeyError]. *)
Lemma get_object_info_KeyError s t fuel n e cat :
  holds s t → height t < fuel →
  first_match n t = Some e →
  (e_obj e).2 !! "category" = Some cat →
  chain_names (e_chain e) = None →
  ∃ s1, get_object_info fuel (root t) n s = Raise (KeyError "name") s1.
Proof.
  intros Hh Hfuel Hm Hc Hch.
  destruct (get_object_info_spec fuel t s n Hh Hfuel) as (s1 & _ & Hrun).
  exists s1. rewrite Hrun, Hm. apply first_match_In in Hm as [_ Hn].
  unfold info_outcome. by rewrite Hn, Hc, Hch.
Qed.

(** The other four operations return on every catalog the store holds,
    whatever keys are missing. *)
Lemma other_operations_return s t fuel n nn nc :
  holds s t → height t < fuel →
  (∃ r s', get_object fuel (root t) n s = Ret r s') ∧
  (∃ r s', delete_object fuel (root t) n s = Ret r s') ∧
  (∃ r s', modify_object fuel (root t) n nn nc s = Ret r s') ∧
  (∃ r s', get_container_by_name fuel (root t) n s = Ret r s').
Proof.
  intros Hh Hfuel.
  destruct (get_object_spec fuel t s n Hh Hfuel) as (s1 & _ & H1).
  destruct (delete_object_spec fuel t s n Hh Hfuel) as (s2 & _ & H2).
  destruct (modify_object_spec fuel t s n nn nc Hh Hfuel) as (s3 & _ & H3).
  destruct (get_container_by_name_spec fuel t s n Hh Hfuel) as (s4 & _ & H4).
  rewrite delete_outcome_eq in H2. rewrite modify_outcome_eq in H3.
  split; [by eauto|]. split; [by eauto|]. split; by eauto.
Qed.

(** C6. On a container without a [name] key that holds a bulb,
    [get_object_info] does not return: it raises [KeyError] at
    [data["name"]], where [get_object] on the same catalog returns the
    object. *)
Theorem get_object_info_raises_without_name :
  (∃ s', get_object_info 2 1%positive "bulb" nameless_store
         = Raise (KeyError "name") s') ∧
  (∃ s', get_object 2 1%positive "bulb" nameless_store = Ret (Some 3%positive) s').
Proof. split; eexists; vm_compute; reflexivity. Qed.

(** ** C7 *)

(** [container.get("objects", []).append(new_object)] on a container
    without an [objects] key: the object goes to a list that nothing
    refers to, and every cell of the store stays as it was. *)
Lemma append_without_objects_key s container c new_object :
  s !! container = Some (ContDict c) → cd_objects c = None →
  s !! fresh_loc s = None ∧
  (objects <- dict_get_list cd_objects container ;; list_append objects new_object) s
  = Ret tt (<[fresh_loc s := PyList [new_object]]> s).
Proof.
  intros Hc Hnone. split; [apply fresh_loc_None|].
  erewrite bind_Ret by (by apply dict_get_list_eq). rewrite Hnone. cbn [default].
  unfold list_append. erewrite bind_Ret; cycle 1.
  { unfold read_list, tick. by rewrite lookup_insert_eq. }
  unfold write, tick. by rewrite insert_insert_eq.
Qed.

(** With an [objects] key the object is appended to the list of the
    container, after the items it had. *)
Lemma append_with_objects_key s container c ol items new_object :
  s !! container = Some (ContDict c) → cd_objects c = Some ol →
  s !! ol = Some (PyList items) →
  (objects <- dict_get_list cd_objects container ;; list_append objects new_object) s
  = Ret tt (<[ol := PyList (items ++ [new_object])]> (tick s)).
Proof.
  intros Hc Hol Hitems.
  erewrite bind_Ret by (by apply dict_get_list_eq). rewrite Hol. cbn [default].
  unfold list_append. erewrite bind_Ret; [done|].
  unfold read_list, id. destruct (ext_tick s) as [He _]. by rewrite (He _ _ Hitems).
Qed.

(** C7. Adding the object "lamp" to the container "attic", which has no
    [objects] key: [add_object] returns normally, the container is as
    before, the store still holds the tree without objects, and a search
    for "lamp" answers [None]. *)
Theorem add_object_without_objects_key_loses_object :
  ∃ s', add_object 2 1%positive ["lamp"; "lighting"; "attic"] attic_store = Ret [] s' ∧
        s' !! 1%positive = Some (ContDict (ContainerDict (Some "attic") None None)) ∧
        holds s' (LNode 1%positive (Some "attic") None None) ∧
        ∃ s'', get_object 2 1%positive "lamp" s' = Ret None s''.
Proof.
  eexists. split; [vm_compute; reflexivity|]. split; [reflexivity|].
  split; [holds_by_computation|]. eexists. vm_compute. reflexivity.
Qed.

(** The same through the menu entry: option 1 goes to [add_object];
    option 2 appends the new container with
    [container.get("containers", []).append(new_container)], and "attic"
    has no [containers] key either, so the container "box" and its object
    are not in the catalog afterwards. *)
Example add_object_in_catalog_without_keys :
  (∃ s1 s2, add_object_in_catalog 2 1%positive ["1"; "lamp"; "lighting"; "attic"]
              attic_store = Ret [] s1 ∧
            get_object 2 1%positive "lamp" s1 = Ret None s2) ∧
  (∃ s1 s2 s3, add_object_in_catalog 2 1%positive
                 ["2"; "box"; "attic"; "lamp"; "lighting"] attic_store = Ret [] s1 ∧
               get_container_by_name 2 1%positive "box" s1 = Ret None s2 ∧
               get_object 2 1%positive "lamp" s1 = Ret None s3).
Proof.
  split.
  - do 2 eexists. split; vm_compute; reflexivity.
  - do 3 eexists. split; [|split]; vm_compute; reflexivity.
Qed.

(** With an [objects] key the new object is appended after the others. *)
Example add_object_appends :
  ∃ s', add_object 3 1%positive ["torch"; "lighting"; "a"] two_bulbs_store = Ret [] s' ∧
        s' !! 5%positive = Some (PyList [6%positive; 7%positive; 11%positive]) ∧
        s' !! 11%positive
        = Some (ObjDict {["name" := "torch"; "category" := "lighting"]}).
Proof. eexists. split; [vm_compute; reflexivity|]. split; reflexivity. Qed.

(** ** C8 *)

Module StorageProofs.
Import Storage.

(** C8, as the code has it.  When the wrapped block raises
    [FileNotFoundError] or [JSONDecodeError], [load_json_file] prints one
    diagnostic and returns the empty dictionary; when it raises [OSError]
    (or a subclass) or [TypeError], [save_json_file] prints one
    diagnostic and returns.  Neither raises in these cases.  It is not so
    that [load_json_file] never raises: a [PermissionError] of the wrapped
    block, for a file that cannot be read, reaches the caller with nothing
    printed. *)
Theorem storage_failures_handled file_name data e1 e2 :
  catches FileNotFoundError e1 = true ∨ catches JSONDecodeError e1 = true →
  catches OSError e2 = true ∨ catches TypeError e2 = true →
  (∃ msg, load_json_file file_name (Raised e1) = (Completed (JObject []), [msg])) ∧
  (∃ msg, save_json_file data file_name (Raised e2) = (Completed tt, [msg])) ∧
  load_json_file file_name (Raised PermissionError) = (Raised PermissionError, []).
Proof.
  intros H1 H2. split; [|split].
  - unfold load_json_file. destruct (catches FileNotFoundError e1) eqn:E1; [by eexists|].
    destruct H1 as [H1|H1]; [done|]. rewrite H1. by eexists.
  - unfold save_json_file. destruct H2 as [-> | ->]; [by eexists|].
    rewrite orb_true_r. by eexists.
  - reflexivity.
Qed.

Lemma storage_failures_handled_witness :
  (catches FileNotFoundError FileNotFoundError = true ∨
   catches JSONDecodeError FileNotFoundError = true) ∧
  (catches OSError PermissionError = true ∨
   catches TypeError PermissionError = true) ∧
  (∃ msg, load_json_file "data/house_catalog.json" (Raised FileNotFoundError)
          = (Completed (JObject []), [msg])) ∧
  (∃ msg, save_json_file (JObject []) "data/house_catalog.json" (Raised PermissionError)
          = (Completed tt, [msg])) ∧
  load_json_file "data/house_catalog.json" (Raised PermissionError)
  = (Raised PermissionError, []).
Proof.
  split; [left; reflexivity|]. split; [left; reflexivity|].
  apply (storage_failures_handled "data/house_catalog.json" (JObject [])
           FileNotFoundError PermissionError); left; reflexivity.
Defined.

(** C8, as the claim has it, fails: an exception of another class leaves
    [load_json_file]; here the file cannot be read. *)
Lemma load_json_file_raises_permission_error :
  load_json_file "data/house_catalog.json" (Raised PermissionError)
  = (Raised PermissionError, []).
Proof. reflexivity. Qed.

(** A block that completes hands its document through. *)
Lemma load_json_file_returns_document file_name v :
  load_json_file file_name (Completed v) = (Completed v, []).
Proof. reflexivity. Qed.

End StorageProofs.

(** ** C9 *)

(** C9. [get_container_by_name] returns the first container named [n] in
    the pre-order traversal (a node before its children, children in list
    order); the root itself is eligible; the answer is [None] exactly when
    no container of the tree has that name. *)
Theorem get_container_by_name_first s t fuel n :
  holds s t → height t < fuel →
  ∃ s1, ext s s1 ∧
    get_container_by_name fuel (root t) n s = Ret (root <$> first_container n t) s1 ∧
    (t_name t = Some n → first_container n t = Some t) ∧
    (first_container n t = None ↔ ¬ ∃ c, inside c t ∧ t_name c = Some n).
Proof.
  intros Hh Hfuel.
  destruct (get_container_by_name_spec fuel t s n Hh Hfuel) as (s1 & He & Hrun).
  exists s1. split; [done|]. split; [done|]. split; [|split].
  - intros Hn. unfold first_container. destruct t as [l nm objs kids].
    rewrite dfs_containers_eq. cbn [find]. unfold cnamed.
    by rewrite bool_decide_eq_true_2.
  - unfold first_container. rewrite find_None_iff.
    intros Hnone (c & Hc & Hn). apply inside_dfs in Hc. specialize (Hnone c Hc).
    unfold cnamed in Hnone. by rewrite bool_decide_eq_true_2 in Hnone.
  - unfold first_container. rewrite find_None_iff.
    intros Hno c Hc. unfold cnamed. apply bool_decide_eq_false_2. intros Hn.
    apply Hno. exists c. split; [by apply inside_dfs | done].
Qed.

Lemma get_container_by_name_first_witness :
  holds hammer_store hammer_tree ∧ height hammer_tree < 4 ∧
  ∃ s1, get_container_by_name 4 1%positive "shelf" hammer_store
        = Ret (Some 7%positive) s1.
Proof.
  assert (Hlt : height hammer_tree < 4) by (vm_compute; lia).
  split; [exact hammer_holds|]. split; [exact Hlt|].
  destruct (get_container_by_name_first hammer_store hammer_tree 4 "shelf"
              hammer_holds Hlt) as (s1 & _ & Hrun & _).
  exists s1. exact Hrun.
Defined.

(** ** C10 *)

(** C10. The three searches change no cell of the store: every dictionary
    and list that existed before has the same contents afterwards, the only
    new cells are empty lists (the defaults of [.get]), and a tree that the
    store held is still held, whatever node the search started from. *)
Theorem queries_leave_tree_unchanged s t fuel data n :
  holds s t →
  (ext s (store_of (get_object_info fuel data n s)) ∧
   holds (store_of (get_object_info fuel data n s)) t) ∧
  (ext s (store_of (get_object fuel data n s)) ∧
   holds (store_of (get_object fuel data n s)) t) ∧
  (ext s (store_of (get_container_by_name fuel data n s)) ∧
   holds (store_of (get_container_by_name fuel data n s)) t).
Proof.
  intros Hh.
  pose proof (extends_get_object_info fuel data n s) as H1.
  pose proof (extends_get_object fuel data n s) as H2.
  pose proof (extends_get_container_by_name fuel data n s) as H3.
  split; [|split]; (split; [done | by eapply holds_ext]).
Qed.

Lemma queries_leave_tree_unchanged_witness :
  holds two_bulbs_store two_bulbs_tree ∧
  holds (store_of (get_object_info 3 1%positive "bulb" two_bulbs_store)) two_bulbs_tree ∧
  holds (store_of (get_object 3 1%positive "bulb" two_bulbs_store)) two_bulbs_tree ∧
  holds (store_of (get_container_by_name 3 1%positive "b" two_bulbs_store)) two_bulbs_tree.
Proof.
  split; [exact (proj2 two_bulbs_wf)|].
  pose proof (queries_leave_tree_unchanged two_bulbs_store two_bulbs_tree 3 1%positive).
  split; [|split].
  - exact (proj2 (proj1 (H "bulb" (proj2 two_bulbs_wf)))).
  - exact (proj2 (proj1 (proj2 (H "bulb" (proj2 two_bulbs_wf))))).
  - exact (proj2 (proj2 (proj2 (H "b" (proj2 two_bulbs_wf))))).
Defined.

(** * Further properties *)

(** ** The worked catalogs, continued *)

Lemma two_bulbs_height : height two_bulbs_tree < 3.
Proof. vm_compute. lia. Defined.

Lemma hammer_height : height hammer_tree < 4.
Proof. vm_compute. lia. Defined.

Lemma hammer_wf : wf hammer_store hammer_tree.
Proof.
  split; [|exact hammer_holds]. apply (bool_decide_unpack _). vm_compute. exact I.
Defined.

Lemma uncategorized_holds : holds uncategorized_store uncategorized_tree.
Proof. holds_by_computation. Defined.

Lemma nameless_wf : wf nameless_store nameless_tree.
Proof.
  split.
  - apply (bool_decide_unpack _). vm_compute. exact I.
  - holds_by_computation.
Defined.

(** ** Lookups before and after a change *)

Lemma first_match_objects n t :
  e_obj <$> first_match n t = find (named n) (dfs_objects t).
Proof. unfold first_match, dfs_objects. by rewrite find_map'. Qed.

Lemma get_object_run fuel t s n :
  holds s t → height t < fuel →
  ∃ s1, ext s s1 ∧
    get_object fuel (root t) n s = Ret (fst <$> find (named n) (dfs_objects t)) s1.
Proof.
  intros Hh Hfuel. destruct (get_object_spec fuel t s n Hh Hfuel) as (s1 & He & Hrun).
  exists s1. split; [done|]. rewrite Hrun, <- first_match_objects.
  by destruct (first_match n t).
Qed.

Lemma find_dfs_objects_cell s t p o :
  holds s t → find p (dfs_objects t) = Some o → s !! o.1 = Some (ObjDict o.2).
Proof.
  intros Hh Hf. apply find_some in Hf as [Hin _]. unfold dfs_objects in Hin.
  apply in_map_iff in Hin as (e & <- & He). by eapply holds_dfs_obj.
Qed.

Lemma named_inj n m o : named n o = true → named m o = true → n = m.
Proof.
  unfold named. intros H1%bool_decide_eq_true H2%bool_decide_eq_true. congruence.
Qed.

Lemma find_remove_first_other n m (L : list object) :
  m ≠ n → find (named m) (remove_first (named n) L) = find (named m) L.
Proof.
  intros Hne. induction L as [|x L IH]; [done|]. cbn [remove_first find].
  destruct (named n x) eqn:Hn.
  - destruct (named m x) eqn:Hm; [|done]. destruct Hne. by eapply named_inj.
  - cbn [find]. by rewrite IH.
Qed.

Lemma delete_object_run fuel t s n :
  wf s t → height t < fuel →
  ∃ s', delete_object fuel (root t) n s = Ret (has_match n t) s' ∧
        wf s' (t_delete n t) ∧
        (has_match n t = false → ext s s').
Proof.
  intros Hwf Hfuel.
  destruct (delete_object_spec fuel t s n (proj2 Hwf) Hfuel) as (s1 & He & Hrun).
  rewrite delete_outcome_eq in Hrun. eexists. split; [exact Hrun|].
  split; [apply wf_delete; by eapply wf_ext|].
  unfold has_match. by destruct (first_match n t).
Qed.

Lemma modify_object_run fuel t s n nn nc :
  wf s t → height t < fuel →
  ∃ s', modify_object fuel (root t) n nn nc s = Ret (has_match n t) s' ∧
        wf s' (t_modify n nn nc t) ∧
        (has_match n t = false → ext s s').
Proof.
  intros Hwf Hfuel.
  destruct (modify_object_spec fuel t s n nn nc (proj2 Hwf) Hfuel) as (s1 & He & Hrun).
  rewrite modify_outcome_eq in Hrun. eexists. split; [exact Hrun|].
  split; [apply wf_modify; by eapply wf_ext|].
  unfold has_match. by destruct (first_match n t).
Qed.

Lemma root_t_modify n nn nc t : root (t_modify n nn nc t) = root t.
Proof. unfold t_modify. destruct (first_match n t); [apply root_t_update | done]. Qed.

Lemma height_t_modify n nn nc t : height (t_modify n nn nc t) = height t.
Proof. unfold t_modify. destruct (first_match n t); [apply height_t_update | done]. Qed.

(** X1. Deleting the object named [n] changes no lookup under another name:
    [get_object] returns the same reference for [m] before and after, and
    the dictionary behind it is the same. *)
Theorem delete_object_keeps_other_names s t fuel n m :
  wf s t → height t < fuel → m ≠ n →
  ∃ found s1 deleted s' s2,
    get_object fuel (root t) m s = Ret (fst <$> found) s1 ∧
    delete_object fuel (root t) n s = Ret deleted s' ∧
    get_object fuel (root t) m s' = Ret (fst <$> found) s2 ∧
    ∀ o, found = Some o → s !! o.1 = Some (ObjDict o.2) ∧ s' !! o.1 = Some (ObjDict o.2).
Proof.
  intros Hwf Hfuel Hne. pose proof Hwf as [_ Hh].
  destruct (get_object_run fuel t s m Hh Hfuel) as (s1 & _ & Hget).
  destruct (delete_object_run fuel t s n Hwf Hfuel) as (s' & Hdel & [_ Hh'] & _).
  destruct (get_object_run fuel (t_delete n t) s' m Hh') as (s2 & _ & Hget2).
  { by rewrite height_t_delete. }
  rewrite root_t_delete, dfs_objects_t_delete, find_remove_first_other in Hget2 by done.
  exists (find (named m) (dfs_objects t)), s1. do 3 eexists.
  split; [exact Hget|]. split; [exact Hdel|]. split; [exact Hget2|].
  intros o Ho. split; [by eapply find_dfs_objects_cell|].
  eapply (find_dfs_objects_cell s' (t_delete n t) (named m)); [done|].
  by rewrite dfs_objects_t_delete, find_remove_first_other.
Qed.

Lemma delete_object_keeps_other_names_witness :
  wf two_bulbs_store two_bulbs_tree ∧ height two_bulbs_tree < 3 ∧ "lamp" ≠ "bulb" ∧
  ∃ r s1 deleted s' s2,
    get_object 3 1%positive "lamp" two_bulbs_store = Ret r s1 ∧
    delete_object 3 1%positive "bulb" two_bulbs_store = Ret deleted s' ∧
    get_object 3 1%positive "lamp" s' = Ret r s2.
Proof.
  assert (Hne : "lamp" ≠ "bulb") by discriminate.
  split; [exact two_bulbs_wf|]. split; [exact two_bulbs_height|]. split; [exact Hne|].
  destruct (delete_object_keeps_other_names two_bulbs_store two_bulbs_tree 3
              "bulb" "lamp" two_bulbs_wf two_bulbs_height Hne)
    as (found & s1 & deleted & s' & s2 & H1 & H2 & H3 & _).
  exists (fst <$> found), s1, deleted, s', s2. split; [exact H1|]. split; [exact H2|exact H3].
Defined.

(** X2. After a deletion the next object of that name, if there is one,
    is what a search finds: [get_object] returns the second match of the
    original traversal, and [None] when the deleted object was the only one
    of its name. *)
Theorem delete_object_then_get_object s t fuel n :
  wf s t → height t < fuel →
  ∃ deleted s' s2,
    delete_object fuel (root t) n s = Ret deleted s' ∧
    get_object fuel (root t) n s'
    = Ret (fst <$> find (named n) (remove_first (named n) (dfs_objects t))) s2 ∧
    (count_named n t ≤ 1 → get_object fuel (root t) n s' = Ret None s2).
Proof.
  intros Hwf Hfuel.
  destruct (delete_object_run fuel t s n Hwf Hfuel) as (s' & Hdel & [_ Hh'] & _).
  destruct (get_object_run fuel (t_delete n t) s' n Hh') as (s2 & _ & Hget2).
  { by rewrite height_t_delete. }
  rewrite root_t_delete, dfs_objects_t_delete in Hget2.
  do 3 eexists. split; [exact Hdel|]. split; [exact Hget2|].
  intros Hc. rewrite Hget2.
  pose proof (find_remove_first_filter (named n) (dfs_objects t)) as Hf.
  rewrite bool_decide_eq_false_2 in Hf by (unfold count_named in Hc; lia).
  by destruct (find _ _).
Qed.

Lemma delete_object_then_get_object_witness :
  wf two_bulbs_store two_bulbs_tree ∧ height two_bulbs_tree < 3 ∧
  ∃ deleted s' s2,
    delete_object 3 1%positive "bulb" two_bulbs_store = Ret deleted s' ∧
    get_object 3 1%positive "bulb" s' = Ret (Some 10%positive) s2.
Proof.
  split; [exact two_bulbs_wf|]. split; [exact two_bulbs_height|].
  destruct (delete_object_then_get_object two_bulbs_store two_bulbs_tree 3 "bulb"
              two_bulbs_wf two_bulbs_height) as (deleted & s' & s2 & H1 & H2 & _).
  exists deleted, s', s2. split; [exact H1 | exact H2].
Defined.

Lemma dfs_t_update o d t : dfs (t_update o d t) = map (upd_entry o d) (dfs t).
Proof.
  induction t as [l nm objs kids IH] using ltree_ind'.
  rewrite (dfs_eq l nm objs kids), t_update_eq, dfs_eq.
  rewrite !field_list_map_field, map_app, !map_map by done.
  rewrite <- t_update_eq. f_equal.
  generalize (LNode l nm objs kids) as T. intros T.
  induction (field_list kids) as [|k ks IHks]; [done|].
  apply Forall_cons in IH as [IHk IH]. cbn [map flat_map].
  rewrite map_app, IHks, IHk, !map_map by done. f_equal.
  apply map_ext. intros e. unfold upd_entry, lift_entry. cbn [e_obj e_parent e_above].
  by rewrite map_app.
Qed.

Lemma t_name_t_update o d t : t_name (t_update o d t) = t_name t.
Proof. by destruct t. Qed.

Lemma chain_names_t_update o d chain :
  chain_names (map (t_update o d) chain) = chain_names chain.
Proof.
  induction chain as [|c chain IH]; [done|]. cbn [map chain_names].
  by rewrite t_name_t_update, IH.
Qed.

Lemma NoDup_dfs_locs t : NoDup (locs t) → NoDup (map e_loc (dfs t)).
Proof.
  intros H%NoDup_dfs_objects. unfold dfs_objects in H.
  replace (map e_loc (dfs t)) with ((map e_obj (dfs t)).*1); [done|].
  clear H. induction (dfs t) as [|e L IH]; [done|]. cbn. by rewrite IH.
Qed.

Lemma upd_entry_self o d e :
  e_loc e = o → e_obj (upd_entry o d e) = (o, d).
Proof.
  intros <-. unfold upd_entry, set_obj, e_loc. cbn [e_obj].
  by rewrite bool_decide_eq_true_2.
Qed.

Lemma upd_entry_other o d e :
  e_loc e ≠ o → e_obj (upd_entry o d e) = e_obj e.
Proof.
  intros H. unfold upd_entry, set_obj. cbn [e_obj].
  by rewrite bool_decide_eq_false_2.
Qed.

(** The first match keeps its place when its dictionary is rewritten
    without a change of name. *)
Lemma first_match_t_update n t e d :
  NoDup (locs t) → first_match n t = Some e → d !! "name" = Some n →
  first_match n (t_update (e_loc e) d t) = Some (upd_entry (e_loc e) d e).
Proof.
  intros Hnd%NoDup_dfs_locs. unfold first_match. rewrite dfs_t_update, find_map'.
  induction (dfs t) as [|x L IH]; [done|]. cbn [find map] in *.
  apply NoDup_ListNoDup in Hnd. inversion Hnd as [|? ? Hx Hnd']; subst.
  apply NoDup_ListNoDup in Hnd'. intros Hf Hd.
  destruct (named n (e_obj x)) eqn:Hn.
  - injection Hf as ->. rewrite upd_entry_self by done. unfold named. cbn [snd].
    by rewrite bool_decide_eq_true_2.
  - assert (Hne : e_loc x ≠ e_loc e).
    { intros E. apply Hx. rewrite E. apply in_map. by apply find_some in Hf as [? _]. }
    rewrite upd_entry_other, Hn by done. auto.
Qed.

Lemma get_object_info_run fuel t s n :
  holds s t → height t < fuel →
  ∃ s1, ext s s1 ∧
    get_object_info fuel (root t) n s =
    match first_match n t with
    | Some e => info_outcome e s1
    | None => Ret [] s1
    end.
Proof. apply get_object_info_spec. Qed.

Lemma find_map_first_same (p q : object → bool) (f : object → object) L :
  (∀ x, p (f x) = p x) → (∀ x, (f x).1 = x.1) →
  fst <$> find p (map_first q f L) = fst <$> find p L.
Proof.
  intros Hp Hf. induction L as [|x L IH]; [done|]. cbn [map_first find].
  destruct (q x); cbn [find]; [rewrite Hp|]; destruct (p x); cbn; by rewrite ?Hf.
Qed.

(** X3. Giving an existing object a new category, the name left blank,
    changes no lookup by name.  [get_object_info] for the object then
    answers its name, the new category and the names of the containers
    from its container up to the root, as they were, when each of these
    containers has a name; when one of them has none it raises
    [KeyError] for [name].  This is so also when the object had no
    category before. *)
Theorem modify_object_category_only s t fuel n nc e :
  wf s t → height t < fuel →
  first_match n t = Some e → nc ≠ "" →
  ∃ s',
    modify_object fuel (root t) n "" nc s = Ret true s' ∧
    (∃ s2, get_object_info fuel (root t) n s' =
           match chain_names (e_chain e) with
           | Some path => Ret (n :: nc :: path) s2
           | None => Raise (KeyError "name") s2
           end) ∧
    (∀ m, ∃ r s1 s2, get_object fuel (root t) m s = Ret r s1 ∧
                     get_object fuel (root t) m s' = Ret r s2).
Proof.
  intros Hwf Hfuel Hm Hnc. pose proof Hwf as [Hnd Hh].
  destruct (modify_object_run fuel t s n "" nc Hwf Hfuel) as (s' & Hmod & [_ Hh'] & _).
  unfold has_match in Hmod. rewrite Hm in Hmod.
  exists s'. split; [exact Hmod|].
  pose proof (first_match_In _ _ _ Hm) as [_ Hn].
  assert (Hname : updated "" nc (e_obj e).2 !! "name" = Some n).
  { by rewrite updated_name. }
  split.
  - destruct (get_object_info_run fuel (t_modify n "" nc t) s' n Hh') as (s2 & _ & Hrun).
    { by rewrite height_t_modify. }
    rewrite root_t_modify in Hrun. exists s2. rewrite Hrun. unfold t_modify. rewrite Hm.
    rewrite (first_match_t_update n t e _ Hnd Hm Hname).
    unfold info_outcome, e_chain, upd_entry. cbn [e_obj e_parent e_above].
    unfold set_obj, e_loc. rewrite bool_decide_eq_true_2 by done. cbn [snd].
    rewrite Hname, updated_category, bool_decide_eq_false_2 by done.
    change (t_update ?o ?d (e_parent e) :: map (t_update ?o ?d) (e_above e))
      with (map (t_update o d) (e_chain e)).
    rewrite chain_names_t_update. unfold e_chain.
    by destruct (chain_names (e_parent e :: e_above e)).
  - intros m.
    destruct (get_object_run fuel t s m Hh Hfuel) as (s1 & _ & Hget).
    destruct (get_object_run fuel (t_modify n "" nc t) s' m Hh') as (s2 & _ & Hget2).
    { by rewrite height_t_modify. }
    rewrite root_t_modify, dfs_objects_t_modify in Hget2 by done.
    rewrite find_map_first_same in Hget2; [by eauto| |done].
    intros x. unfold named. cbn [snd]. by rewrite updated_name.
Qed.

Lemma modify_object_category_only_witness :
  (∃ e,
     wf two_bulbs_store two_bulbs_tree ∧ height two_bulbs_tree < 3 ∧
     first_match "lamp" two_bulbs_tree = Some e ∧ "decor" ≠ "" ∧
     ∃ s' s2,
       modify_object 3 1%positive "lamp" "" "decor" two_bulbs_store = Ret true s' ∧
       get_object_info 3 1%positive "lamp" s' = Ret ["lamp"; "decor"; "a"; "house"] s2) ∧
  (∃ e,
     wf nameless_store nameless_tree ∧ height nameless_tree < 2 ∧
     first_match "bulb" nameless_tree = Some e ∧ "led" ≠ "" ∧
     ∃ s' s2,
       modify_object 2 1%positive "bulb" "" "led" nameless_store = Ret true s' ∧
       get_object_info 2 1%positive "bulb" s' = Raise (KeyError "name") s2).
Proof.
  assert (Hne : "decor" ≠ "") by discriminate.
  assert (Hne' : "led" ≠ "") by discriminate.
  assert (Hlt : height nameless_tree < 2) by (vm_compute; lia).
  split.
  - eexists. split; [exact two_bulbs_wf|]. split; [exact two_bulbs_height|].
    split; [vm_compute; reflexivity|]. split; [exact Hne|].
    destruct (modify_object_category_only two_bulbs_store two_bulbs_tree 3 "lamp" "decor"
                _ two_bulbs_wf two_bulbs_height eq_refl Hne)
      as (s' & H1 & (s2 & H2) & _).
    exists s', s2. split; [exact H1 | exact H2].
  - eexists. split; [exact nameless_wf|]. split; [exact Hlt|].
    split; [vm_compute; reflexivity|]. split; [exact Hne'|].
    destruct (modify_object_category_only nameless_store nameless_tree 2 "bulb" "led"
                _ nameless_wf Hlt eq_refl Hne')
      as (s' & H1 & (s2 & H2) & _).
    exists s', s2. split; [exact H1 | exact H2].
Defined.

Lemma find_map_first_renamed n (f : object → object) (L : list object) :
  (∀ x, named n x = true → named n (f x) = false) →
  find (named n) (map_first (named n) f L) = find (named n) (remove_first (named n) L).
Proof.
  intros Hf. induction L as [|x L IH]; [done|]. cbn [map_first remove_first].
  destruct (named n x) eqn:Hn; cbn [find].
  - by rewrite Hf.
  - by rewrite Hn, IH.
Qed.

Lemma find_map_first_new_name n nn (f : object → object) (L : list object) :
  (∀ x, named nn (f x) = true) → find (named nn) L = None →
  find (named nn) (map_first (named n) f L) = f <$> find (named n) L.
Proof.
  intros Hf. induction L as [|x L IH]; [done|]. cbn [map_first find].
  destruct (named nn x) eqn:Hnn; [done|]. intros Hnone.
  destruct (named n x); cbn [find]; [by rewrite Hf|]. rewrite Hnn. auto.
Qed.

(** X4. Renaming the first object named [n] to another name [nn]: a search
    under the old name then finds the next object named [n] of the original
    traversal (none if there was no duplicate); and when no object was
    named [nn] before, a search under the new name returns the very
    dictionary that the search under the old name returned before. *)
Theorem modify_object_rename s t fuel n nn nc :
  wf s t → height t < fuel → nn ≠ "" → nn ≠ n →
  ∃ renamed s',
    modify_object fuel (root t) n nn nc s = Ret renamed s' ∧
    (∃ s2, get_object fuel (root t) n s'
           = Ret (fst <$> find (named n) (remove_first (named n) (dfs_objects t))) s2) ∧
    (find (named nn) (dfs_objects t) = None →
     ∃ r s1 s2, get_object fuel (root t) n s = Ret r s1 ∧
                get_object fuel (root t) nn s' = Ret r s2).
Proof.
  intros Hwf Hfuel Hnn Hne. pose proof Hwf as [Hnd Hh].
  destruct (modify_object_run fuel t s n nn nc Hwf Hfuel) as (s' & Hmod & [_ Hh'] & _).
  do 2 eexists. split; [exact Hmod|].
  assert (Hname : ∀ x : object, named nn (x.1, updated nn nc x.2) = true).
  { intros x. unfold named. cbn [snd]. apply bool_decide_eq_true_2.
    by rewrite updated_name, (bool_decide_eq_false_2 (nn = "")). }
  split.
  - destruct (get_object_run fuel (t_modify n nn nc t) s' n Hh') as (s2 & _ & Hget).
    { by rewrite height_t_modify. }
    rewrite root_t_modify, dfs_objects_t_modify, find_map_first_renamed in Hget;
      [by eauto| |done].
    intros x _. destruct (named n _) eqn:Hn; [|done].
    destruct Hne. symmetry. eapply named_inj; [exact Hn | apply Hname].
  - intros Hnone.
    destruct (get_object_run fuel t s n Hh Hfuel) as (s1 & _ & Hget).
    destruct (get_object_run fuel (t_modify n nn nc t) s' nn Hh') as (s2 & _ & Hget2).
    { by rewrite height_t_modify. }
    rewrite root_t_modify, dfs_objects_t_modify, find_map_first_new_name in Hget2
      by done.
    do 3 eexists. split; [exact Hget|]. rewrite Hget2. f_equal.
    by destruct (find (named n) (dfs_objects t)).
Qed.

Lemma modify_object_rename_witness :
  wf two_bulbs_store two_bulbs_tree ∧ height two_bulbs_tree < 3 ∧
  "candle" ≠ "" ∧ "candle" ≠ "bulb" ∧
  ∃ renamed s' s2,
    modify_object 3 1%positive "bulb" "candle" "" two_bulbs_store = Ret renamed s' ∧
    get_object 3 1%positive "bulb" s' = Ret (Some 10%positive) s2.
Proof.
  assert (Hne : "candle" ≠ "") by discriminate.
  assert (Hne' : "candle" ≠ "bulb") by discriminate.
  split; [exact two_bulbs_wf|]. split; [exact two_bulbs_height|].
  split; [exact Hne|]. split; [exact Hne'|].
  destruct (modify_object_rename two_bulbs_store two_bulbs_tree 3 "bulb" "candle" ""
              two_bulbs_wf two_bulbs_height Hne Hne')
    as (renamed & s' & H1 & (s2 & H2) & _).
  exists renamed, s', s2. split; [exact H1 | exact H2].
Defined.

(** X5. [get_object_info] and [get_object] agree: whenever the first
    returns, its answer is empty exactly when the second answers [None],
    and otherwise it starts with the name and the category stored in the
    dictionary the second returns. *)
Theorem get_object_info_agrees_with_get_object s t fuel n res s2 :
  holds s t → height t < fuel →
  get_object_info fuel (root t) n s = Ret res s2 →
  ∃ r s1,
    get_object fuel (root t) n s = Ret r s1 ∧
    (res = [] ↔ r = None) ∧
    (∀ o, r = Some o →
       ∃ d cat path, s !! o = Some (ObjDict d) ∧ d !! "name" = Some n ∧
                     d !! "category" = Some cat ∧ res = n :: cat :: path).
Proof.
  intros Hh Hfuel Hinfo.
  destruct (get_object_info_run fuel t s n Hh Hfuel) as (s3 & _ & Hrun).
  destruct (get_object_spec fuel t s n Hh Hfuel) as (s1 & _ & Hget).
  rewrite Hrun in Hinfo. exists (e_loc <$> first_match n t), s1. split; [done|].
  destruct (first_match n t) as [e|] eqn:Hm; cbn [fmap option_fmap option_map].
  - pose proof (first_match_In _ _ _ Hm) as [Hin Hn].
    unfold info_outcome in Hinfo. rewrite Hn in Hinfo.
    destruct (_ !! "category") as [cat|] eqn:Hc; [|done].
    destruct (chain_names _) as [path|]; [|done]. injection Hinfo as <- _.
    split; [done|]. intros o [= <-]. exists (e_obj e).2, cat, path.
    split; [by eapply holds_dfs_obj | done].
  - injection Hinfo as <- _. done.
Qed.

Lemma get_object_info_agrees_with_get_object_witness :
  ∃ s2,
    holds hammer_store hammer_tree ∧ height hammer_tree < 4 ∧
    get_object_info 4 1%positive "hammer" hammer_store
    = Ret ["hammer"; "tools"; "shelf"; "garage"; "house"] s2 ∧
    ∃ r s1, get_object 4 1%positive "hammer" hammer_store = Ret r s1 ∧ r ≠ None.
Proof.
  eexists. split; [exact hammer_holds|]. split; [exact hammer_height|].
  split; [vm_compute; reflexivity|].
  destruct (get_object_info_agrees_with_get_object hammer_store hammer_tree 4 "hammer"
              _ _ hammer_holds hammer_height eq_refl) as (r & s1 & H1 & [_ H2] & _).
  exists r, s1. split; [exact H1|]. intros Hr.
  specialize (H2 Hr). discriminate H2.
Defined.

(** X6. An object without a [category] key is found by [get_object], but
    [get_object_info] raises [KeyError] for it. *)
Theorem get_object_info_missing_category s t fuel n e :
  holds s t → height t < fuel →
  first_match n t = Some e → (e_obj e).2 !! "category" = None →
  (∃ s1, get_object_info fuel (root t) n s = Raise (KeyError "category") s1) ∧
  (∃ s1, get_object fuel (root t) n s = Ret (Some (e_loc e)) s1).
Proof.
  intros Hh Hfuel Hm Hc.
  destruct (get_object_info_run fuel t s n Hh Hfuel) as (s1 & _ & Hrun).
  destruct (get_object_spec fuel t s n Hh Hfuel) as (s2 & _ & Hget).
  rewrite Hm in Hrun, Hget. pose proof (first_match_In _ _ _ Hm) as [_ Hn].
  unfold info_outcome in Hrun. rewrite Hn, Hc in Hrun. eauto.
Qed.

Lemma get_object_info_missing_category_witness :
  ∃ e,
    holds uncategorized_store uncategorized_tree ∧ height uncategorized_tree < 2 ∧
    first_match "box" uncategorized_tree = Some e ∧
    (e_obj e).2 !! "category" = None ∧
    (∃ s1, get_object_info 2 1%positive "box" uncategorized_store
           = Raise (KeyError "category") s1) ∧
    (∃ s1, get_object 2 1%positive "box" uncategorized_store = Ret (Some 3%positive) s1).
Proof.
  assert (Hlt : height uncategorized_tree < 2) by (vm_compute; lia).
  eexists. split; [exact uncategorized_holds|]. split; [exact Hlt|].
  split; [vm_compute; reflexivity|]. split; [reflexivity|].
  exact (get_object_info_missing_category uncategorized_store uncategorized_tree 2 "box"
           _ uncategorized_holds Hlt eq_refl eq_refl).
Defined.

(** X7. For a name that no object has, [delete_object] and [modify_object]
    answer [False], every cell of the store keeps its contents, and the
    store still holds the same tree. *)
Theorem absent_name_changes_nothing s t fuel n nn nc :
  wf s t → height t < fuel → find (named n) (dfs_objects t) = None →
  (∃ s', delete_object fuel (root t) n s = Ret false s' ∧ ext s s' ∧ wf s' t) ∧
  (∃ s', modify_object fuel (root t) n nn nc s = Ret false s' ∧ ext s s' ∧ wf s' t).
Proof.
  intros Hwf Hfuel Hnone.
  assert (Hm : has_match n t = false) by (by rewrite has_match_objects, Hnone).
  split.
  - destruct (delete_object_run fuel t s n Hwf Hfuel) as (s' & Hrun & _ & He).
    rewrite Hm in Hrun. exists s'. split; [done|]. split; [by auto|].
    eapply wf_ext; [by apply He | done].
  - destruct (modify_object_run fuel t s n nn nc Hwf Hfuel) as (s' & Hrun & _ & He).
    rewrite Hm in Hrun. exists s'. split; [done|]. split; [by auto|].
    eapply wf_ext; [by apply He | done].
Qed.

Lemma absent_name_changes_nothing_witness :
  wf two_bulbs_store two_bulbs_tree ∧ height two_bulbs_tree < 3 ∧
  find (named "hammer") (dfs_objects two_bulbs_tree) = None ∧
  (∃ s', delete_object 3 1%positive "hammer" two_bulbs_store = Ret false s' ∧
         wf s' two_bulbs_tree) ∧
  (∃ s', modify_object 3 1%positive "hammer" "mallet" "tools" two_bulbs_store
         = Ret false s' ∧ wf s' two_bulbs_tree).
Proof.
  split; [exact two_bulbs_wf|]. split; [exact two_bulbs_height|].
  split; [reflexivity|].
  destruct (absent_name_changes_nothing two_bulbs_store two_bulbs_tree 3
              "hammer" "mallet" "tools" two_bulbs_wf two_bulbs_height eq_refl)
    as [(s1 & H1 & _ & W1) (s2 & H2 & _ & W2)].
  split; [exists s1 | exists s2]; split; done.
Defined.

(** ** Containers under changes of objects *)

Lemma container_index_eq l nm objs kids :
  container_index (LNode l nm objs kids)
  = (l, nm) :: flat_map container_index (field_list kids).
Proof.
  unfold container_index. rewrite dfs_containers_eq. cbn [map root t_name]. f_equal.
  induction (field_list kids) as [|k ks IH]; [done|]. cbn [flat_map].
  by rewrite map_app, IH.
Qed.

Lemma container_index_t_delete n t :
  container_index (t_delete n t) = container_index t.
Proof.
  induction t as [l nm objs kids IH] using ltree_ind'.
  rewrite t_delete_eq. destruct (find _ _); rewrite !container_index_eq; [done|].
  rewrite field_list_map_field by done. f_equal.
  induction (field_list kids) as [|k ks IHks]; [done|].
  apply Forall_cons in IH as [IHk IH]. cbn [map_first].
  destruct (has_match n k); cbn [flat_map]; [by rewrite IHk | by rewrite IHks].
Qed.

Lemma container_index_t_update o d t :
  container_index (t_update o d t) = container_index t.
Proof.
  induction t as [l nm objs kids IH] using ltree_ind'.
  rewrite t_update_eq, !container_index_eq, field_list_map_field by done. f_equal.
  induction (field_list kids) as [|k ks IHks]; [done|].
  apply Forall_cons in IH as [IHk IH]. cbn [map flat_map]. by rewrite IHk, IHks.
Qed.

Lemma container_index_t_modify n nn nc t :
  container_index (t_modify n nn nc t) = container_index t.
Proof.
  unfold t_modify. destruct (first_match n t); [|done]. apply container_index_t_update.
Qed.

Lemma first_container_index m t t' :
  container_index t' = container_index t →
  root <$> first_container m t' = root <$> first_container m t.
Proof.
  unfold container_index, first_container.
  generalize (dfs_containers t') as L'. generalize (dfs_containers t) as L.
  induction L as [|c L IH]; intros [|c' L']; try done.
  cbn [map find]. intros [= Hr Hn Hrest]. unfold cnamed at 1 3. rewrite Hn.
  destruct (bool_decide _); [by cbn; rewrite Hr | by apply IH].
Qed.

(** X21. [delete_object] and [modify_object] leave the containers alone:
    whatever object they remove or rewrite, [get_container_by_name]
    answers the same reference for every name before and after. *)
Theorem containers_survive_object_changes s t fuel m :
  wf s t → height t < fuel →
  ∃ r s1, get_container_by_name fuel (root t) m s = Ret r s1 ∧
    (∀ n, ∃ deleted s' s2,
       delete_object fuel (root t) n s = Ret deleted s' ∧
       get_container_by_name fuel (root t) m s' = Ret r s2) ∧
    (∀ n nn nc, ∃ modified s' s2,
       modify_object fuel (root t) n nn nc s = Ret modified s' ∧
       get_container_by_name fuel (root t) m s' = Ret r s2).
Proof.
  intros Hwf Hfuel.
  destruct (get_container_by_name_spec fuel t s m (proj2 Hwf) Hfuel) as (s1 & _ & H1).
  eexists _, s1. split; [exact H1|]. split.
  - intros n.
    destruct (delete_object_run fuel t s n Hwf Hfuel) as (s' & Hrun & Hwf' & _).
    destruct (get_container_by_name_spec fuel _ s' m (proj2 Hwf')) as (s2 & _ & H2).
    { by rewrite height_t_delete. }
    rewrite root_t_delete in H2.
    rewrite (first_container_index m t) in H2 by apply container_index_t_delete.
    eauto.
  - intros n nn nc.
    destruct (modify_object_run fuel t s n nn nc Hwf Hfuel) as (s' & Hrun & Hwf' & _).
    destruct (get_container_by_name_spec fuel _ s' m (proj2 Hwf')) as (s2 & _ & H2).
    { by rewrite height_t_modify. }
    rewrite root_t_modify in H2.
    rewrite (first_container_index m t) in H2 by apply container_index_t_modify.
    eauto.
Qed.

Lemma containers_survive_object_changes_witness :
  wf hammer_store hammer_tree ∧ height hammer_tree < 4 ∧
  ∃ r s1 deleted s' s2,
    get_container_by_name 4 1%positive "shelf" hammer_store = Ret r s1 ∧
    delete_object 4 1%positive "hammer" hammer_store = Ret deleted s' ∧
    get_container_by_name 4 1%positive "shelf" s' = Ret r s2.
Proof.
  split; [exact hammer_wf|]. split; [exact hammer_height|].
  destruct (containers_survive_object_changes hammer_store hammer_tree 4 "shelf"
              hammer_wf hammer_height) as (r & s1 & H1 & Hdel & _).
  destruct (Hdel "hammer") as (deleted & s' & s2 & H2 & H3).
  exists r, s1, deleted, s', s2. split; [exact H1|]. split; [exact H2 | exact H3].
Defined.

(** ** Adding to a container *)

Lemma t_append_eq ol x l nm objs kids :
  t_append ol x (LNode l nm objs kids) =
  LNode l nm (append_at ol x objs) (map_field (map (t_append ol x)) kids).
Proof. by destruct kids as [[??]|]. Qed.

Lemma root_t_append ol x t : root (t_append ol x t) = root t.
Proof. by destruct t. Qed.

Lemma height_t_append ol x t : height (t_append ol x t) = height t.
Proof.
  induction t as [l nm objs kids IH] using ltree_ind'.
  rewrite t_append_eq, !height_eq, field_list_map_field by done. do 2 f_equal.
  rewrite map_map. induction (field_list kids) as [|k ks IHks]; [done|].
  apply Forall_cons in IH as [IHk IH]. simpl. by rewrite IHk, IHks.
Qed.

Lemma roots_t_append ol x ks : root <$> map (t_append ol x) ks = root <$> ks.
Proof.
  induction ks as [|k ks IH]; [done|]. cbn [map fmap list_fmap].
  by rewrite root_t_append, IH.
Qed.

Lemma append_at_fst ol x objs : fst <$> append_at ol x objs = fst <$> objs.
Proof. destruct objs as [[l os]|]; [|done]. simpl. by case_bool_decide. Qed.

Lemma append_at_other ol x objs :
  ol ∉ field_loc objs → append_at ol x objs = objs.
Proof.
  destruct objs as [[l os]|]; [|done]. simpl. intros H.
  rewrite bool_decide_eq_false_2; [done|]. intros ->. apply H, list_elem_of_here.
Qed.

Lemma t_append_other ol x t : ol ∉ locs t → t_append ol x t = t.
Proof.
  induction t as [l nm objs kids IH] using ltree_ind'.
  rewrite locs_eq, t_append_eq. intros Hol. apply not_elem_of_cons in Hol as [_ Hol].
  rewrite !not_elem_of_app in Hol. destruct Hol as [[Ho _] [_ Hk]].
  rewrite append_at_other by done. f_equal.
  destruct kids as [[kl ks]|]; [|done]. cbn [map_field field_list] in *. do 2 f_equal.
  induction ks as [|k ks IHks]; [done|].
  apply Forall_cons in IH as [IHk IH]. cbn [flat_map map] in *.
  rewrite not_elem_of_app in Hk. destruct Hk as [Hk1 Hk2].
  by rewrite IHk, IHks.
Qed.

Lemma objs_loc_in_locs c t ol os :
  In c (dfs_containers t) → t_objs_field c = Some (ol, os) → ol ∈ locs t.
Proof.
  revert c. induction t as [l nm objs kids IH] using ltree_ind'. intros c.
  rewrite dfs_containers_eq. intros [<-|Hin] Hc.
  - cbn in Hc. subst. rewrite locs_eq. apply list_elem_of_further, list_elem_of_here.
  - apply in_flat_map in Hin as (k & Hk & Hin). apply list_elem_of_In in Hk.
    rewrite Forall_forall in IH. eapply kid_locs_in; [done|]. by eapply IH.
Qed.

Lemma holds_append_kids ol os x s : ∀ ks c,
  NoDup (flat_map locs ks) →
  Forall (holds s) ks →
  Forall (λ k, ∀ c, NoDup (locs k) → holds s k → x.1 ∉ locs k →
               In c (dfs_containers k) → t_objs_field c = Some (ol, os) →
               holds (<[ol := PyList (os.*1 ++ [x.1])]> s) (t_append ol x k)) ks →
  (∀ y, y ∈ flat_map locs ks → y ≠ x.1) →
  In c (flat_map dfs_containers ks) → t_objs_field c = Some (ol, os) →
  Forall (holds (<[ol := PyList (os.*1 ++ [x.1])]> s)) (map (t_append ol x) ks).
Proof.
  induction ks as [|k ks IHks]; intros c Hnd Hks IH Hx Hin Hc; [done|].
  cbn [flat_map map] in *. apply NoDup_app in Hnd as (Hnd1 & Hdisj & Hnd2).
  apply Forall_cons in Hks as [Hk Hks]. apply Forall_cons in IH as [IHk IH].
  apply in_app_iff in Hin as [Hin|Hin]; apply Forall_cons; split.
  - eapply IHk; try done. intros Hx'. eapply Hx; [|done]. apply elem_of_app. by left.
  - pose proof (objs_loc_in_locs _ _ _ _ Hin Hc) as Hol.
    rewrite Forall_forall in Hks |- *. intros k' Hk'.
    apply list_elem_of_In, in_map_iff in Hk' as (k0 & <- & Hk0).
    apply list_elem_of_In in Hk0.
    assert (ol ∉ locs k0).
    { intros Hin0. apply (Hdisj _ Hol). apply elem_of_flat_map. eauto. }
    rewrite t_append_other by done. apply holds_frame; [by apply Hks | done].
  - apply in_flat_map in Hin as (k0 & Hk0 & Hin).
    pose proof (objs_loc_in_locs _ _ _ _ Hin Hc) as Hol.
    assert (ol ∉ locs k).
    { intros Hin0. apply (Hdisj _ Hin0). apply elem_of_flat_map.
      exists k0. by rewrite list_elem_of_In. }
    rewrite t_append_other by done. by apply holds_frame.
  - eapply IHks; try done. intros y Hy. apply Hx. apply elem_of_app. by right.
Qed.

(** After the append the store holds the tree with [x] at the end of the
    list at [ol]. *)
Lemma holds_append ol os x t : ∀ s c,
  NoDup (locs t) → holds s t → x.1 ∉ locs t →
  s !! x.1 = Some (ObjDict x.2) →
  In c (dfs_containers t) → t_objs_field c = Some (ol, os) →
  holds (<[ol := PyList (os.*1 ++ [x.1])]> s) (t_append ol x t).
Proof.
  induction t as [l nm objs kids IH] using ltree_ind'. intros s c Hnd Hh Hx Hxs.
  inversion Hh as [? ? ? ? Hl Ho Hk Hks]; subst.
  rewrite dfs_containers_eq, t_append_eq. pose proof Hnd as Hnd0. rewrite locs_eq in Hnd, Hx.
  apply NoDup_cons in Hnd as [Hl' Hnd]. apply NoDup_app in Hnd as (Hnd1 & Hdisj & Hnd2).
  intros [<-|Hin] Hc.
  - cbn in Hc. subst objs. cbn [field_loc field_list app append_at] in *.
    rewrite bool_decide_eq_true_2 by done.
    apply NoDup_cons in Hnd1 as [Hol Hnd1].
    assert (Hne : ∀ y, y ≠ ol → (<[ol := PyList (os.*1 ++ [x.1])]> s : store) !! y = s !! y).
    { intros y Hy. by apply lookup_insert_ne. }
    assert (Hkids : ∀ k, k ∈ field_list kids → ol ∉ locs k).
    { intros k Hk' Hin. apply (Hdisj ol); [apply list_elem_of_here|].
      apply elem_of_app. right. apply elem_of_flat_map. eauto. }
    constructor.
    + rewrite fst_map_field, Hne; [done|]. intros ->. apply Hl', list_elem_of_here.
    + destruct Ho as [Ho1 Ho2]. split.
      * rewrite fmap_app. apply lookup_insert_eq.
      * apply Forall_app. split.
        -- rewrite Forall_forall in Ho2 |- *. intros y Hy. rewrite Hne; [by apply Ho2|].
           intros E. apply Hol. rewrite <- E. apply list_elem_of_fmap. eauto.
        -- apply Forall_singleton. rewrite Hne; [done|]. intros E. apply Hx.
           rewrite E. apply list_elem_of_further, list_elem_of_here.
    + destruct kids as [[kl ks]|]; [|done]. cbn [map_field kids_cell] in *.
      rewrite roots_t_append, Hne; [done|]. intros E.
      apply (Hdisj ol); [apply list_elem_of_here|]. rewrite <- E. apply list_elem_of_here.
    + rewrite field_list_map_field by done.
      rewrite Forall_forall in Hks |- *. intros k' Hk'.
      apply list_elem_of_In, in_map_iff in Hk' as (k & <- & Hk').
      apply list_elem_of_In in Hk'. rewrite t_append_other by auto.
      apply holds_frame; auto.
  - assert (Hol : ol ∈ flat_map locs (field_list kids)).
    { apply in_flat_map in Hin as (k & Hk' & Hin). apply elem_of_flat_map.
      exists k. split; [by apply list_elem_of_In|]. by eapply objs_loc_in_locs. }
    assert (Hndk : NoDup (flat_map locs (field_list kids))).
    { by apply NoDup_app in Hnd2 as (_ & _ & ?). }
    assert (Hne : ∀ y, y ∈ l :: (field_loc objs ++ (field_list objs).*1) ++ field_loc kids →
                       (<[ol := PyList (os.*1 ++ [x.1])]> s : store) !! y = s !! y).
    { intros y Hy. apply lookup_insert_ne. intros ->.
      apply elem_of_cons in Hy as [->|Hy].
      - apply Hl'. rewrite !elem_of_app. auto.
      - apply elem_of_app in Hy as [Hy|Hy].
        + apply (Hdisj _ Hy). apply elem_of_app. auto.
        + apply NoDup_app in Hnd2 as (_ & Hd2 & _). by apply (Hd2 _ Hy). }
    rewrite append_at_other; cycle 1.
    { intros Ho'. apply (Hdisj ol); [apply elem_of_app; by left|].
      apply elem_of_app. by right. }
    constructor.
    + rewrite fst_map_field, Hne; [done|]. apply list_elem_of_here.
    + destruct objs as [[ol' os']|]; [|done]. destruct Ho as [Ho1 Ho2]. split.
      * rewrite Hne; [done|]. simpl. apply list_elem_of_further, list_elem_of_here.
      * rewrite Forall_forall in Ho2 |- *. intros y Hy. rewrite Hne; [by apply Ho2|].
        simpl. do 2 apply list_elem_of_further. apply elem_of_app. left.
        apply list_elem_of_fmap. eauto.
    + destruct kids as [[kl ks]|]; [|done]. cbn [map_field kids_cell] in *.
      rewrite roots_t_append, Hne; [done|]. apply list_elem_of_further.
      rewrite !elem_of_app. right. apply list_elem_of_here.
    + rewrite field_list_map_field by done.
      eapply (holds_append_kids ol os x s _ c); try done.
      * rewrite Forall_forall in IH |- *. intros k Hk' c' Hnd' Hh' Hx' Hin' Hc'.
        by eapply IH.
      * intros y Hy ->. apply Hx. apply list_elem_of_further.
        rewrite !elem_of_app. auto.
Qed.

Lemma holds_locs_Some s t l : holds s t → l ∈ locs t → is_Some (s !! l).
Proof.
  induction t as [l0 nm objs kids IH] using ltree_ind'.
  inversion 1 as [? ? ? ? Hl Ho Hk Hks]; subst. rewrite locs_eq.
  rewrite elem_of_cons, !elem_of_app.
  intros [->|[[Hin|Hin]|[Hin|Hin]]].
  - by eauto.
  - destruct objs as [[ol os]|]; [|by apply elem_of_nil in Hin].
    apply list_elem_of_singleton in Hin as ->. destruct Ho. eauto.
  - destruct objs as [[ol os]|]; [|by apply elem_of_nil in Hin].
    destruct Ho as [_ Ho]. apply list_elem_of_fmap in Hin as (y & -> & Hy).
    rewrite Forall_forall in Ho. eauto.
  - destruct kids as [[kl ks]|]; [|by apply elem_of_nil in Hin].
    apply list_elem_of_singleton in Hin as ->. simpl in Hk. eauto.
  - apply elem_of_flat_map in Hin as (k & Hk' & Hin).
    rewrite Forall_forall in IH, Hks. eauto.
Qed.

Lemma fresh_loc_notin s t : holds s t → fresh_loc s ∉ locs t.
Proof.
  intros Hh Hin. destruct (holds_locs_Some _ _ _ Hh Hin) as [c Hc].
  by rewrite fresh_loc_None in Hc.
Qed.

Lemma map_t_append_other ol x ks :
  (∀ k, k ∈ ks → ol ∉ locs k) → map (t_append ol x) ks = ks.
Proof.
  induction ks as [|k ks IH]; [done|]. intros H. cbn [map].
  rewrite t_append_other, IH; [done| |].
  - intros k' Hk'. apply H. by apply list_elem_of_further.
  - apply H, list_elem_of_here.
Qed.

Lemma flat_map_locs_t_append ol os x : ∀ ks c,
  NoDup (flat_map locs ks) →
  Forall (λ k, ∀ c, NoDup (locs k) → In c (dfs_containers k) →
               t_objs_field c = Some (ol, os) →
               locs (t_append ol x k) ≡ₚ x.1 :: locs k) ks →
  In c (flat_map dfs_containers ks) → t_objs_field c = Some (ol, os) →
  flat_map locs (map (t_append ol x) ks) ≡ₚ x.1 :: flat_map locs ks.
Proof.
  induction ks as [|k ks IHks]; intros c Hnd IH Hin Hc; [done|].
  cbn [flat_map map] in *. apply NoDup_app in Hnd as (Hnd1 & Hdisj & Hnd2).
  apply Forall_cons in IH as [IHk IH].
  apply in_app_iff in Hin as [Hin|Hin].
  - rewrite (IHk c) by done.
    pose proof (objs_loc_in_locs _ _ _ _ Hin Hc) as Hol.
    assert (E : map (t_append ol x) ks = ks).
    { apply map_t_append_other. intros k' Hk' Hy. apply (Hdisj ol Hol).
      apply elem_of_flat_map. eauto. }
    by rewrite E.
  - assert (Hol : ol ∈ flat_map locs ks).
    { apply in_flat_map in Hin as (k0 & Hk0 & Hin). apply elem_of_flat_map.
      exists k0. split; [by apply list_elem_of_In|]. by eapply objs_loc_in_locs. }
    rewrite t_append_other; [|intros Hy; by apply (Hdisj ol Hy)].
    rewrite (IHks c) by done. symmetry. apply Permutation_middle.
Qed.

Lemma locs_t_append ol os x t : ∀ c,
  NoDup (locs t) → In c (dfs_containers t) → t_objs_field c = Some (ol, os) →
  locs (t_append ol x t) ≡ₚ x.1 :: locs t.
Proof.
  induction t as [l nm objs kids IH] using ltree_ind'. intros c Hnd.
  rewrite dfs_containers_eq, t_append_eq, !locs_eq.
  rewrite locs_eq in Hnd.
  apply NoDup_cons in Hnd as [Hl' Hnd]. apply NoDup_app in Hnd as (Hnd1 & Hdisj & Hnd2).
  rewrite field_list_map_field, field_loc_map_field by done.
  intros [<-|Hin] Hc.
  - cbn in Hc. subst objs. cbn [field_loc field_list app append_at] in *.
    rewrite bool_decide_eq_true_2 by done. cbn [field_loc field_list app].
    assert (E : map (t_append ol x) (field_list kids) = field_list kids).
    { apply map_t_append_other. intros k Hk' Hin.
      apply (Hdisj ol); [apply list_elem_of_here|].
      apply elem_of_app. right. apply elem_of_flat_map. eauto. }
    rewrite E, fmap_app. cbn [fmap list_fmap].
    rewrite <- (assoc_L (++) (os.*1) [x.1]). cbn [app].
    symmetry. exact (Permutation_middle (l :: ol :: os.*1) _ x.1).
  - rewrite append_at_other; cycle 1.
    { intros Ho'. apply (Hdisj ol); [apply elem_of_app; by left|].
      apply elem_of_app. right. apply in_flat_map in Hin as (k & Hk' & Hin).
      apply elem_of_flat_map. exists k. split; [by apply list_elem_of_In|].
      by eapply objs_loc_in_locs. }
    apply NoDup_app in Hnd2 as (_ & _ & Hndk).
    rewrite (flat_map_locs_t_append ol os x _ c) by done.
    rewrite !(app_assoc (field_loc objs ++ (field_list objs).*1) (field_loc kids)).
    symmetry.
    exact (Permutation_middle (l :: (field_loc objs ++ (field_list objs).*1) ++ field_loc kids) _ x.1).
Qed.

Lemma wf_append ol os x t s c :
  wf s t → x.1 ∉ locs t → s !! x.1 = Some (ObjDict x.2) →
  In c (dfs_containers t) → t_objs_field c = Some (ol, os) →
  wf (<[ol := PyList (os.*1 ++ [x.1])]> s) (t_append ol x t).
Proof.
  intros [Hnd Hh] Hx Hxs Hin Hc. split; [|by eapply holds_append].
  rewrite (locs_t_append ol os x t c) by done. by apply NoDup_cons.
Qed.

Lemma dfs_containers_t_append ol x t :
  dfs_containers (t_append ol x t) = map (t_append ol x) (dfs_containers t).
Proof.
  induction t as [l nm objs kids IH] using ltree_ind'.
  rewrite (dfs_containers_eq l nm objs kids). cbn [map].
  rewrite t_append_eq at 1. rewrite dfs_containers_eq, field_list_map_field by done.
  rewrite <- t_append_eq. f_equal.
  induction (field_list kids) as [|k ks IHks]; [done|].
  apply Forall_cons in IH as [IHk IH]. cbn [map flat_map].
  by rewrite map_app, IHk, IHks.
Qed.

Lemma find_ext' {A} (p q : A → bool) (l : list A) :
  (∀ x, p x = q x) → find p l = find q l.
Proof. intros H. induction l as [|x l IH]; simpl; [done|]. by rewrite H, IH. Qed.

Lemma first_container_t_append n ol x t :
  first_container n (t_append ol x t) = t_append ol x <$> first_container n t.
Proof.
  unfold first_container. rewrite dfs_containers_t_append, find_map'.
  f_equal. apply find_ext'. intros c. unfold cnamed. by destruct c.
Qed.

Lemma find_dfs_objects_t_append_other p ol x t :
  p x = false →
  find p (dfs_objects (t_append ol x t)) = find p (dfs_objects t).
Proof.
  intros Hp. induction t as [l nm objs kids IH] using ltree_ind'.
  rewrite t_append_eq, !dfs_objects_eq, field_list_map_field, !find_app' by done.
  assert (E : find p (field_list (append_at ol x objs)) = find p (field_list objs)).
  { destruct objs as [[l' os]|]; [|done]. simpl. case_bool_decide; [|done].
    simpl. rewrite find_app'. simpl. rewrite Hp. by destruct (find p os). }
  rewrite E. destruct (find p (field_list objs)); [done|].
  induction (field_list kids) as [|k ks IHks]; [done|].
  apply Forall_cons in IH as [IHk IH]. cbn [map flat_map].
  by rewrite !find_app', IHk, IHks.
Qed.

Lemma dfs_objects_t_append_in ol x t y :
  In y (dfs_objects (t_append ol x t)) → y = x ∨ In y (dfs_objects t).
Proof.
  induction t as [l nm objs kids IH] using ltree_ind'.
  rewrite t_append_eq, !dfs_objects_eq, field_list_map_field, !in_app_iff by done.
  intros [Hin|Hin].
  - destruct objs as [[l' os]|]; [|done]. simpl in *.
    case_bool_decide; simpl in Hin; [|by auto].
    apply in_app_iff in Hin as [?|[?|[]]]; auto.
  - apply in_flat_map in Hin as (k' & Hk' & Hin).
    apply in_map_iff in Hk' as (k & <- & Hk).
    rewrite Forall_forall in IH. apply list_elem_of_In in Hk as Hk'.
    destruct (IH k Hk' Hin) as [?|?]; [by auto|]. right. right.
    apply in_flat_map. eauto.
Qed.

Lemma dfs_objects_t_append_new ol os x t c :
  In c (dfs_containers t) → t_objs_field c = Some (ol, os) →
  In x (dfs_objects (t_append ol x t)).
Proof.
  revert c. induction t as [l nm objs kids IH] using ltree_ind'. intros c.
  rewrite dfs_containers_eq, t_append_eq, dfs_objects_eq, field_list_map_field,
    in_app_iff by done.
  intros [<-|Hin] Hc.
  - cbn in Hc. subst. left. simpl. rewrite bool_decide_eq_true_2 by done.
    simpl. apply in_app_iff. right. by left.
  - right. apply in_flat_map in Hin as (k & Hk & Hin). apply in_flat_map.
    exists (t_append ol x k). split; [by apply in_map|].
    rewrite Forall_forall in IH. apply list_elem_of_In in Hk. by eapply IH.
Qed.

Lemma find_dfs_objects_t_append_new p ol os x t c :
  In c (dfs_containers t) → t_objs_field c = Some (ol, os) →
  p x = true → find p (dfs_objects t) = None →
  find p (dfs_objects (t_append ol x t)) = Some x.
Proof.
  intros Hin Hc Hp Hnone.
  destruct (find p (dfs_objects (t_append ol x t))) as [y|] eqn:E.
  - apply find_some in E as [Hy Hpy].
    apply dfs_objects_t_append_in in Hy as [->|Hy]; [done|].
    eapply find_none in Hnone; [|exact Hy]. congruence.
  - eapply find_none in E; [|by eapply dfs_objects_t_append_new]. congruence.
Qed.

(** ** src/catalog_interface.py: the prompts of [add_object] *)

Lemma get_container_for_adding_found fuel t line rest c : ∀ pre s,
  holds s t → height t < fuel →
  Forall (λ l, first_container l t = None) pre →
  first_container line t = Some c →
  ∃ s', ext s s' ∧
    get_container_for_adding fuel (root t) (pre ++ line :: rest) s
    = Ret (root c, rest) s'.
Proof.
  induction pre as [|l pre IH]; intros s Hh Hfuel Hpre Hc.
  - destruct (get_container_by_name_spec fuel t s line Hh Hfuel) as (s1 & He & Hrun).
    cbn [app get_container_for_adding]. erewrite bind_Ret by exact Hrun.
    rewrite Hc. cbn [fmap option_fmap option_map].
    erewrite bind_Ret by (eapply truthy_container; [by eapply holds_ext | done]).
    by exists s1.
  - apply Forall_cons in Hpre as [Hl Hpre].
    destruct (get_container_by_name_spec fuel t s l Hh Hfuel) as (s1 & He & Hrun).
    cbn [app get_container_for_adding]. erewrite bind_Ret by exact Hrun.
    rewrite Hl. cbn [fmap option_fmap option_map truthy].
    erewrite bind_Ret by reflexivity.
    destruct (IH s1) as (s' & He' & Hrun'); [by eapply holds_ext|done..|].
    exists s'. split; [by eapply ext_trans | done].
Qed.

Lemma get_container_for_adding_eof fuel t : ∀ lines s,
  holds s t → height t < fuel →
  Forall (λ l, first_container l t = None) lines →
  ∃ s', ext s s' ∧
    get_container_for_adding fuel (root t) lines s = Raise EOFError s'.
Proof.
  induction lines as [|l lines IH]; intros s Hh Hfuel Hpre.
  - exists s. split; [apply ext_refl | done].
  - apply Forall_cons in Hpre as [Hl Hpre].
    destruct (get_container_by_name_spec fuel t s l Hh Hfuel) as (s1 & He & Hrun).
    cbn [get_container_for_adding]. erewrite bind_Ret by exact Hrun.
    rewrite Hl. cbn [fmap option_fmap option_map truthy].
    erewrite bind_Ret by reflexivity.
    destruct (IH s1) as (s' & He' & Hrun'); [by eapply holds_ext|done..|].
    exists s'. split; [by eapply ext_trans | done].
Qed.

Lemma create_new_object_eq name cat rest s :
  create_new_object (name :: cat :: rest) s
  = Ret (fresh_loc s, rest)
        (<[fresh_loc s := ObjDict {["name" := name; "category" := cat]}]> s).
Proof. done. Qed.

Lemma insert_fresh_mono (s : store) v l c :
  s !! l = Some c → (<[fresh_loc s := v]> s : store) !! l = Some c.
Proof.
  intros H. rewrite lookup_insert_ne; [done|]. intros <-.
  by rewrite fresh_loc_None in H.
Qed.

Lemma add_object_run fuel t s name cat pre cname rest c ol os :
  wf s t → height t < fuel →
  Forall (λ l, first_container l t = None) pre →
  first_container cname t = Some c →
  t_objs_field c = Some (ol, os) →
  ∃ s', add_object fuel (root t) (name :: cat :: pre ++ cname :: rest) s = Ret rest s' ∧
        wf s' (t_append ol (fresh_loc s, {["name" := name; "category" := cat]}) t) ∧
        (∀ l v, l ≠ ol → s !! l = Some v → s' !! l = Some v).
Proof.
  intros [Hnd Hh] Hfuel Hpre Hc Hobjs.
  set (o := fresh_loc s). set (d := {["name" := name; "category" := cat]} : gmap string string).
  set (sa := <[o := ObjDict d]> s : store).
  assert (Ho : o ∉ locs t) by by apply fresh_loc_notin.
  assert (Hha : holds sa t) by by apply holds_frame.
  destruct (get_container_for_adding_found fuel t cname rest c pre sa Hha Hfuel Hpre Hc)
    as (sb & Hext & Hrun).
  pose proof (find_some _ _ Hc) as [Hin _].
  pose proof (holds_ext _ _ _ Hext Hha) as Hhb.
  pose proof (holds_cell _ _ (holds_sub _ _ _ Hhb Hin)) as Hcell.
  destruct (holds_objects _ _ _ _ _ Hhb Hin Hobjs) as [Hol _].
  unfold add_object. erewrite bind_Ret by apply create_new_object_eq.
  cbn [fst snd]. erewrite bind_Ret by exact Hrun. cbn [fst snd].
  rewrite <- bind_assoc.
  erewrite bind_Ret; cycle 1.
  { eapply append_with_objects_key; [exact Hcell | by rewrite Hobjs | exact Hol]. }
  eexists. split; [reflexivity|]. split.
  - apply (wf_append ol os (o, d) t _ c); try done.
    + split; [done|]. eapply holds_ext; [apply ext_tick | done].
    + cbn [fst snd]. apply (proj1 (ext_tick sb)), (proj1 Hext).
      apply lookup_insert_eq.
  - intros l v Hl Hv. rewrite lookup_insert_ne by done.
    apply (proj1 (ext_tick sb)), (proj1 Hext). by apply insert_fresh_mono.
Qed.

(** X8. [get_container_for_adding] asks again for every input line that
    names no container of the catalog and returns the first container a
    line names, with the input left after that line; when the input ends
    before a line names a container it raises [EOFError].  Either way the
    store only gains temporary lists. *)
Theorem get_container_for_adding_asks_again s t fuel pre :
  holds s t → height t < fuel →
  Forall (λ l, first_container l t = None) pre →
  (∀ line rest c, first_container line t = Some c →
     ∃ s', ext s s' ∧
       get_container_for_adding fuel (root t) (pre ++ line :: rest) s
       = Ret (root c, rest) s') ∧
  (∃ s', ext s s' ∧
     get_container_for_adding fuel (root t) pre s = Raise EOFError s').
Proof.
  intros Hh Hfuel Hpre. split.
  - intros line rest c Hc. by apply get_container_for_adding_found.
  - by apply get_container_for_adding_eof.
Qed.

Lemma get_container_for_adding_asks_again_witness :
  holds hammer_store hammer_tree ∧ height hammer_tree < 4 ∧
  Forall (λ l, first_container l hammer_tree = None) ["cellar"; "attic"] ∧
  (∃ s', get_container_for_adding 4 1%positive ["cellar"; "attic"; "shelf"; "next"]
           hammer_store = Ret (7%positive, ["next"]) s') ∧
  (∃ s', get_container_for_adding 4 1%positive ["cellar"; "attic"] hammer_store
         = Raise EOFError s').
Proof.
  assert (Hpre : Forall (λ l, first_container l hammer_tree = None) ["cellar"; "attic"]).
  { repeat constructor. }
  split; [exact hammer_holds|]. split; [exact hammer_height|]. split; [exact Hpre|].
  destruct (get_container_for_adding_asks_again hammer_store hammer_tree 4
              ["cellar"; "attic"] hammer_holds hammer_height Hpre) as [Hfound Heof].
  split.
  - destruct (Hfound "shelf" ["next"] _ eq_refl) as (s' & _ & Hrun).
    exists s'. exact Hrun.
  - destruct Heof as (s' & _ & Hrun). exists s'. exact Hrun.
Defined.

(** X9. [add_object] with the name and the category of the new object,
    then lines that name no container, then the name of a container that
    has an [objects] key: the new dictionary is appended at the end of
    the objects of the first container of that name, the rest of the
    input is returned, the catalog is well formed again, and every cell
    other than that list is as before. *)
Theorem add_object_appends_to_named_container
    s t fuel name cat pre cname rest c ol os :
  wf s t → height t < fuel →
  Forall (λ l, first_container l t = None) pre →
  first_container cname t = Some c →
  t_objs_field c = Some (ol, os) →
  let new_object := (fresh_loc s, {["name" := name; "category" := cat]}) in
  let t' := t_append ol new_object t in
  ∃ s', add_object fuel (root t) (name :: cat :: pre ++ cname :: rest) s = Ret rest s' ∧
        s !! new_object.1 = None ∧
        wf s' t' ∧
        (t_objs_field <$> first_container cname t') = Some (Some (ol, os ++ [new_object])) ∧
        s' !! ol = Some (PyList (os.*1 ++ [new_object.1])) ∧
        (∀ l v, l ≠ ol → s !! l = Some v → s' !! l = Some v).
Proof.
  intros Hwf Hfuel Hpre Hc Hobjs new_object t'.
  destruct (add_object_run fuel t s name cat pre cname rest c ol os)
    as (s' & Hrun & Hwf' & Hframe); try done.
  exists s'. split; [done|]. split; [apply fresh_loc_None|]. split; [done|].
  assert (Hc' : first_container cname t' = Some (t_append ol new_object c)).
  { unfold t'. by rewrite first_container_t_append, Hc. }
  assert (Hobjs' : t_objs_field (t_append ol new_object c) = Some (ol, os ++ [new_object])).
  { destruct c as [l nm objs kids]. cbn in Hobjs. subst objs. rewrite t_append_eq.
    cbn. by rewrite bool_decide_eq_true_2. }
  split; [by rewrite Hc'; cbn; rewrite Hobjs'|]. split; [|done].
  apply find_some in Hc' as [Hin _].
  destruct (holds_objects _ _ _ _ _ (proj2 Hwf') Hin Hobjs') as [Hol _].
  by rewrite Hol, fmap_app.
Qed.

Lemma add_object_appends_to_named_container_witness :
  ∃ c os,
    wf two_bulbs_store two_bulbs_tree ∧ height two_bulbs_tree < 3 ∧
    Forall (λ l, first_container l two_bulbs_tree = None) ["cellar"] ∧
    first_container "b" two_bulbs_tree = Some c ∧
    t_objs_field c = Some (9%positive, os) ∧
    ∃ s', add_object 3 1%positive ["torch"; "lighting"; "cellar"; "b"; "next"]
            two_bulbs_store = Ret ["next"] s' ∧
          s' !! 9%positive = Some (PyList [10%positive; fresh_loc two_bulbs_store]).
Proof.
  assert (Hpre : Forall (λ l, first_container l two_bulbs_tree = None) ["cellar"]).
  { repeat constructor. }
  eexists _, _. split; [exact two_bulbs_wf|]. split; [exact two_bulbs_height|].
  split; [exact Hpre|]. split; [vm_compute; reflexivity|]. split; [reflexivity|].
  destruct (add_object_appends_to_named_container two_bulbs_store two_bulbs_tree 3
              "torch" "lighting" ["cellar"] "b" ["next"] _ _ _
              two_bulbs_wf two_bulbs_height Hpre eq_refl eq_refl)
    as (s' & Hrun & _ & _ & _ & Hol & _).
  exists s'. split; [exact Hrun | exact Hol].
Defined.

(** X10. After [add_object] has put a new object into a container with
    an [objects] key, [get_object] answers for every other name what it
    answered before, and for the name of the new object it answers the
    new dictionary when no object had that name. *)
Theorem add_object_then_get_object
    s t fuel name cat pre cname rest c ol os :
  wf s t → height t < fuel →
  Forall (λ l, first_container l t = None) pre →
  first_container cname t = Some c →
  t_objs_field c = Some (ol, os) →
  ∃ s', add_object fuel (root t) (name :: cat :: pre ++ cname :: rest) s = Ret rest s' ∧
        (∀ m, m ≠ name →
           ∃ r s1 s2, get_object fuel (root t) m s = Ret r s1 ∧
                      get_object fuel (root t) m s' = Ret r s2) ∧
        (∀ s1, get_object fuel (root t) name s = Ret None s1 →
           ∃ s2, get_object fuel (root t) name s' = Ret (Some (fresh_loc s)) s2 ∧
                 s' !! fresh_loc s
                 = Some (ObjDict {["name" := name; "category" := cat]})).
Proof.
  intros Hwf Hfuel Hpre Hc Hobjs.
  destruct (add_object_run fuel t s name cat pre cname rest c ol os)
    as (s' & Hrun & Hwf' & Hframe); try done.
  set (x := (fresh_loc s, {["name" := name; "category" := cat]}) : object) in *.
  assert (Hx : ∀ m, named m x = bool_decide (m = name)).
  { intros m. unfold named, x. cbn [snd]. rewrite lookup_insert_eq.
    apply bool_decide_ext. split; congruence. }
  pose proof (find_some _ _ Hc) as [Hin _].
  exists s'. split; [done|]. split.
  - intros m Hm.
    destruct (get_object_run fuel t s m (proj2 Hwf) Hfuel) as (s1 & _ & H1).
    destruct (get_object_run fuel _ s' m (proj2 Hwf')) as (s2 & _ & H2).
    { by rewrite height_t_append. }
    rewrite root_t_append in H2.
    rewrite find_dfs_objects_t_append_other in H2
      by (rewrite Hx; by apply bool_decide_eq_false_2).
    eauto.
  - intros s1 Hnone.
    destruct (get_object_run fuel t s name (proj2 Hwf) Hfuel) as (s1' & _ & H1).
    rewrite H1 in Hnone.
    assert (Hfind : find (named name) (dfs_objects t) = None).
    { destruct (find (named name) (dfs_objects t)); [done|done]. }
    destruct (get_object_run fuel _ s' name (proj2 Hwf')) as (s2 & _ & H2).
    { by rewrite height_t_append. }
    rewrite root_t_append in H2.
    rewrite (find_dfs_objects_t_append_new _ ol os x t c) in H2; try done;
      [|rewrite Hx; by apply bool_decide_eq_true_2].
    exists s2. split; [done|].
    eapply (find_dfs_objects_cell s' _ (named name) x (proj2 Hwf')).
    apply (find_dfs_objects_t_append_new _ ol os x t c); try done.
    rewrite Hx. by apply bool_decide_eq_true_2.
Qed.

Lemma add_object_then_get_object_witness :
  ∃ c os,
    wf two_bulbs_store two_bulbs_tree ∧ height two_bulbs_tree < 3 ∧
    Forall (λ l, first_container l two_bulbs_tree = None) [] ∧
    first_container "b" two_bulbs_tree = Some c ∧
    t_objs_field c = Some (9%positive, os) ∧
    ∃ s' s2, add_object 3 1%positive ["torch"; "lighting"; "b"] two_bulbs_store
             = Ret [] s' ∧
             get_object 3 1%positive "torch" s'
             = Ret (Some (fresh_loc two_bulbs_store)) s2.
Proof.
  assert (Hpre : Forall (λ l, first_container l two_bulbs_tree = None) []).
  { constructor. }
  eexists _, _. split; [exact two_bulbs_wf|]. split; [exact two_bulbs_height|].
  split; [exact Hpre|]. split; [vm_compute; reflexivity|]. split; [reflexivity|].
  destruct (add_object_then_get_object two_bulbs_store two_bulbs_tree 3
              "torch" "lighting" [] "b" [] _ _ _
              two_bulbs_wf two_bulbs_height Hpre eq_refl eq_refl)
    as (s' & Hrun & _ & Hnew).
  destruct (Hnew _ eq_refl) as (s2 & Hget & _).
  exists s', s2. split; [exact Hrun | exact Hget].
Defined.

(** X11. When the input of [add_object] ends before a line names a
    container, [add_object] raises [EOFError]; the catalog is the same
    tree and every cell of the store is as before (the dictionary made
    for the new object is in no list). *)
Theorem add_object_input_ends s t fuel lines :
  wf s t → height t < fuel →
  Forall (λ l, first_container l t = None) (drop 2 lines) →
  ∃ s', add_object fuel (root t) lines s = Raise EOFError s' ∧
        wf s' t ∧
        (∀ l v, s !! l = Some v → s' !! l = Some v).
Proof.
  intros [Hnd Hh] Hfuel Hpre.
  destruct lines as [|name [|cat lines]];
    [exists s; by repeat split..|].
  cbn [drop] in Hpre.
  set (sa := <[fresh_loc s := ObjDict {["name" := name; "category" := cat]}]> s : store).
  assert (Hha : holds sa t) by (apply holds_frame; [done | by apply fresh_loc_notin]).
  destruct (get_container_for_adding_eof fuel t lines sa Hha Hfuel Hpre)
    as (sb & Hext & Hrun).
  exists sb. split; [|split; [split|]].
  - unfold add_object. erewrite bind_Ret by apply create_new_object_eq.
    cbn [fst snd]. unfold bind. fold sa. by rewrite Hrun.
  - done.
  - by eapply holds_ext.
  - intros l v Hv. apply (proj1 Hext). by apply insert_fresh_mono.
Qed.

Lemma add_object_input_ends_witness :
  wf two_bulbs_store two_bulbs_tree ∧ height two_bulbs_tree < 3 ∧
  Forall (λ l, first_container l two_bulbs_tree = None)
         (drop 2 ["torch"; "lighting"; "cellar"]) ∧
  ∃ s', add_object 3 1%positive ["torch"; "lighting"; "cellar"] two_bulbs_store
        = Raise EOFError s' ∧ wf s' two_bulbs_tree.
Proof.
  assert (Hpre : Forall (λ l, first_container l two_bulbs_tree = None)
                        (drop 2 ["torch"; "lighting"; "cellar"])).
  { repeat constructor. }
  split; [exact two_bulbs_wf|]. split; [exact two_bulbs_height|]. split; [exact Hpre|].
  destruct (add_object_input_ends two_bulbs_store two_bulbs_tree 3
              ["torch"; "lighting"; "cellar"] two_bulbs_wf two_bulbs_height Hpre)
    as (s' & Hrun & Hwf & _).
  exists s'. split; [exact Hrun | exact Hwf].
Defined.

Lemma read_choice_skip pre line rest s :
  Forall (λ l, l ≠ "1" ∧ l ≠ "2") pre → line = "1" ∨ line = "2" →
  read_choice (pre ++ line :: rest) s = Ret (line, rest) s.
Proof.
  intros Hpre Hline. induction pre as [|l pre IH].
  - cbn [app read_choice]. rewrite bool_decide_eq_true_2; [done|].
    rewrite !elem_of_cons. tauto.
  - apply Forall_cons in Hpre as [[H1 H2] Hpre]. cbn [app read_choice].
    rewrite bool_decide_eq_false_2; [by apply IH|].
    rewrite !elem_of_cons, elem_of_nil. tauto.
Qed.

Lemma read_choice_eof lines s :
  Forall (λ l, l ≠ "1" ∧ l ≠ "2") lines → read_choice lines s = Raise EOFError s.
Proof.
  induction lines as [|l lines IH]; [done|]. intros [[H1 H2] Hpre]%Forall_cons.
  cbn [read_choice]. rewrite bool_decide_eq_false_2; [by apply IH|].
  rewrite !elem_of_cons, elem_of_nil. tauto.
Qed.

(** X12. [add_object_in_catalog] asks for the choice again for every line
    that is neither "1" nor "2"; after "1" it does what [add_object] does
    on the rest of the input, and when the input ends before a valid
    choice it raises [EOFError] and leaves the store as it is. *)
Theorem add_object_in_catalog_choice fuel data pre s :
  Forall (λ l, l ≠ "1" ∧ l ≠ "2") pre →
  (∀ rest, add_object_in_catalog fuel data (pre ++ "1" :: rest) s
           = add_object fuel data rest s) ∧
  add_object_in_catalog fuel data pre s = Raise EOFError s.
Proof.
  intros Hpre. split.
  - intros rest. unfold add_object_in_catalog.
    erewrite bind_Ret by (apply read_choice_skip; [done | by left]). done.
  - unfold add_object_in_catalog, bind. by rewrite read_choice_eof.
Qed.

Lemma add_object_in_catalog_choice_witness :
  Forall (λ l, l ≠ "1" ∧ l ≠ "2") ["3"; ""] ∧
  add_object_in_catalog 3 1%positive ["3"; ""; "1"; "torch"; "lighting"; "b"]
    two_bulbs_store
  = add_object 3 1%positive ["torch"; "lighting"; "b"] two_bulbs_store ∧
  add_object_in_catalog 3 1%positive ["3"; ""] two_bulbs_store
  = Raise EOFError two_bulbs_store.
Proof.
  assert (Hpre : Forall (λ l, l ≠ "1" ∧ l ≠ "2") ["3"; ""]).
  { repeat constructor; discriminate. }
  split; [exact Hpre|].
  destruct (add_object_in_catalog_choice 3 1%positive ["3"; ""] two_bulbs_store Hpre)
    as [H1 H2].
  split; [exact (H1 ["torch"; "lighting"; "b"]) | exact H2].
Defined.

(** ** Adding a container *)

Lemma root_t_append_kid kl new t : root (t_append_kid kl new t) = root t.
Proof. by destruct t. Qed.

Lemma roots_t_append_kid kl new ks :
  root <$> map (t_append_kid kl new) ks = root <$> ks.
Proof.
  induction ks as [|k ks IH]; [done|]. cbn [map fmap list_fmap].
  by rewrite root_t_append_kid, IH.
Qed.

Lemma t_append_kid_other kl new t : kl ∉ locs t → t_append_kid kl new t = t.
Proof.
  induction t as [l nm objs kids IH] using ltree_ind'.
  rewrite locs_eq. intros Hkl. apply not_elem_of_cons in Hkl as [_ Hkl].
  rewrite !not_elem_of_app in Hkl. destruct Hkl as [_ [Hk1 Hk2]].
  cbn [t_append_kid]. f_equal.
  destruct kids as [[l' ks]|]; [|done]. cbn [field_loc field_list] in *.
  rewrite bool_decide_eq_false_2; [|intros ->; apply Hk1, list_elem_of_here].
  do 2 f_equal.
  induction ks as [|k ks IHks]; [done|].
  apply Forall_cons in IH as [IHk IH]. cbn [flat_map map] in *.
  rewrite not_elem_of_app in Hk2. destruct Hk2 as [Hk2 Hk3].
  by rewrite IHk, IHks.
Qed.

Lemma map_t_append_kid_other kl new ks :
  (∀ k, k ∈ ks → kl ∉ locs k) → map (t_append_kid kl new) ks = ks.
Proof.
  induction ks as [|k ks IH]; [done|]. intros H. cbn [map].
  rewrite t_append_kid_other, IH; [done| |].
  - intros k' Hk'. apply H. by apply list_elem_of_further.
  - apply H, list_elem_of_here.
Qed.

Lemma kids_loc_in_locs c t kl ks :
  In c (dfs_containers t) → t_kids_field c = Some (kl, ks) → kl ∈ locs t.
Proof.
  revert c. induction t as [l nm objs kids IH] using ltree_ind'. intros c.
  rewrite dfs_containers_eq. intros [<-|Hin] Hc.
  - cbn in Hc. subst. rewrite locs_eq. apply list_elem_of_further.
    rewrite !elem_of_app. right. left. apply list_elem_of_here.
  - apply in_flat_map in Hin as (k & Hk & Hin). apply list_elem_of_In in Hk.
    rewrite Forall_forall in IH. eapply kid_locs_in; [done|]. by eapply IH.
Qed.

Lemma height_t_append_kid kl new t :
  height (t_append_kid kl new t) ≤ height t + height new.
Proof.
  induction t as [l nm objs kids IH] using ltree_ind'.
  destruct kids as [[l' ks]|]; cbn [t_append_kid]; [|rewrite !height_eq; simpl; lia].
  cbn [field_list] in IH. case_bool_decide; rewrite !height_eq; cbn [field_list].
  - rewrite map_app, foldr_app. cbn [map foldr].
    generalize (height new). intros h. clear.
    induction ks as [|k ks IHks]; simpl; lia.
  - induction ks as [|k ks IHks]; [simpl; lia|].
    apply Forall_cons in IH as [IHk IH]. specialize (IHks IH).
    cbn [map foldr] in *. lia.
Qed.

(** The store holds the tree with the new container when it holds the
    new container, has the longer list at [kl], and agrees with the old
    store on the other references of the tree. *)
Lemma holds_append_kid kl ks new s s' t : ∀ c,
  NoDup (locs t) → holds s t →
  In c (dfs_containers t) → t_kids_field c = Some (kl, ks) →
  holds s' new →
  s' !! kl = Some (PyList ((root <$> ks) ++ [root new])) →
  (∀ l, l ∈ locs t → l ≠ kl → s' !! l = s !! l) →
  holds s' (t_append_kid kl new t).
Proof.
  induction t as [l nm objs kids IH] using ltree_ind'. intros c Hnd Hh Hin Hc Hnew Hkl Hag.
  inversion Hh as [? ? ? ? Hl Ho Hk Hks]; subst.
  rewrite dfs_containers_eq in Hin. pose proof Hnd as Hnd0. rewrite locs_eq in Hnd.
  apply NoDup_cons in Hnd as [Hl' Hnd]. apply NoDup_app in Hnd as (Hnd1 & Hdisj & Hnd2).
  assert (Hkl_in : kl ∈ field_loc kids ++ flat_map locs (field_list kids)).
  { destruct Hin as [<-|Hin].
    - cbn in Hc. subst kids. apply elem_of_app. left. apply list_elem_of_here.
    - apply elem_of_app. right. apply in_flat_map in Hin as (k & Hk' & Hin).
      apply elem_of_flat_map. exists k. split; [by apply list_elem_of_In|].
      by eapply kids_loc_in_locs. }
  assert (Hl_ne : l ≠ kl).
  { intros ->. apply Hl'. apply elem_of_app. by right. }
  assert (Hobjs_ne : ∀ y, y ∈ field_loc objs ++ (field_list objs).*1 → y ≠ kl).
  { intros y Hy ->. by apply (Hdisj _ Hy). }
  assert (Hag' : ∀ y, y ∈ locs (LNode l nm objs kids) → y ≠ kl → s' !! y = s !! y) by done.
  rewrite locs_eq in Hag'.
  cbn [t_append_kid].
  assert (Hown : objs_hold s' objs).
  { destruct objs as [[ol os]|]; [|done]. destruct Ho as [Ho1 Ho2]. split.
    - rewrite Hag'; [done| |].
      + apply list_elem_of_further, elem_of_app. left. apply list_elem_of_here.
      + apply Hobjs_ne, list_elem_of_here.
    - rewrite Forall_forall in Ho2 |- *. intros y Hy.
      assert (Hy' : y.1 ∈ field_loc (Some (ol, os)) ++ (field_list (Some (ol, os))).*1).
      { apply list_elem_of_further. apply list_elem_of_fmap. eauto. }
      rewrite Hag'; [by apply Ho2| |by apply Hobjs_ne].
      apply list_elem_of_further, elem_of_app. by left. }
  destruct kids as [[l' ks']|]; cbn [field_loc field_list app fmap option_fmap option_map] in *.
  2:{ by apply elem_of_nil in Hkl_in. }
  apply NoDup_cons in Hnd2 as [Hl'' Hndk].
  case_bool_decide as Hdec.
  - subst l'. destruct Hin as [<-|Hin]; cycle 1.
    { exfalso. apply Hl''. apply in_flat_map in Hin as (k & Hk' & Hin).
      apply elem_of_flat_map. exists k. split; [by apply list_elem_of_In|].
      by eapply kids_loc_in_locs. }
    cbn in Hc. injection Hc as ->.
    constructor; cbn [fmap option_fmap option_map fst].
    + rewrite Hag'; [done | apply list_elem_of_here | done].
    + done.
    + cbn [kids_cell]. by rewrite fmap_app.
    + cbn [field_list]. apply Forall_app. split; [|by apply Forall_singleton].
      rewrite Forall_forall in Hks |- *. intros k Hk'.
      apply (holds_agree s); [by apply Hks|]. intros y Hy.
      assert (y ∈ flat_map locs ks) by (apply elem_of_flat_map; eauto).
      apply Hag'.
      * apply list_elem_of_further. rewrite !elem_of_app. right.
        by apply list_elem_of_further.
      * by intros ->.
  - destruct Hin as [<-|Hin]; [cbn in Hc; congruence|].
    constructor; cbn [fmap option_fmap option_map fst].
    + rewrite Hag'; [done | apply list_elem_of_here | done].
    + done.
    + cbn [kids_cell] in *. rewrite roots_t_append_kid, Hag'; [done| |done].
      apply list_elem_of_further, elem_of_app. right. apply list_elem_of_here.
    + cbn [field_list].
      assert (Hagk : ∀ y, y ∈ flat_map locs ks' → y ≠ kl → s' !! y = s !! y).
      { intros y Hy. apply Hag'. apply list_elem_of_further, elem_of_app. right.
        by apply list_elem_of_further. }
      clear -IH Hks Hndk Hin Hc Hnew Hkl Hagk.
      induction ks' as [|k ks' IHks]; [done|].
      cbn [flat_map map] in *. apply NoDup_app in Hndk as (Hnd1 & Hdisj & Hnd2).
      apply Forall_cons in Hks as [Hk Hks]. apply Forall_cons in IH as [IHk IH].
      apply in_app_iff in Hin as [Hin|Hin]; apply Forall_cons; split.
      * eapply IHk; try done. intros y Hy. apply Hagk. apply elem_of_app. by left.
      * pose proof (kids_loc_in_locs _ _ _ _ Hin Hc) as Hkl_k.
        rewrite map_t_append_kid_other; cycle 1.
        { intros k' Hk' Hy. apply (Hdisj _ Hkl_k). apply elem_of_flat_map. eauto. }
        rewrite Forall_forall in Hks |- *. intros k' Hk'.
        apply (holds_agree s); [by apply Hks|]. intros y Hy.
        assert (y ∈ flat_map locs ks') by (apply elem_of_flat_map; eauto).
        apply Hagk; [apply elem_of_app; by right|].
        intros ->. by apply (Hdisj _ Hkl_k).
      * assert (Hkl_t : kl ∈ flat_map locs ks').
        { apply in_flat_map in Hin as (k0 & Hk0 & Hin). apply elem_of_flat_map.
          exists k0. split; [by apply list_elem_of_In|]. by eapply kids_loc_in_locs. }
        rewrite t_append_kid_other; [|intros Hy; by apply (Hdisj _ Hy)].
        apply (holds_agree s); [done|]. intros y Hy.
        apply Hagk; [apply elem_of_app; by left|].
        intros ->. by apply (Hdisj _ Hy).
      * eapply IHks; try done. intros y Hy. apply Hagk. apply elem_of_app. by right.
Qed.

Lemma flat_map_locs_t_append_kid kl ks0 new : ∀ ks c,
  NoDup (flat_map locs ks) →
  Forall (λ k, ∀ c, NoDup (locs k) → In c (dfs_containers k) →
               t_kids_field c = Some (kl, ks0) →
               locs (t_append_kid kl new k) ≡ₚ locs new ++ locs k) ks →
  In c (flat_map dfs_containers ks) → t_kids_field c = Some (kl, ks0) →
  flat_map locs (map (t_append_kid kl new) ks) ≡ₚ locs new ++ flat_map locs ks.
Proof.
  induction ks as [|k ks IHks]; intros c Hnd IH Hin Hc; [done|].
  cbn [flat_map map] in *. apply NoDup_app in Hnd as (Hnd1 & Hdisj & Hnd2).
  apply Forall_cons in IH as [IHk IH].
  apply in_app_iff in Hin as [Hin|Hin].
  - rewrite (IHk c) by done.
    pose proof (kids_loc_in_locs _ _ _ _ Hin Hc) as Hkl.
    rewrite map_t_append_kid_other; [by rewrite app_assoc|].
    intros k' Hk' Hy. apply (Hdisj _ Hkl). apply elem_of_flat_map. eauto.
  - assert (Hkl : kl ∈ flat_map locs ks).
    { apply in_flat_map in Hin as (k0 & Hk0 & Hin). apply elem_of_flat_map.
      exists k0. split; [by apply list_elem_of_In|]. by eapply kids_loc_in_locs. }
    rewrite t_append_kid_other; [|intros Hy; by apply (Hdisj _ Hy)].
    rewrite (IHks c) by done.
    generalize (locs k), (flat_map locs ks), (locs new). intros A K N. solve_Permutation.
Qed.

Lemma locs_t_append_kid kl ks new t : ∀ c,
  NoDup (locs t) → In c (dfs_containers t) → t_kids_field c = Some (kl, ks) →
  locs (t_append_kid kl new t) ≡ₚ locs new ++ locs t.
Proof.
  induction t as [l nm objs kids IH] using ltree_ind'. intros c Hnd.
  rewrite dfs_containers_eq. cbn [t_append_kid]. rewrite !locs_eq.
  rewrite locs_eq in Hnd.
  apply NoDup_cons in Hnd as [Hl' Hnd]. apply NoDup_app in Hnd as (Hnd1 & Hdisj & Hnd2).
  intros Hin Hc.
  destruct kids as [[l' ks']|]; cbn [field_loc field_list app] in *.
  2:{ destruct Hin as [<-|[]]. cbn in Hc. congruence. }
  apply NoDup_cons in Hnd2 as [Hl'' Hndk].
  case_bool_decide as Hdec; cbn [field_loc field_list app].
  - rewrite flat_map_app. cbn [flat_map]. rewrite app_nil_r.
    generalize (field_loc objs ++ (field_list objs).*1), (flat_map locs ks'), (locs new).
    intros A K N. solve_Permutation.
  - destruct Hin as [<-|Hin]; [cbn in Hc; congruence|].
    rewrite (flat_map_locs_t_append_kid kl ks new _ c) by done.
    generalize (field_loc objs ++ (field_list objs).*1), (flat_map locs ks'), (locs new).
    intros A K N. solve_Permutation.
Qed.

Lemma wf_append_kid kl ks new s s' t c :
  wf s t →
  In c (dfs_containers t) → t_kids_field c = Some (kl, ks) →
  NoDup (locs new) → (∀ y, y ∈ locs new → y ∉ locs t) →
  holds s' new →
  s' !! kl = Some (PyList ((root <$> ks) ++ [root new])) →
  (∀ l, l ∈ locs t → l ≠ kl → s' !! l = s !! l) →
  wf s' (t_append_kid kl new t).
Proof.
  intros [Hnd Hh] Hin Hc Hndn Hdisj Hnew Hkl Hag.
  split; [|by eapply holds_append_kid].
  rewrite (locs_t_append_kid kl ks new t c) by done.
  apply NoDup_app. done.
Qed.

Lemma find_only {A} (p : A → bool) (L : list A) x :
  In x L → p x = true → (∀ y, In y L → p y = true → y = x) → find p L = Some x.
Proof.
  intros Hin Hp Huniq. destruct (find p L) as [y|] eqn:E.
  - apply find_some in E as [Hy Hpy]. f_equal. by apply Huniq.
  - eapply find_none in E; [|exact Hin]. congruence.
Qed.

Lemma dfs_containers_t_append_kid_in kl new t c' :
  In c' (dfs_containers (t_append_kid kl new t)) →
  In c' (dfs_containers new) ∨ ∃ c, In c (dfs_containers t) ∧ t_name c' = t_name c.
Proof.
  revert c'. induction t as [l nm objs kids IH] using ltree_ind'. intros c'.
  rewrite <- (root_t_append_kid kl new (LNode l nm objs kids)) at 1.
  cbn [t_append_kid root]. rewrite dfs_containers_eq.
  intros [<-|Hin].
  { right. exists (LNode l nm objs kids). split; [|done].
    rewrite dfs_containers_eq. by left. }
  destruct kids as [[l' ks]|]; [|done]. cbn [field_list] in *.
  assert (Hsub : ∀ k, In k ks → ∀ c, In c (dfs_containers k) →
                        In c (dfs_containers (LNode l nm objs (Some (l', ks))))).
  { intros k Hk c Hc. rewrite dfs_containers_eq. right. apply in_flat_map. eauto. }
  case_bool_decide; cbn [field_list] in Hin.
  - rewrite flat_map_app in Hin. apply in_app_iff in Hin as [Hin|Hin].
    + right. apply in_flat_map in Hin as (k & Hk & Hin). exists c'. eauto.
    + left. cbn [flat_map] in Hin. by rewrite app_nil_r in Hin.
  - apply in_flat_map in Hin as (k' & Hk' & Hin).
    apply in_map_iff in Hk' as (k & <- & Hk).
    rewrite Forall_forall in IH. apply list_elem_of_In in Hk as Hk'.
    destruct (IH k Hk' c' Hin) as [?|(c & Hc & Hn)]; [by left|]. right. eauto.
Qed.

Lemma dfs_containers_t_append_kid_new kl ks new t c c' :
  In c (dfs_containers t) → t_kids_field c = Some (kl, ks) →
  In c' (dfs_containers new) → In c' (dfs_containers (t_append_kid kl new t)).
Proof.
  revert c. induction t as [l nm objs kids IH] using ltree_ind'. intros c Hin Hc Hnew.
  rewrite dfs_containers_eq in Hin. cbn [t_append_kid]. rewrite dfs_containers_eq.
  right. destruct Hin as [<-|Hin].
  - cbn in Hc. subst kids. rewrite bool_decide_eq_true_2 by done. cbn [field_list].
    rewrite flat_map_app, in_app_iff. right. cbn [flat_map]. by rewrite app_nil_r.
  - destruct kids as [[l' ks']|]; [|done]. cbn [field_list] in *.
    apply in_flat_map in Hin as (k & Hk & Hin).
    case_bool_decide; cbn [field_list].
    + rewrite flat_map_app, in_app_iff. right. cbn [flat_map]. by rewrite app_nil_r.
    + apply in_flat_map. exists (t_append_kid kl new k). split; [by apply in_map|].
      rewrite Forall_forall in IH. apply list_elem_of_In in Hk. by eapply IH.
Qed.

Lemma dfs_objects_t_append_kid_in kl new t y :
  In y (dfs_objects (t_append_kid kl new t)) →
  In y (dfs_objects new) ∨ In y (dfs_objects t).
Proof.
  induction t as [l nm objs kids IH] using ltree_ind'.
  cbn [t_append_kid]. rewrite !dfs_objects_eq, !in_app_iff.
  intros [Hin|Hin]; [by auto|].
  destruct kids as [[l' ks]|]; [|done]. cbn [field_list] in *.
  case_bool_decide; cbn [field_list] in Hin.
  - rewrite flat_map_app in Hin. apply in_app_iff in Hin as [Hin|Hin]; [by auto|].
    left. cbn [flat_map] in Hin. by rewrite app_nil_r in Hin.
  - apply in_flat_map in Hin as (k' & Hk' & Hin).
    apply in_map_iff in Hk' as (k & <- & Hk).
    rewrite Forall_forall in IH. apply list_elem_of_In in Hk as Hk'.
    destruct (IH k Hk' Hin) as [?|?]; [by left|]. right. right.
    apply in_flat_map. eauto.
Qed.

Lemma dfs_objects_t_append_kid_new kl ks new t c y :
  In c (dfs_containers t) → t_kids_field c = Some (kl, ks) →
  In y (dfs_objects new) → In y (dfs_objects (t_append_kid kl new t)).
Proof.
  revert c. induction t as [l nm objs kids IH] using ltree_ind'. intros c Hin Hc Hnew.
  rewrite dfs_containers_eq in Hin. cbn [t_append_kid]. rewrite dfs_objects_eq, in_app_iff.
  right. destruct Hin as [<-|Hin].
  - cbn in Hc. subst kids. rewrite bool_decide_eq_true_2 by done. cbn [field_list].
    rewrite flat_map_app, in_app_iff. right. cbn [flat_map]. by rewrite app_nil_r.
  - destruct kids as [[l' ks']|]; [|done]. cbn [field_list] in *.
    apply in_flat_map in Hin as (k & Hk & Hin).
    case_bool_decide; cbn [field_list].
    + rewrite flat_map_app, in_app_iff. right. cbn [flat_map]. by rewrite app_nil_r.
    + apply in_flat_map. exists (t_append_kid kl new k). split; [by apply in_map|].
      rewrite Forall_forall in IH. apply list_elem_of_In in Hk. by eapply IH.
Qed.

(** Objects that are not in the new container are found as before. *)
Lemma find_dfs_objects_t_append_kid_other p kl new t :
  find p (dfs_objects new) = None →
  find p (dfs_objects (t_append_kid kl new t)) = find p (dfs_objects t).
Proof.
  intros Hp. induction t as [l nm objs kids IH] using ltree_ind'.
  cbn [t_append_kid]. rewrite !dfs_objects_eq, !find_app'.
  destruct (find p (field_list objs)); [done|].
  destruct kids as [[l' ks]|]; [|done]. cbn [field_list] in *.
  case_bool_decide; cbn [field_list].
  - rewrite flat_map_app, find_app'. cbn [flat_map]. rewrite app_nil_r, Hp.
    by destruct (find p (flat_map dfs_objects ks)).
  - induction ks as [|k ks IHks]; [done|].
    apply Forall_cons in IH as [IHk IH]. cbn [map flat_map].
    by rewrite !find_app', IHk, IHks.
Qed.

(** [container.get(key, []).append(x)] on a container that has the key. *)
Lemma append_with_key field s container c l items x :
  s !! container = Some (ContDict c) → field c = Some l →
  s !! l = Some (PyList items) →
  (lst <- dict_get_list field container ;; list_append lst x) s
  = Ret tt (<[l := PyList (items ++ [x])]> (tick s)).
Proof.
  intros Hc Hl Hitems.
  erewrite bind_Ret by (by apply dict_get_list_eq). rewrite Hl. cbn [default].
  unfold list_append. erewrite bind_Ret; [done|].
  unfold read_list, id. destruct (ext_tick s) as [He _]. by rewrite (He _ _ Hitems).
Qed.

Lemma alloc_eq c s : alloc c s = Ret (fresh_loc s) (<[fresh_loc s := c]> s).
Proof. done. Qed.

Lemma add_container_run fuel t s skipped cn pre pname oname ocat rest p kl ks :
  wf s t → height t < fuel →
  Forall (λ l, l ≠ "1" ∧ l ≠ "2") skipped →
  Forall (λ l, first_container l t = None) pre →
  first_container pname t = Some p →
  t_kids_field p = Some (kl, ks) →
  ∃ s' nc no nk o,
    add_object_in_catalog fuel (root t)
      (skipped ++ "2" :: cn :: pre ++ pname :: oname :: ocat :: rest) s = Ret rest s' ∧
    Forall (λ l, s !! l = None) [nc; no; nk; o] ∧
    wf s' (t_append_kid kl (new_container nc no nk o cn oname ocat) t).
Proof.
  intros Hwf Hfuel Hskip Hpre Hp Hkids. destruct Hwf as [Hnd Hh].
  set (d := {["name" := oname; "category" := ocat]} : gmap string string).
  set (no := fresh_loc s). set (s1 := <[no := PyList []]> s : store).
  set (nk := fresh_loc s1). set (s2 := <[nk := PyList []]> s1 : store).
  set (nc := fresh_loc s2).
  set (cell := ContDict (ContainerDict (Some cn) (Some no) (Some nk))).
  set (s3 := <[nc := cell]> s2 : store).
  assert (H01 : ∀ x v, s !! x = Some v → s1 !! x = Some v)
    by (intros x v; apply insert_fresh_mono).
  assert (H12 : ∀ x v, s1 !! x = Some v → s2 !! x = Some v)
    by (intros x v; apply insert_fresh_mono).
  assert (H23 : ∀ x v, s2 !! x = Some v → s3 !! x = Some v)
    by (intros x v; apply insert_fresh_mono).
  assert (Hh3 : holds s3 t).
  { apply (holds_agree s); [done|]. intros x Hx.
    destruct (holds_locs_Some _ _ _ Hh Hx) as [v Hv]. rewrite Hv. auto. }
  destruct (get_container_for_adding_found fuel t pname (oname :: ocat :: rest) p pre s3
              Hh3 Hfuel Hpre Hp) as (s4 & Hext & Hrun).
  pose proof (find_some _ _ Hp) as [Hin _].
  pose proof (holds_ext _ _ _ Hext Hh3) as Hh4.
  pose proof (holds_sub _ _ _ Hh4 Hin) as Hhp.
  pose proof (holds_cell _ _ Hhp) as Hcell. rewrite Hkids in Hcell.
  assert (Hkl4 : s4 !! kl = Some (PyList (root <$> ks))).
  { destruct p. inversion Hhp as [? ? ? ? _ _ Hk _]; subst. cbn in Hkids. by subst. }
  set (s5 := <[kl := PyList ((root <$> ks) ++ [nc])]> (tick s4) : store).
  set (o := fresh_loc s5). set (s6 := <[o := ObjDict d]> s5 : store).
  set (s7 := <[no := PyList ([] ++ [o])]> (tick s6) : store).
  assert (Hkl_t : kl ∈ locs t) by by eapply kids_loc_in_locs.
  assert (Hold : ∀ x, x ∈ locs t → is_Some (s !! x))
    by (intros x; by apply holds_locs_Some).
  assert (Hno : s !! no = None) by apply fresh_loc_None.
  assert (Hnk : s1 !! nk = None) by apply fresh_loc_None.
  assert (Hnc : s2 !! nc = None) by apply fresh_loc_None.
  assert (Ho : s5 !! o = None) by apply fresh_loc_None.
  assert (H34 : ∀ x v, s3 !! x = Some v → s4 !! x = Some v) by apply Hext.
  assert (H45 : ∀ x v, x ≠ kl → s4 !! x = Some v → s5 !! x = Some v).
  { intros x v Hx Hv. unfold s5. rewrite lookup_insert_ne by done.
    by apply (proj1 (ext_tick s4)). }
  assert (H56 : ∀ x v, s5 !! x = Some v → s6 !! x = Some v)
    by (intros x v; apply insert_fresh_mono).
  assert (H67 : ∀ x v, x ≠ no → s6 !! x = Some v → s7 !! x = Some v).
  { intros x v Hx Hv. unfold s7. rewrite lookup_insert_ne by done.
    by apply (proj1 (ext_tick s6)). }
  assert (Hkl_no : kl ≠ no).
  { intros E. destruct (Hold _ Hkl_t) as [v Hv]. rewrite E in Hv. congruence. }
  assert (Hkl_nk : kl ≠ nk).
  { intros E. destruct (Hold _ Hkl_t) as [v Hv]. apply H01 in Hv. rewrite E in Hv.
    congruence. }
  assert (Hkl_nc : kl ≠ nc).
  { intros E. destruct (Hold _ Hkl_t) as [v Hv]. apply H01, H12 in Hv. rewrite E in Hv.
    congruence. }
  assert (Hno3 : s3 !! no = Some (PyList [])).
  { apply H23, H12. apply lookup_insert_eq. }
  assert (Hnk3 : s3 !! nk = Some (PyList [])).
  { apply H23. apply lookup_insert_eq. }
  assert (Hnc3 : s3 !! nc = Some cell) by apply lookup_insert_eq.
  assert (Hnk_no : nk ≠ no).
  { intros E. rewrite E in Hnk. unfold s1 in Hnk. by rewrite lookup_insert_eq in Hnk. }
  assert (Hnc_no : nc ≠ no).
  { intros E. rewrite E in Hnc. rewrite (H12 no (PyList [])) in Hnc; [done|].
    apply lookup_insert_eq. }
  assert (Hnc_nk : nc ≠ nk).
  { intros E. rewrite E in Hnc. unfold s2 in Hnc. by rewrite lookup_insert_eq in Hnc. }
  assert (H35 : ∀ x v, x ≠ kl → s3 !! x = Some v → s5 !! x = Some v) by auto.
  assert (Ho_no : o ≠ no).
  { intros E. rewrite E, (H35 no (PyList [])) in Ho; done. }
  assert (Ho_nk : o ≠ nk).
  { intros E. rewrite E, (H35 nk (PyList [])) in Ho; done. }
  assert (Ho_nc : o ≠ nc).
  { intros E. rewrite E, (H35 nc cell) in Ho; done. }
  assert (Hkl5 : s5 !! kl = Some (PyList ((root <$> ks) ++ [nc])))
    by apply lookup_insert_eq.
  assert (Ho_kl : o ≠ kl).
  { intros E. rewrite E in Ho. congruence. }
  assert (Hold7 : ∀ x v, x ≠ kl → s !! x = Some v → s7 !! x = Some v).
  { intros x v Hx Hv. apply H67; [|by auto 10].
    intros E. rewrite E in Hv. congruence. }
  exists s7, nc, no, nk, o. split; [|split].
  - unfold add_object_in_catalog.
    erewrite bind_Ret by (apply read_choice_skip; [done | by right]).
    cbn [fst snd]. rewrite bool_decide_eq_false_2 by done.
    erewrite bind_Ret by apply alloc_eq. fold no s1.
    erewrite bind_Ret by apply alloc_eq. fold nk s2.
    erewrite bind_Ret by apply alloc_eq. fold nc cell s3.
    erewrite bind_Ret by exact Hrun. cbn [fst snd].
    rewrite <- (bind_assoc (dict_get_list cd_containers (root p))).
    erewrite bind_Ret; cycle 1.
    { eapply append_with_key; [exact Hcell | reflexivity | exact Hkl4]. }
    fold s5. erewrite bind_Ret by apply create_new_object_eq.
    fold o d s6. cbn [fst snd].
    rewrite <- (bind_assoc (dict_get_list cd_objects nc)).
    erewrite bind_Ret; cycle 1.
    { eapply (append_with_key cd_objects s6 nc
                (ContainerDict (Some cn) (Some no) (Some nk)) no []); [|reflexivity|].
      - apply H56, H35; [done | exact Hnc3].
      - apply H56, H35; [done | exact Hno3]. }
    done.
  - repeat (apply Forall_cons; split); [| done | | | done].
    + destruct (s !! nc) as [v|] eqn:E; [|done]. apply H01, H12 in E. congruence.
    + destruct (s !! nk) as [v|] eqn:E; [|done]. apply H01 in E. congruence.
    + destruct (s !! o) as [v|] eqn:E; [|done].
      destruct (decide (o = kl)) as [->|Hne]; [done|].
      apply H01, H12, H23, H34, H45 in E; [congruence | done].
  - apply (wf_append_kid kl ks _ s s7 t p); try done.
    + unfold new_container. rewrite locs_eq. cbn.
      rewrite !NoDup_cons, !not_elem_of_cons.
      repeat split; try congruence; try apply not_elem_of_nil. apply NoDup_nil_2.
    + unfold new_container. rewrite locs_eq. cbn. intros y Hy Hyt.
      destruct (Hold _ Hyt) as [v Hv].
      rewrite !elem_of_cons in Hy. destruct Hy as [->|[->|[->|[->|Hy]]]].
      * apply H01, H12 in Hv. congruence.
      * congruence.
      * destruct (decide (o = kl)) as [|Hne]; [done|].
        apply H01, H12, H23, H34, H45 in Hv; [congruence | done].
      * apply H01 in Hv. congruence.
      * by apply elem_of_nil in Hy.
    + unfold new_container. constructor.
      * cbn. apply H67; [done|]. apply H56, H35; [done|exact Hnc3].
      * split; [apply lookup_insert_eq|]. apply Forall_singleton. cbn [fst snd].
        apply H67; [done|]. apply lookup_insert_eq.
      * cbn. apply H67; [done|]. apply H56, H35; [done|exact Hnk3].
      * done.
    + cbn [new_container root]. apply H67; [done|]. by apply H56.
    + intros x Hx Hne. destruct (Hold _ Hx) as [v Hv]. rewrite Hv. by apply Hold7.
Qed.

(** X20. Option 2 of [add_object_in_catalog]: after the choice "2" the
    name of the new container is read, then lines until one names a
    container, then the name and the category of the new object.  When
    the container named has a [containers] key, a new container with that
    name, holding just the new object, is appended at the end of its
    containers; the four new references were unused, the catalog is well
    formed again, and afterwards [get_container_by_name] finds the new
    container and [get_object] the new object when their names were not
    in the catalog before, while [get_object] answers for every other
    name as before. *)
Theorem add_object_in_catalog_new_container
    s t fuel skipped cn pre pname oname ocat rest p kl ks :
  wf s t → height t < fuel →
  Forall (λ l, l ≠ "1" ∧ l ≠ "2") skipped →
  Forall (λ l, first_container l t = None) pre →
  first_container pname t = Some p →
  t_kids_field p = Some (kl, ks) →
  ∃ s' nc no nk o,
    add_object_in_catalog fuel (root t)
      (skipped ++ "2" :: cn :: pre ++ pname :: oname :: ocat :: rest) s = Ret rest s' ∧
    Forall (λ l, s !! l = None) [nc; no; nk; o] ∧
    wf s' (t_append_kid kl (new_container nc no nk o cn oname ocat) t) ∧
    (∀ s1, get_container_by_name fuel (root t) cn s = Ret None s1 →
       ∃ s2, get_container_by_name (S fuel) (root t) cn s' = Ret (Some nc) s2) ∧
    (∀ s1, get_object fuel (root t) oname s = Ret None s1 →
       ∃ s2, get_object (S fuel) (root t) oname s' = Ret (Some o) s2) ∧
    (∀ m, m ≠ oname →
       ∃ r s1 s2, get_object fuel (root t) m s = Ret r s1 ∧
                  get_object (S fuel) (root t) m s' = Ret r s2).
Proof.
  intros Hwf Hfuel Hskip Hpre Hp Hkids.
  destruct (add_container_run fuel t s skipped cn pre pname oname ocat rest p kl ks)
    as (s' & nc & no & nk & o & Hrun & Hfresh & Hwf'); try done.
  exists s', nc, no, nk, o. split; [done|]. split; [done|]. split; [done|].
  set (new := new_container nc no nk o cn oname ocat) in *.
  set (t' := t_append_kid kl new t) in *.
  pose proof (find_some _ _ Hp) as [Hin _].
  assert (Hfuel' : height t' < S fuel).
  { pose proof (height_t_append_kid kl new t). unfold t'.
    change (height new) with 1 in *. lia. }
  assert (Hroot : root t' = root t) by apply root_t_append_kid.
  assert (Hx : ∀ m, named m (o, {["name" := oname; "category" := ocat]})
                    = bool_decide (m = oname)).
  { intros m. unfold named. cbn [snd]. rewrite lookup_insert_eq.
    apply bool_decide_ext. split; congruence. }
  split; [|split].
  - intros s1 Hnone.
    destruct (get_container_by_name_spec fuel t s cn (proj2 Hwf) Hfuel) as (s1' & _ & H1).
    rewrite H1 in Hnone.
    assert (Hfind : first_container cn t = None).
    { by destruct (first_container cn t). }
    destruct (get_container_by_name_spec (S fuel) t' s' cn (proj2 Hwf') Hfuel')
      as (s2 & _ & H2).
    rewrite Hroot in H2. exists s2. rewrite H2.
    assert (E : first_container cn t' = Some new); [|by rewrite E].
    apply find_only.
    + eapply dfs_containers_t_append_kid_new; [exact Hin | exact Hkids |]. by left.
    + unfold cnamed. by apply bool_decide_eq_true_2.
    + intros y Hy Hcn. apply dfs_containers_t_append_kid_in in Hy as [Hy|(c & Hc & Hn)].
      * by destruct Hy as [<-|[]].
      * eapply find_none in Hfind; [|exact Hc]. unfold cnamed in *.
        rewrite Hn in Hcn. congruence.
  - intros s1 Hnone.
    destruct (get_object_run fuel t s oname (proj2 Hwf) Hfuel) as (s1' & _ & H1).
    rewrite H1 in Hnone.
    assert (Hfind : find (named oname) (dfs_objects t) = None).
    { by destruct (find (named oname) (dfs_objects t)). }
    destruct (get_object_run (S fuel) t' s' oname (proj2 Hwf') Hfuel') as (s2 & _ & H2).
    rewrite Hroot in H2. exists s2. rewrite H2.
    assert (E : find (named oname) (dfs_objects t')
                = Some (o, {["name" := oname; "category" := ocat]})); [|by rewrite E].
    apply find_only.
    + eapply dfs_objects_t_append_kid_new; [exact Hin | exact Hkids |]. by left.
    + rewrite Hx. by apply bool_decide_eq_true_2.
    + intros y Hy Hn. apply dfs_objects_t_append_kid_in in Hy as [Hy|Hy].
      * by destruct Hy as [<-|[]].
      * eapply find_none in Hfind; [|exact Hy]. congruence.
  - intros m Hm.
    destruct (get_object_run fuel t s m (proj2 Hwf) Hfuel) as (s1 & _ & H1).
    destruct (get_object_run (S fuel) t' s' m (proj2 Hwf') Hfuel') as (s2 & _ & H2).
    rewrite Hroot in H2. unfold t' in H2.
    rewrite find_dfs_objects_t_append_kid_other in H2; [by eauto|].
    cbn. by rewrite Hx, bool_decide_eq_false_2.
Qed.

Lemma add_object_in_catalog_new_container_witness :
  ∃ p ks,
    wf hammer_store hammer_tree ∧ height hammer_tree < 4 ∧
    Forall (λ l, l ≠ "1" ∧ l ≠ "2") ["x"] ∧
    Forall (λ l, first_container l hammer_tree = None) ["cellar"] ∧
    first_container "garage" hammer_tree = Some p ∧
    t_kids_field p = Some (6%positive, ks) ∧
    ∃ s' s2 nc,
      add_object_in_catalog 4 1%positive
        ["x"; "2"; "drawer"; "cellar"; "garage"; "nail"; "tools"; "next"] hammer_store
      = Ret ["next"] s' ∧
      hammer_store !! nc = None ∧
      get_container_by_name 5 1%positive "drawer" s' = Ret (Some nc) s2.
Proof.
  assert (Hskip : Forall (λ l, l ≠ "1" ∧ l ≠ "2") ["x"]).
  { repeat constructor; discriminate. }
  assert (Hpre : Forall (λ l, first_container l hammer_tree = None) ["cellar"]).
  { repeat constructor. }
  eexists _, _. split; [exact hammer_wf|]. split; [exact hammer_height|].
  split; [exact Hskip|]. split; [exact Hpre|].
  split; [vm_compute; reflexivity|]. split; [reflexivity|].
  destruct (add_object_in_catalog_new_container hammer_store hammer_tree 4
              ["x"] "drawer" ["cellar"] "garage" "nail" "tools" ["next"] _ _ _
              hammer_wf hammer_height Hskip Hpre eq_refl eq_refl)
    as (s' & nc & no & nk & o & Hrun & Hfresh & _ & Hcont & _).
  destruct (Hcont _ eq_refl) as (s2 & Hget).
  exists s', s2, nc. split; [exact Hrun|]. split; [|exact Hget].
  apply Forall_cons in Hfresh as [Hnc _]. exact Hnc.
Defined.

(** ** Adding an object and deleting it again *)

Lemma map_first_t_delete_t_append n ol os x : ∀ ks c,
  NoDup (flat_map locs ks) →
  Forall (λ k, ∀ c, NoDup (locs k) → In c (dfs_containers k) →
               t_objs_field c = Some (ol, os) →
               find (named n) (dfs_objects k) = None → named n x = true →
               t_delete n (t_append ol x k) = k) ks →
  In c (flat_map dfs_containers ks) → t_objs_field c = Some (ol, os) →
  find (named n) (flat_map dfs_objects ks) = None → named n x = true →
  map_first (has_match n) (t_delete n) (map (t_append ol x) ks) = ks.
Proof.
  induction ks as [|k ks IHks]; intros c Hnd IH Hin Hc Hfind Hx; [done|].
  cbn [flat_map map map_first] in *. apply NoDup_app in Hnd as (Hnd1 & Hdisj & Hnd2).
  apply Forall_cons in IH as [IHk IH]. rewrite find_app' in Hfind.
  destruct (find (named n) (dfs_objects k)) eqn:Hfk; [done|].
  apply in_app_iff in Hin as [Hin|Hin].
  - rewrite has_match_objects.
    rewrite (find_dfs_objects_t_append_new (named n) ol os x k c) by done.
    rewrite (IHk c) by done. f_equal.
    pose proof (objs_loc_in_locs _ _ _ _ Hin Hc) as Hol.
    apply map_t_append_other. intros k' Hk' Hy. apply (Hdisj ol Hol).
    apply elem_of_flat_map. eauto.
  - assert (Hol : ol ∈ flat_map locs ks).
    { apply in_flat_map in Hin as (k0 & Hk0 & Hin). apply elem_of_flat_map.
      exists k0. split; [by apply list_elem_of_In|]. by eapply objs_loc_in_locs. }
    rewrite t_append_other; [|intros Hy; by apply (Hdisj ol Hy)].
    rewrite has_match_objects, Hfk. f_equal. by eapply IHks.
Qed.

(** Deleting the object that was appended under a name no other object
    has gives the tree back. *)
Lemma t_delete_t_append n ol os x t : ∀ c,
  NoDup (locs t) → In c (dfs_containers t) → t_objs_field c = Some (ol, os) →
  find (named n) (dfs_objects t) = None → named n x = true →
  t_delete n (t_append ol x t) = t.
Proof.
  induction t as [l nm objs kids IH] using ltree_ind'. intros c Hnd Hin Hc Hfind Hx.
  rewrite dfs_containers_eq in Hin. rewrite dfs_objects_eq, find_app' in Hfind.
  destruct (find (named n) (field_list objs)) eqn:Hfo; [done|].
  rewrite locs_eq in Hnd.
  apply NoDup_cons in Hnd as [Hl' Hnd]. apply NoDup_app in Hnd as (Hnd1 & Hdisj & Hnd2).
  rewrite t_append_eq, t_delete_eq.
  destruct Hin as [<-|Hin].
  - cbn in Hc. subst objs. cbn [append_at field_list field_loc app] in *.
    rewrite bool_decide_eq_true_2 by done. cbn [field_list].
    rewrite find_app', Hfo. cbn [find]. rewrite Hx. cbn [map_field].
    rewrite remove_first_app, Hfo. cbn [remove_first]. rewrite Hx, app_nil_r.
    f_equal. destruct kids as [[kl ks]|]; [|done]. cbn [map_field field_list field_loc] in *.
    do 2 f_equal. apply map_t_append_other. intros k Hk Hy.
    apply (Hdisj ol); [apply list_elem_of_here|].
    apply list_elem_of_further. apply elem_of_flat_map. eauto.
  - assert (Hol : ol ∈ flat_map locs (field_list kids)).
    { apply in_flat_map in Hin as (k & Hk' & Hin). apply elem_of_flat_map.
      exists k. split; [by apply list_elem_of_In|]. by eapply objs_loc_in_locs. }
    rewrite append_at_other; cycle 1.
    { intros Ho'. apply (Hdisj ol); [apply elem_of_app; by left|].
      apply elem_of_app. by right. }
    rewrite Hfo. f_equal.
    destruct kids as [[kl ks]|]; [|done]. cbn [map_field field_list field_loc] in *.
    do 2 f_equal. apply NoDup_cons in Hnd2 as [_ Hndk].
    by eapply (map_first_t_delete_t_append n ol os x ks c).
Qed.

(** X24. Adding an object, under a name that no object has, to a
    container that has an [objects] key, and deleting that name again
    gives the catalog back: [delete_object] answers [True] and the store
    holds the original tree. *)
Theorem add_object_then_delete_object
    s t fuel name cat pre cname rest c ol os :
  wf s t → height t < fuel →
  Forall (λ l, first_container l t = None) pre →
  first_container cname t = Some c →
  t_objs_field c = Some (ol, os) →
  find (named name) (dfs_objects t) = None →
  ∃ s' s'',
    add_object fuel (root t) (name :: cat :: pre ++ cname :: rest) s = Ret rest s' ∧
    delete_object fuel (root t) name s' = Ret true s'' ∧
    wf s'' t.
Proof.
  intros Hwf Hfuel Hpre Hc Hobjs Hfind.
  destruct (add_object_run fuel t s name cat pre cname rest c ol os)
    as (s' & Hrun & Hwf' & _); try done.
  set (x := (fresh_loc s, {["name" := name; "category" := cat]}) : object) in *.
  assert (Hx : named name x = true).
  { unfold named, x. cbn [snd]. rewrite lookup_insert_eq. by apply bool_decide_eq_true_2. }
  pose proof (find_some _ _ Hc) as [Hin _].
  destruct (delete_object_run fuel (t_append ol x t) s' name Hwf')
    as (s'' & Hdel & Hwf'' & _).
  { by rewrite height_t_append. }
  rewrite root_t_append in Hdel.
  rewrite has_match_objects in Hdel.
  rewrite (find_dfs_objects_t_append_new (named name) ol os x t c) in Hdel by done.
  rewrite (t_delete_t_append name ol os x t c) in Hwf'' by (done || apply Hwf).
  by exists s', s''.
Qed.

Lemma add_object_then_delete_object_witness :
  ∃ c os,
    wf two_bulbs_store two_bulbs_tree ∧ height two_bulbs_tree < 3 ∧
    Forall (λ l, first_container l two_bulbs_tree = None) [] ∧
    first_container "b" two_bulbs_tree = Some c ∧
    t_objs_field c = Some (9%positive, os) ∧
    find (named "torch") (dfs_objects two_bulbs_tree) = None ∧
    ∃ s' s'',
      add_object 3 1%positive ["torch"; "lighting"; "b"] two_bulbs_store = Ret [] s' ∧
      delete_object 3 1%positive "torch" s' = Ret true s'' ∧
      wf s'' two_bulbs_tree.
Proof.
  assert (Hpre : Forall (λ l, first_container l two_bulbs_tree = None) []).
  { constructor. }
  eexists _, _. split; [exact two_bulbs_wf|]. split; [exact two_bulbs_height|].
  split; [exact Hpre|]. split; [vm_compute; reflexivity|]. split; [reflexivity|].
  split; [reflexivity|].
  exact (add_object_then_delete_object two_bulbs_store two_bulbs_tree 3
           "torch" "lighting" [] "b" [] _ _ _
           two_bulbs_wf two_bulbs_height Hpre eq_refl eq_refl eq_refl).
Defined.

(** ** Renaming an object and renaming it back *)

Lemma set_obj_set_obj o d d1 x : set_obj o d (set_obj o d1 x) = set_obj o d x.
Proof.
  unfold set_obj. destruct (bool_decide (x.1 = o)) eqn:E; [|by rewrite E].
  cbn [fst]. by rewrite bool_decide_eq_true_2.
Qed.

Lemma t_update_t_update o d d1 t :
  t_update o d (t_update o d1 t) = t_update o d t.
Proof.
  induction t as [l nm objs kids IH] using ltree_ind'.
  rewrite !t_update_eq. f_equal.
  - destruct objs as [[ol os]|]; [|done]. cbn [map_field]. do 2 f_equal.
    rewrite map_map. apply map_ext. intros x. apply set_obj_set_obj.
  - destruct kids as [[kl ks]|]; [|done]. cbn [map_field field_list] in *. do 2 f_equal.
    rewrite map_map. induction ks as [|k ks IHks]; [done|].
    apply Forall_cons in IH as [IHk IH]. cbn [map]. by rewrite IHk, IHks.
Qed.

Lemma t_update_same o d t :
  (∀ x, In x (dfs_objects t) → set_obj o d x = x) → t_update o d t = t.
Proof.
  induction t as [l nm objs kids IH] using ltree_ind'.
  rewrite dfs_objects_eq, t_update_eq. intros H. f_equal.
  - destruct objs as [[ol os]|]; [|done]. cbn [map_field field_list] in *. do 2 f_equal.
    rewrite <- (map_id os) at 2. apply map_ext_in. intros x Hx. apply H.
    apply in_app_iff. by left.
  - destruct kids as [[kl ks]|]; [|done]. cbn [map_field field_list] in *. do 2 f_equal.
    assert (H' : ∀ x, In x (flat_map dfs_objects ks) → set_obj o d x = x).
    { intros x Hx. apply H. apply in_app_iff. by right. }
    clear H. induction ks as [|k ks IHks]; [done|].
    apply Forall_cons in IH as [IHk IH]. cbn [map flat_map] in *.
    rewrite IHk, IHks; [done|done| |].
    + intros x Hx. apply H'. apply in_app_iff. by right.
    + intros x Hx. apply H'. apply in_app_iff. by left.
Qed.

Lemma NoDup_fst_eq {A B} (L : list (A * B)) x y :
  NoDup L.*1 → In x L → In y L → x.1 = y.1 → x = y.
Proof.
  induction L as [|z L IH]; [done|]. cbn [fmap list_fmap].
  intros [Hz Hnd]%NoDup_cons [->|Hx] [->|Hy] E; [done| | |by apply IH].
  - destruct Hz. rewrite E. apply list_elem_of_fmap. exists y.
    by rewrite list_elem_of_In.
  - destruct Hz. rewrite <- E. apply list_elem_of_fmap. exists x.
    by rewrite list_elem_of_In.
Qed.

(** Writing to a dictionary the contents it has changes nothing. *)
Lemma t_update_id t o :
  NoDup (locs t) → In o (dfs_objects t) → t_update o.1 o.2 t = t.
Proof.
  intros Hnd Ho. apply t_update_same. intros x Hx. unfold set_obj.
  case_bool_decide as E; [|done].
  rewrite (NoDup_fst_eq (dfs_objects t) x o); [by destruct o | | done..].
  by apply NoDup_dfs_objects.
Qed.

(** X25. Renaming an object to a name that no object has and renaming it
    back gives the catalog back: both calls of [modify_object] answer
    [True] and the store holds the original tree again. *)
Theorem modify_object_rename_and_back s t fuel n nn e :
  wf s t → height t < fuel →
  first_match n t = Some e → n ≠ "" → nn ≠ "" →
  find (named nn) (dfs_objects t) = None →
  ∃ s' s'',
    modify_object fuel (root t) n nn "" s = Ret true s' ∧
    modify_object fuel (root t) nn n "" s' = Ret true s'' ∧
    wf s'' t.
Proof.
  intros Hwf Hfuel Hm Hn Hnn Hfresh. pose proof Hwf as [Hnd _].
  destruct (modify_object_run fuel t s n nn "" Hwf Hfuel) as (s' & Hmod & Hwf' & _).
  unfold has_match in Hmod. rewrite Hm in Hmod.
  destruct (modify_object_run fuel (t_modify n nn "" t) s' nn n "" Hwf')
    as (s'' & Hmod' & Hwf'' & _).
  { by rewrite height_t_modify. }
  rewrite root_t_modify in Hmod'.
  pose proof (first_match_In _ _ _ Hm) as [Hin Hname].
  set (f := λ x : object, (x.1, updated nn "" x.2)).
  assert (Hfind : find (named nn) (dfs_objects (t_modify n nn "" t)) = Some (f (e_obj e))).
  { rewrite dfs_objects_t_modify by done.
    rewrite (find_map_first_new_name n nn f); [| |done].
    - by rewrite <- first_match_objects, Hm.
    - intros x. unfold named, f. cbn [snd]. apply bool_decide_eq_true_2.
      by rewrite updated_name, (bool_decide_eq_false_2 (nn = "")). }
  rewrite <- first_match_objects in Hfind.
  destruct (first_match nn (t_modify n nn "" t)) as [e1|] eqn:Hm1; [|done].
  injection Hfind as He1.
  unfold has_match in Hmod'. rewrite Hm1 in Hmod'.
  exists s', s''. split; [done|]. split; [done|].
  assert (E : t_modify nn n "" (t_modify n nn "" t) = t); [|by rewrite E in Hwf''].
  unfold t_modify at 1. rewrite Hm1. unfold e_loc. rewrite He1. unfold f. cbn [fst snd].
  unfold t_modify. rewrite Hm. rewrite t_update_t_update.
  assert (Hd : updated n "" (updated nn "" (e_obj e).2) = (e_obj e).2).
  { unfold updated, set_if. rewrite !bool_decide_eq_true_2 by done.
    rewrite (bool_decide_eq_false_2 (nn = "")), (bool_decide_eq_false_2 (n = "")) by done.
    rewrite insert_insert_eq. by apply insert_id. }
  rewrite Hd. apply t_update_id; [done|]. unfold dfs_objects. by apply in_map.
Qed.

Lemma modify_object_rename_and_back_witness :
  ∃ e,
    wf two_bulbs_store two_bulbs_tree ∧ height two_bulbs_tree < 3 ∧
    first_match "lamp" two_bulbs_tree = Some e ∧ "lamp" ≠ "" ∧ "candle" ≠ "" ∧
    find (named "candle") (dfs_objects two_bulbs_tree) = None ∧
    ∃ s' s'',
      modify_object 3 1%positive "lamp" "candle" "" two_bulbs_store = Ret true s' ∧
      modify_object 3 1%positive "candle" "lamp" "" s' = Ret true s'' ∧
      wf s'' two_bulbs_tree.
Proof.
  assert (Hn : "lamp" ≠ "") by discriminate.
  assert (Hnn : "candle" ≠ "") by discriminate.
  eexists. split; [exact two_bulbs_wf|]. split; [exact two_bulbs_height|].
  split; [vm_compute; reflexivity|]. split; [exact Hn|]. split; [exact Hnn|].
  split; [reflexivity|].
  exact (modify_object_rename_and_back two_bulbs_store two_bulbs_tree 3 "lamp" "candle" _
           two_bulbs_wf two_bulbs_height eq_refl Hn Hnn eq_refl).
Defined.

(** ** src/catalog_interface.py: the commands that print *)

Module ShellProofs.
Import Shell.

Lemma io_bind_Done {A B} (m : IO A) (k : A → IO B) w a w' :
  m w = Done a w' → io_bind m k w = k a w'.
Proof. unfold io_bind. by intros ->. Qed.

Lemma lift_Ret {A} (m : M A) s inp tr disk a s' :
  m s = Ret a s' → lift m (World s inp tr disk) = Done a (World s' inp tr disk).
Proof. unfold lift. cbn. by intros ->. Qed.

Lemma io_bind_Done_Failed {A B} (m : IO A) (k : A → IO B) w e w' :
  m w = Failed e w' → io_bind m k w = Failed e w'.
Proof. unfold io_bind. by intros ->. Qed.

Lemma lift_Raise {A} (m : M A) s inp tr disk e s' :
  m s = Raise e s' →
  lift m (World s inp tr disk) = Failed (CatalogError e) (World s' inp tr disk).
Proof. unfold lift. cbn. by intros ->. Qed.

(** The command-level [save_json_file] stops exactly when the function of
    [Storage] raises, and reports the diagnostic that function prints. *)
Lemma save_json_file_as_storage data file_name document w :
  match Storage.save_json_file document file_name (w_disk w) with
  | (Storage.Completed _, []) =>
      save_json_file data file_name w
      = Done tt (emit (Saved file_name data (w_store w)) w)
  | (Storage.Completed _, d :: _) =>
      save_json_file data file_name w = Done tt (emit (Reported d) w)
  | (Storage.Raised e, _) =>
      save_json_file data file_name w = Failed (StorageError e) w
  end.
Proof.
  unfold save_json_file, Storage.save_json_file.
  destruct (w_disk w) as [[]|e]; [done|]. by destruct (_ || _).
Qed.

Lemma flat_map_ext_In {A B} (f g : A → list B) (l : list A) :
  (∀ x, In x l → f x = g x) → flat_map f l = flat_map g l.
Proof.
  induction l as [|x l IH]; [done|]. intros H. cbn [flat_map].
  rewrite (H x), IH; [done| |].
  - intros y Hy. apply H. by right.
  - by left.
Qed.

Lemma flat_map_map {A B C} (f : B → list C) (g : A → B) (l : list A) :
  flat_map f (map g l) = flat_map (λ x, f (g x)) l.
Proof. induction l as [|x l IH]; [done|]. cbn [map flat_map]. by rewrite IH. Qed.

Lemma flat_map_flat_map {A B C} (f : B → list C) (g : A → list B) (l : list A) :
  flat_map f (flat_map g l) = flat_map (λ x, flat_map f (g x)) l.
Proof.
  induction l as [|x l IH]; [done|]. cbn [flat_map]. by rewrite flat_map_app, IH.
Qed.

(** The chain of an entry of [dfs t] ends at [t]. *)
Lemma descent_root t e : In e (dfs t) → ∃ below, descent e = t :: below.
Proof.
  destruct t as [l nm objs kids]. rewrite dfs_eq, in_app_iff, in_map_iff, in_flat_map.
  intros [(o & <- & _)|(k & _ & Hin)].
  - by exists [].
  - apply in_map_iff in Hin as (e' & <- & _). unfold descent, e_chain.
    cbn [lift_entry e_parent e_above]. rewrite app_comm_cons, reverse_snoc. eauto.
Qed.

Lemma cards_eq p l nm objs kids :
  cards p (LNode l nm objs kids) =
  flat_map (λ o, card o p) (field_list objs)
  ++ flat_map (λ k, cards (p ++ [shown_name "" k]) k) (field_list kids).
Proof.
  unfold cards. rewrite dfs_eq, flat_map_app, flat_map_map, flat_map_flat_map. f_equal.
  - apply flat_map_ext_In. intros o _. unfold descent, e_chain. cbn. by rewrite app_nil_r.
  - apply flat_map_ext_In. intros k _. rewrite flat_map_map.
    apply flat_map_ext_In. intros e He.
    destruct (descent_root _ _ He) as (below & Hd).
    unfold descent, e_chain in *. cbn [lift_entry e_parent e_above].
    rewrite app_comm_cons, reverse_snoc, Hd. cbn [tail map].
    by rewrite <- app_assoc.
Qed.

Lemma cards_shown_path t :
  cards [shown_name "house" t] t = flat_map (λ e, card (e_obj e) (shown_path e)) (dfs t).
Proof.
  unfold cards. apply flat_map_ext_In. intros e He.
  destruct (descent_root _ _ He) as (below & Hd). unfold shown_path. by rewrite Hd.
Qed.

Lemma explore_objects path : ∀ os s inp tr disk,
  Forall (λ o : object, s !! o.1 = Some (ObjDict o.2)) os →
  for_all (λ object,
      nm <~ lift (obj_get object "name") ;;
      print ("Name: " ++ default "" nm) ;;;
      cat <~ lift (obj_get object "category") ;;
      print ("Category: " ++ default "" cat) ;;;
      print ("Location: " ++ join_path path) ;;;
      print rule) os.*1 (World s inp tr disk)
  = Done tt (World s inp (tr ++ flat_map (λ o, card o path) os) disk).
Proof.
  induction os as [|o os IH]; intros s inp tr disk Hos.
  - cbn. by rewrite app_nil_r.
  - apply Forall_cons in Hos as [Ho Hos]. cbn [fmap list_fmap for_all flat_map].
    erewrite io_bind_Done; cycle 1.
    { erewrite io_bind_Done by (by eapply lift_Ret, obj_get_eq).
      unfold print at 1. cbn [io_bind emit w_store w_stdin w_trace w_disk].
      erewrite io_bind_Done by (by eapply lift_Ret, obj_get_eq).
      cbv [print io_bind emit w_store w_stdin w_trace w_disk]. reflexivity. }
    rewrite IH by done. unfold card.
    by rewrite <- !app_assoc.
Qed.

Lemma explore_catalog_from fuel : ∀ t p s inp tr disk,
  holds s t → height t < fuel →
  ∃ s', ext s s' ∧
    explore_catalog fuel (root t) (Some p) (World s inp tr disk)
    = Done tt (World s' inp (tr ++ cards p t) disk).
Proof.
  induction fuel as [|fuel IH]; intros [l nm objs kids] p s inp tr disk Hh Hfuel; [lia|].
  pose proof Hh as Hh'. inversion Hh' as [? ? ? ? Hl Ho Hk Hks]; subst.
  cbn [explore_catalog root]. rewrite cards_eq.
  erewrite io_bind_Done by reflexivity.
  erewrite io_bind_Done by (by eapply lift_Ret, dict_get_list_eq).
  erewrite io_bind_Done by (by eapply lift_Ret, read_objs).
  erewrite io_bind_Done; cycle 1.
  { apply (explore_objects p).
    destruct objs as [[ol os]|]; [|done]. destruct Ho as [_ Ho].
    eapply Forall_impl; [exact Ho|]. intros o. apply (proj1 (ext_tick s)). }
  pose proof (ext_tick s) as Hext.
  apply (holds_kids_ext _ _ _ Hext) in Hks. apply (holds_ext _ _ _ Hext) in Hh.
  apply height_kids_lt in Hfuel.
  revert Hext Hks Hh. generalize (tick s) as s2. intros s2 Hext Hks Hh.
  erewrite io_bind_Done
    by (eapply lift_Ret, dict_get_list_eq; exact (holds_cell _ _ Hh)).
  erewrite io_bind_Done by (eapply lift_Ret, read_kids; exact Hh).
  pose proof (ext_tick s2) as Hext2.
  apply (holds_kids_ext _ _ _ Hext2) in Hks.
  assert (Hext3 : ext s (tick s2)) by by eapply ext_trans.
  revert Hext3 Hks. generalize (tick s2) as s3.
  rewrite (app_assoc tr). cbn [t_kids_field].
  generalize (tr ++ flat_map (λ o, card o p)
                      (field_list objs)) as tr'.
  clear -IH Hfuel.
  induction (field_list kids) as [|k ks IHks]; intros tr' s3 Hext Hks.
  { exists s3. cbn. by rewrite app_nil_r. }
  apply Forall_cons in Hks as [Hk Hks]. apply Forall_cons in Hfuel as [Hfk Hfuel].
  cbn [fmap list_fmap for_all flat_map].
  destruct (IH k (p ++ [shown_name "" k]) s3 inp tr' disk Hk Hfk) as (s4 & He4 & Hrun).
  erewrite io_bind_Done; cycle 1.
  { erewrite io_bind_Done by (eapply lift_Ret, cont_get_name_eq, holds_cell, Hk).
    cbn [cd_name]. exact Hrun. }
  destruct (IHks Hfuel (tr' ++ cards (p ++ [shown_name "" k]) k) s4)
    as (s5 & He5 & Hrun5); [by eapply ext_trans | by eapply holds_kids_ext |].
  exists s5. split; [done|]. rewrite Hrun5. by rewrite <- !app_assoc.
Qed.

Lemma explore_catalog_None fuel data c w :
  w_store w !! data = Some (ContDict c) →
  explore_catalog fuel data None w
  = explore_catalog fuel data (Some [default "house" (cd_name c)]) w.
Proof.
  intros Hc. destruct fuel as [|fuel]; [done|]. destruct w as [s inp tr disk].
  cbn [explore_catalog]. erewrite io_bind_Done; cycle 1.
  { erewrite io_bind_Done by (by eapply lift_Ret, cont_get_name_eq). reflexivity. }
  by erewrite (io_bind_Done (io_ret _)) by reflexivity.
Qed.

Lemma names_shown chain names d :
  chain_names chain = Some names → map (shown_name d) chain = names.
Proof.
  revert names. induction chain as [|c chain IH]; intros names; simpl.
  - by intros [= <-].
  - unfold shown_name at 1. destruct (t_name c) as [x|]; [|done].
    destruct (chain_names chain) as [ns|]; [|done]. intros [= <-].
    by rewrite (IH ns).
Qed.

Lemma shown_name_any chain names d c :
  chain_names chain = Some names → In c chain → shown_name d c = shown_name "" c.
Proof.
  revert names. induction chain as [|c' chain IH]; intros names; simpl; [done|].
  destruct (t_name c') as [x|] eqn:Hc'; [|done].
  destruct (chain_names chain) as [ns|]; [|done]. intros _ [->|Hin].
  - unfold shown_name. by rewrite Hc'.
  - by eapply IH.
Qed.

(** With a name on every container of the chain, the path that
    [explore_catalog] shows is the chain of names from the root down. *)
Lemma shown_path_names e names :
  chain_names (e_chain e) = Some names → shown_path e = reverse names.
Proof.
  intros Hn. unfold shown_path, descent.
  rewrite <- (names_shown _ _ "" Hn), <- fmap_reverse.
  destruct (reverse (e_chain e)) as [|r below] eqn:E; [done|].
  cbn [fmap list_fmap]. f_equal.
  eapply shown_name_any; [exact Hn|].
  apply list_elem_of_In, elem_of_reverse. rewrite E. apply list_elem_of_here.
Qed.

Lemma input_line prompt line s inp tr disk :
  input prompt (World s (line :: inp) tr disk)
  = Done line (World s inp (tr ++ [Prompted prompt]) disk).
Proof. done. Qed.

Lemma search_object_in_catalog_run fuel t s n inp tr disk :
  holds s t → height t < fuel →
  ∃ s', ext s s' ∧
    search_object_in_catalog fuel (root t) (World s (n :: inp) tr disk)
    = let tr' := tr ++ [Prompted "Enter the name of the object to search: "] in
      match first_match n t with
      | None =>
          Done tt (World s' inp (tr' ++ [Printed "Object not found in the catalog!"]) disk)
      | Some e =>
          match info_outcome e s' with
          | Ret info _ =>
              Done tt (World s' inp
                (tr' ++ [Printed ("Name: " ++ default "" (info !! 0));
                         Printed ("Category: " ++ default "" (info !! 1));
                         Printed ("Location: " ++ join_path (reverse (drop 2 info)))])
                disk)
          | Raise x _ => Failed (CatalogError x) (World s' inp tr' disk)
          end
      end.
Proof.
  intros Hh Hfuel.
  destruct (get_object_info_spec fuel t s n Hh Hfuel) as (s1 & He & Hrun).
  exists s1. split; [done|]. unfold search_object_in_catalog.
  erewrite io_bind_Done by apply input_line. cbv zeta.
  destruct (first_match n t) as [e|].
  - unfold info_outcome in *.
    destruct ((e_obj e).2 !! "name") as [nm|];
      [|by erewrite io_bind_Done_Failed by (by eapply lift_Raise)].
    destruct ((e_obj e).2 !! "category") as [c|];
      [|by erewrite io_bind_Done_Failed by (by eapply lift_Raise)].
    destruct (chain_names (e_chain e)) as [names|];
      [|by erewrite io_bind_Done_Failed by (by eapply lift_Raise)].
    erewrite io_bind_Done by (by eapply lift_Ret).
    cbv [io_bind subscript io_ret print emit w_store w_stdin w_trace w_disk
         lookup list_lookup default id].
    by rewrite <- !app_assoc.
  - by erewrite io_bind_Done by (by eapply lift_Ret).
Qed.

(** X13. [explore_catalog] called without a path prints, for every object
    of the catalog in the order of the traversal, its name, its category
    (the empty string for a missing key), the names of the containers from
    the root down to the one that holds it, joined by [" > "] ("house" for
    a root without a name, the empty string for another container without
    one), and a line of fifty dashes.  It reads no input and the store
    only gains temporary lists. *)
Theorem explore_catalog_lists_every_object s t fuel inp tr disk :
  holds s t → height t < fuel →
  ∃ s', ext s s' ∧
    explore_catalog fuel (root t) None (World s inp tr disk)
    = Done tt (World s' inp (tr ++ flat_map (λ e, card (e_obj e) (shown_path e)) (dfs t)) disk).
Proof.
  intros Hh Hfuel.
  rewrite (explore_catalog_None fuel (root t) _ (World s inp tr disk) (holds_cell _ _ Hh)).
  cbn [cd_name].
  destruct (explore_catalog_from fuel t [shown_name "house" t] s inp tr disk Hh Hfuel)
    as (s' & He & Hrun).
  exists s'. split; [done|]. by rewrite <- cards_shown_path.
Qed.

Lemma explore_catalog_lists_every_object_witness :
  holds two_bulbs_store two_bulbs_tree ∧ height two_bulbs_tree < 3 ∧
  ∃ s',
    explore_catalog 3 1%positive None
      (World two_bulbs_store [] [] (Storage.Completed tt))
    = Done tt (World s' []
        [Printed "Name: bulb"; Printed "Category: lighting";
         Printed "Location: house > a"; Printed rule;
         Printed "Name: lamp"; Printed "Category: lighting";
         Printed "Location: house > a"; Printed rule;
         Printed "Name: bulb"; Printed "Category: spare";
         Printed "Location: house > b"; Printed rule]
        (Storage.Completed tt)).
Proof.
  split; [exact (proj2 two_bulbs_wf)|]. split; [exact two_bulbs_height|].
  destruct (explore_catalog_lists_every_object two_bulbs_store two_bulbs_tree 3
              [] [] (Storage.Completed tt) (proj2 two_bulbs_wf) two_bulbs_height)
    as (s' & _ & Hrun).
  exists s'. exact Hrun.
Defined.

(** X14. [search_object_in_catalog] reads one line and, when an object of
    that name is in the catalog and its first match has a category and a
    name on every container above it, prints for it the three lines that
    [explore_catalog] prints for that entry: name, category and the path
    from the root. *)
Theorem search_object_in_catalog_shows_first_match
    s t fuel n e c names inp tr disk :
  holds s t → height t < fuel →
  first_match n t = Some e →
  (e_obj e).2 !! "category" = Some c →
  chain_names (e_chain e) = Some names →
  ∃ s', ext s s' ∧
    search_object_in_catalog fuel (root t) (World s (n :: inp) tr disk)
    = Done tt (World s' inp
        (tr ++ Prompted "Enter the name of the object to search: "
            :: take 3 (card (e_obj e) (shown_path e))) disk).
Proof.
  intros Hh Hfuel Hm Hc Hn.
  destruct (search_object_in_catalog_run fuel t s n inp tr disk Hh Hfuel)
    as (s' & He & Hrun).
  exists s'. split; [done|]. rewrite Hrun, Hm. cbv zeta. unfold info_outcome.
  pose proof (first_match_In _ _ _ Hm) as [_ Hname].
  rewrite Hname, Hc, Hn. unfold card. rewrite Hname, Hc, (shown_path_names _ _ Hn).
  cbv [lookup list_lookup default id take]. cbn [drop]. by rewrite <- app_assoc.
Qed.

Lemma search_object_in_catalog_shows_first_match_witness :
  ∃ e,
    holds hammer_store hammer_tree ∧ height hammer_tree < 4 ∧
    first_match "hammer" hammer_tree = Some e ∧
    (e_obj e).2 !! "category" = Some "tools" ∧
    chain_names (e_chain e) = Some ["shelf"; "garage"; "house"] ∧
    ∃ s',
      search_object_in_catalog 4 1%positive
        (World hammer_store ["hammer"] [] (Storage.Completed tt))
      = Done tt (World s' []
          [Prompted "Enter the name of the object to search: ";
           Printed "Name: hammer"; Printed "Category: tools";
           Printed "Location: house > garage > shelf"]
          (Storage.Completed tt)).
Proof.
  eexists. split; [exact hammer_holds|]. split; [exact hammer_height|].
  split; [vm_compute; reflexivity|]. split; [reflexivity|]. split; [reflexivity|].
  destruct (search_object_in_catalog_shows_first_match hammer_store hammer_tree 4
              "hammer" _ "tools" ["shelf"; "garage"; "house"] [] []
              (Storage.Completed tt) hammer_holds hammer_height eq_refl eq_refl eq_refl)
    as (s' & _ & Hrun).
  exists s'. exact Hrun.
Defined.

(** X15. When no object of the catalog has the name read,
    [search_object_in_catalog] prints "Object not found in the catalog!";
    at the end of the input it raises [EOFError] after the prompt.  The
    store gains at most temporary lists. *)
Theorem search_object_in_catalog_not_found s t fuel inp tr disk :
  holds s t → height t < fuel →
  (∀ n, first_match n t = None →
     ∃ s', ext s s' ∧
       search_object_in_catalog fuel (root t) (World s (n :: inp) tr disk)
       = Done tt (World s' inp
           (tr ++ [Prompted "Enter the name of the object to search: ";
                   Printed "Object not found in the catalog!"]) disk)) ∧
  search_object_in_catalog fuel (root t) (World s [] tr disk)
  = Failed (CatalogError EOFError)
      (World s [] (tr ++ [Prompted "Enter the name of the object to search: "]) disk).
Proof.
  intros Hh Hfuel. split; [|done]. intros n Hm.
  destruct (search_object_in_catalog_run fuel t s n inp tr disk Hh Hfuel)
    as (s' & He & Hrun).
  exists s'. split; [done|]. rewrite Hrun, Hm. cbv zeta. by rewrite <- app_assoc.
Qed.

Lemma search_object_in_catalog_not_found_witness :
  holds hammer_store hammer_tree ∧ height hammer_tree < 4 ∧
  first_match "saw" hammer_tree = None ∧
  ∃ s',
    search_object_in_catalog 4 1%positive
      (World hammer_store ["saw"] [] (Storage.Completed tt))
    = Done tt (World s' []
        [Prompted "Enter the name of the object to search: ";
         Printed "Object not found in the catalog!"]
        (Storage.Completed tt)).
Proof.
  split; [exact hammer_holds|]. split; [exact hammer_height|]. split; [reflexivity|].
  destruct (search_object_in_catalog_not_found hammer_store hammer_tree 4 [] []
              (Storage.Completed tt) hammer_holds hammer_height) as [Hnone _].
  destruct (Hnone "saw" eq_refl) as (s' & _ & Hrun).
  exists s'. exact Hrun.
Defined.

Lemma delete_object_from_catalog_run fuel t s n file_name inp tr disk :
  wf s t → height t < fuel →
  ∃ s', wf s' (t_delete n t) ∧ (has_match n t = false → ext s s') ∧
    delete_object_from_catalog fuel (root t) file_name (World s (n :: inp) tr disk)
    = (if has_match n t then
         save_json_file (root t) file_name ;;;
         print "Object successfully deleted from the catalog!"
       else print "Object not found in the catalog!")
        (World s' inp (tr ++ [Prompted "Enter the name of the object to delete: "]) disk).
Proof.
  intros Hwf Hfuel.
  destruct (delete_object_run fuel t s n Hwf Hfuel) as (s' & Hrun & Hwf' & He).
  exists s'. split; [done|]. split; [done|]. unfold delete_object_from_catalog.
  erewrite io_bind_Done by apply input_line.
  by erewrite io_bind_Done by (by eapply lift_Ret).
Qed.

Lemma modify_object_in_catalog_run fuel t s n nn nc file_name inp tr disk :
  wf s t → height t < fuel →
  ∃ s', wf s' (t_modify n nn nc t) ∧ (has_match n t = false → ext s s') ∧
    modify_object_in_catalog fuel (root t) file_name
      (World s (n :: nn :: nc :: inp) tr disk)
    = (if has_match n t then
         save_json_file (root t) file_name ;;;
         print "Object successfully modified in the catalog!"
       else print "Object not found in the catalog!")
        (World s' inp
           (tr ++ [Prompted "Enter the name of the object to modify: ";
                   Prompted "Enter the new name of the object (blank line to keep it unchanged): ";
                   Prompted "Enter the new category of the object (blank line to keep it unchanged): "])
           disk).
Proof.
  intros Hwf Hfuel.
  destruct (modify_object_run fuel t s n nn nc Hwf Hfuel) as (s' & Hrun & Hwf' & He).
  exists s'. split; [done|]. split; [done|]. unfold modify_object_in_catalog.
  do 3 erewrite io_bind_Done by apply input_line.
  erewrite io_bind_Done by (by eapply lift_Ret).
  by rewrite <- !app_assoc.
Qed.

(** X16. [delete_object_from_catalog] reads one line; when an object of
    that name is in the catalog and the file can be written, the first
    match is removed, the catalog is saved as it is after the removal, and
    then the success line is printed. *)
Theorem delete_object_from_catalog_saves_result s t fuel n file_name inp tr :
  wf s t → height t < fuel → has_match n t = true →
  ∃ s', wf s' (t_delete n t) ∧
    dfs_objects (t_delete n t) = remove_first (named n) (dfs_objects t) ∧
    delete_object_from_catalog fuel (root t) file_name
      (World s (n :: inp) tr (Storage.Completed tt))
    = Done tt (World s' inp
        (tr ++ [Prompted "Enter the name of the object to delete: ";
                Saved file_name (root t) s';
                Printed "Object successfully deleted from the catalog!"])
        (Storage.Completed tt)).
Proof.
  intros Hwf Hfuel Hm.
  destruct (delete_object_from_catalog_run fuel t s n file_name inp tr
              (Storage.Completed tt) Hwf Hfuel) as (s' & Hwf' & _ & Hrun).
  exists s'. split; [done|]. split; [apply dfs_objects_t_delete|].
  rewrite Hrun, Hm. cbv [io_bind save_json_file print emit w_store w_stdin w_trace w_disk].
  by rewrite <- !app_assoc.
Qed.

Lemma delete_object_from_catalog_saves_result_witness :
  wf two_bulbs_store two_bulbs_tree ∧ height two_bulbs_tree < 3 ∧
  has_match "bulb" two_bulbs_tree = true ∧
  ∃ s',
    delete_object_from_catalog 3 1%positive "data/house_catalog.json"
      (World two_bulbs_store ["bulb"] [] (Storage.Completed tt))
    = Done tt (World s' []
        [Prompted "Enter the name of the object to delete: ";
         Saved "data/house_catalog.json" 1%positive s';
         Printed "Object successfully deleted from the catalog!"]
        (Storage.Completed tt)).
Proof.
  split; [exact two_bulbs_wf|]. split; [exact two_bulbs_height|]. split; [reflexivity|].
  destruct (delete_object_from_catalog_saves_result two_bulbs_store two_bulbs_tree 3
              "bulb" "data/house_catalog.json" [] [] two_bulbs_wf two_bulbs_height eq_refl)
    as (s' & _ & _ & Hrun).
  exists s'. exact Hrun.
Defined.

(** X17. [modify_object_in_catalog] reads the name, the new name and the
    new category; when an object of that name is in the catalog and the
    file can be written, the first match is updated, the catalog is saved
    as it is after the update, and then the success line is printed. *)
Theorem modify_object_in_catalog_saves_result s t fuel n nn nc file_name inp tr :
  wf s t → height t < fuel → has_match n t = true →
  ∃ s', wf s' (t_modify n nn nc t) ∧
    modify_object_in_catalog fuel (root t) file_name
      (World s (n :: nn :: nc :: inp) tr (Storage.Completed tt))
    = Done tt (World s' inp
        (tr ++ [Prompted "Enter the name of the object to modify: ";
                Prompted "Enter the new name of the object (blank line to keep it unchanged): ";
                Prompted "Enter the new category of the object (blank line to keep it unchanged): ";
                Saved file_name (root t) s';
                Printed "Object successfully modified in the catalog!"])
        (Storage.Completed tt)).
Proof.
  intros Hwf Hfuel Hm.
  destruct (modify_object_in_catalog_run fuel t s n nn nc file_name inp tr
              (Storage.Completed tt) Hwf Hfuel) as (s' & Hwf' & _ & Hrun).
  exists s'. split; [done|].
  rewrite Hrun, Hm. cbv [io_bind save_json_file print emit w_store w_stdin w_trace w_disk].
  by rewrite <- !app_assoc.
Qed.

Lemma modify_object_in_catalog_saves_result_witness :
  wf two_bulbs_store two_bulbs_tree ∧ height two_bulbs_tree < 3 ∧
  has_match "lamp" two_bulbs_tree = true ∧
  ∃ s',
    modify_object_in_catalog 3 1%positive "data/house_catalog.json"
      (World two_bulbs_store ["lamp"; ""; "decor"] [] (Storage.Completed tt))
    = Done tt (World s' []
        [Prompted "Enter the name of the object to modify: ";
         Prompted "Enter the new name of the object (blank line to keep it unchanged): ";
         Prompted "Enter the new category of the object (blank line to keep it unchanged): ";
         Saved "data/house_catalog.json" 1%positive s';
         Printed "Object successfully modified in the catalog!"]
        (Storage.Completed tt)).
Proof.
  split; [exact two_bulbs_wf|]. split; [exact two_bulbs_height|]. split; [reflexivity|].
  destruct (modify_object_in_catalog_saves_result two_bulbs_store two_bulbs_tree 3
              "lamp" "" "decor" "data/house_catalog.json" [] []
              two_bulbs_wf two_bulbs_height eq_refl) as (s' & _ & Hrun).
  exists s'. exact Hrun.
Defined.

(** X18. When no object of the catalog has the name read,
    [delete_object_from_catalog] and [modify_object_in_catalog] print
    "Object not found in the catalog!" and do not save: the trace gains
    the prompts and that line only, whatever the disk would do, and the
    store still holds the same tree. *)
Theorem not_found_is_not_saved s t fuel n nn nc file_name inp tr disk :
  wf s t → height t < fuel → has_match n t = false →
  (∃ s', ext s s' ∧ wf s' t ∧
     delete_object_from_catalog fuel (root t) file_name (World s (n :: inp) tr disk)
     = Done tt (World s' inp
         (tr ++ [Prompted "Enter the name of the object to delete: ";
                 Printed "Object not found in the catalog!"]) disk)) ∧
  (∃ s', ext s s' ∧ wf s' t ∧
     modify_object_in_catalog fuel (root t) file_name
       (World s (n :: nn :: nc :: inp) tr disk)
     = Done tt (World s' inp
         (tr ++ [Prompted "Enter the name of the object to modify: ";
                 Prompted "Enter the new name of the object (blank line to keep it unchanged): ";
                 Prompted "Enter the new category of the object (blank line to keep it unchanged): ";
                 Printed "Object not found in the catalog!"]) disk)).
Proof.
  intros Hwf Hfuel Hm. split.
  - destruct (delete_object_from_catalog_run fuel t s n file_name inp tr disk Hwf Hfuel)
      as (s' & _ & He & Hrun).
    exists s'. split; [by apply He|]. split; [eapply wf_ext; [by apply He | done]|].
    rewrite Hrun, Hm. cbv [print emit w_store w_stdin w_trace w_disk].
    by rewrite <- !app_assoc.
  - destruct (modify_object_in_catalog_run fuel t s n nn nc file_name inp tr disk
                Hwf Hfuel) as (s' & _ & He & Hrun).
    exists s'. split; [by apply He|]. split; [eapply wf_ext; [by apply He | done]|].
    rewrite Hrun, Hm. cbv [print emit w_store w_stdin w_trace w_disk].
    by rewrite <- !app_assoc.
Qed.

Lemma not_found_is_not_saved_witness :
  wf two_bulbs_store two_bulbs_tree ∧ height two_bulbs_tree < 3 ∧
  has_match "hammer" two_bulbs_tree = false ∧
  ∃ s',
    delete_object_from_catalog 3 1%positive "data/house_catalog.json"
      (World two_bulbs_store ["hammer"] [] (Storage.Completed tt))
    = Done tt (World s' []
        [Prompted "Enter the name of the object to delete: ";
         Printed "Object not found in the catalog!"]
        (Storage.Completed tt)).
Proof.
  split; [exact two_bulbs_wf|]. split; [exact two_bulbs_height|]. split; [reflexivity|].
  destruct (not_found_is_not_saved two_bulbs_store two_bulbs_tree 3
              "hammer" "" "" "data/house_catalog.json" [] [] (Storage.Completed tt)
              two_bulbs_wf two_bulbs_height eq_refl) as [(s' & _ & _ & Hrun) _].
  exists s'. exact Hrun.
Defined.

(** X19. When the object is found but writing the file raises,
    [delete_object_from_catalog] has already removed the object from the
    catalog in memory.  For [OSError] (or a subclass) and [TypeError] the
    diagnostic of [save_json_file] is printed, nothing is saved, and the
    success line is printed all the same; any other exception leaves the
    command with nothing printed after the prompt. *)
Theorem delete_object_from_catalog_save_fails s t fuel n file_name inp tr e :
  wf s t → height t < fuel → has_match n t = true →
  ∃ s', wf s' (t_delete n t) ∧
    delete_object_from_catalog fuel (root t) file_name
      (World s (n :: inp) tr (Storage.Raised e))
    = if Storage.catches Storage.OSError e || Storage.catches Storage.TypeError e then
        Done tt (World s' inp
          (tr ++ [Prompted "Enter the name of the object to delete: ";
                  Reported (Storage.SaveMessage e);
                  Printed "Object successfully deleted from the catalog!"])
          (Storage.Raised e))
      else
        Failed (StorageError e) (World s' inp
          (tr ++ [Prompted "Enter the name of the object to delete: "])
          (Storage.Raised e)).
Proof.
  intros Hwf Hfuel Hm.
  destruct (delete_object_from_catalog_run fuel t s n file_name inp tr
              (Storage.Raised e) Hwf Hfuel) as (s' & Hwf' & _ & Hrun).
  exists s'. split; [done|].
  rewrite Hrun, Hm. cbv [io_bind save_json_file print emit w_store w_stdin w_trace w_disk].
  destruct (_ || _); [|done]. by rewrite <- !app_assoc.
Qed.

Lemma delete_object_from_catalog_save_fails_witness :
  wf two_bulbs_store two_bulbs_tree ∧ height two_bulbs_tree < 3 ∧
  has_match "bulb" two_bulbs_tree = true ∧
  ∃ s',
    delete_object_from_catalog 3 1%positive "data/house_catalog.json"
      (World two_bulbs_store ["bulb"] [] (Storage.Raised Storage.PermissionError))
    = Done tt (World s' []
        [Prompted "Enter the name of the object to delete: ";
         Reported (Storage.SaveMessage Storage.PermissionError);
         Printed "Object successfully deleted from the catalog!"]
        (Storage.Raised Storage.PermissionError)).
Proof.
  split; [exact two_bulbs_wf|]. split; [exact two_bulbs_height|]. split; [reflexivity|].
  destruct (delete_object_from_catalog_save_fails two_bulbs_store two_bulbs_tree 3
              "bulb" "data/house_catalog.json" [] [] Storage.PermissionError
              two_bulbs_wf two_bulbs_height eq_refl) as (s' & _ & Hrun).
  exists s'. exact Hrun.
Defined.

(** ** Listing the catalog after a change *)

Lemma listing_eq p l nm objs kids :
  listing p (LNode l nm objs kids) =
  map (λ o, (o, p)) (field_list objs)
  ++ flat_map (λ k, listing (p ++ [shown_name "" k]) k) (field_list kids).
Proof.
  unfold listing. rewrite dfs_eq, map_app, map_map. f_equal.
  - apply map_ext. intros o. unfold descent, e_chain. cbn. by rewrite app_nil_r.
  - induction (field_list kids) as [|k ks IH]; [done|]. cbn [flat_map].
    rewrite map_app, IH, map_map. f_equal.
    apply map_ext_in. intros e He.
    destruct (descent_root _ _ He) as (below & Hd).
    unfold descent, e_chain in *. cbn [lift_entry e_obj e_parent e_above].
    rewrite app_comm_cons, reverse_snoc, Hd. cbn [tail map].
    by rewrite <- app_assoc.
Qed.

Lemma cards_listing p t :
  cards p t = flat_map (λ v, card v.1 v.2) (listing p t).
Proof. unfold cards, listing. by rewrite flat_map_map. Qed.

Lemma remove_first_map {A B} (p : B → bool) (f : A → B) (l : list A) :
  remove_first p (map f l) = map f (remove_first (λ x, p (f x)) l).
Proof.
  induction l as [|x l IH]; [done|]. cbn [map remove_first].
  destruct (p (f x)); [done|]. cbn [map]. by rewrite IH.
Qed.

Lemma t_name_t_delete n t : t_name (t_delete n t) = t_name t.
Proof. destruct t as [l nm objs kids]. rewrite t_delete_eq. by destruct (find _ _). Qed.

Lemma find_listing n p t :
  find (λ v, named n v.1) (listing p t)
  = (λ e, (e_obj e, p ++ map (shown_name "") (tail (descent e)))) <$> first_match n t.
Proof. unfold listing, first_match. by rewrite find_map'. Qed.

(** A deletion takes the first object of that name from the listing and
    leaves the paths of the others as they are. *)
Lemma listing_t_delete n t : ∀ p,
  listing p (t_delete n t) = remove_first (λ v, named n v.1) (listing p t).
Proof.
  induction t as [l nm objs kids IH] using ltree_ind'. intros p.
  rewrite t_delete_eq, (listing_eq p l nm objs kids), remove_first_app, find_map'.
  cbn [fst]. destruct (find (named n) (field_list objs)) as [o|];
    cbn [fmap option_fmap option_map].
  { rewrite listing_eq, field_list_map_field by done. by rewrite remove_first_map. }
  rewrite listing_eq, field_list_map_field by done. f_equal.
  induction (field_list kids) as [|k ks IHks]; [done|].
  apply Forall_cons in IH as [IHk IH]. cbn [map_first flat_map].
  rewrite remove_first_app, find_listing. unfold has_match at 1.
  destruct (first_match n k); cbn [flat_map fmap option_fmap option_map].
  - unfold shown_name at 1. by rewrite t_name_t_delete, IHk.
  - by rewrite IHks.
Qed.

Lemma shown_path_root t e :
  In e (dfs t) →
  shown_path e = [shown_name "house" t] ++ map (shown_name "") (tail (descent e)).
Proof.
  intros He. destruct (descent_root _ _ He) as (below & Hd).
  unfold shown_path. by rewrite Hd.
Qed.

Lemma In_remove_first {A} (p : A → bool) (l : list A) x :
  In x (remove_first p l) → In x l.
Proof.
  induction l as [|y l IH]; [done|]. cbn [remove_first].
  destruct (p y); [by right|]. intros [->|H]; [by left|]. right. auto.
Qed.

Lemma cards_t_delete n t :
  cards [shown_name "house" (t_delete n t)] (t_delete n t)
  = flat_map (λ e, card (e_obj e) (shown_path e))
      (remove_first (λ e, named n (e_obj e)) (dfs t)).
Proof.
  unfold shown_name at 1. rewrite t_name_t_delete. fold (shown_name "house" t).
  rewrite cards_listing, listing_t_delete. unfold listing.
  rewrite remove_first_map, flat_map_map. cbn [fst snd].
  apply flat_map_ext_In. intros e He%In_remove_first.
  by rewrite (shown_path_root t e He).
Qed.

(** X22. What [explore_catalog] lists after [delete_object]: the cards it
    listed before, in the same order and under the same paths, without the
    card of the first object of that name. *)
Theorem explore_catalog_after_delete_object s t fuel n inp tr disk :
  wf s t → height t < fuel →
  ∃ deleted s' s'',
    delete_object fuel (root t) n s = Ret deleted s' ∧
    explore_catalog fuel (root t) None (World s' inp tr disk)
    = Done tt (World s'' inp
        (tr ++ flat_map (λ e, card (e_obj e) (shown_path e))
                 (remove_first (λ e, named n (e_obj e)) (dfs t))) disk).
Proof.
  intros Hwf Hfuel.
  destruct (delete_object_run fuel t s n Hwf Hfuel) as (s' & Hdel & [_ Hh'] & _).
  assert (Hfuel' : height (t_delete n t) < fuel) by by rewrite height_t_delete.
  pose proof (explore_catalog_None fuel (root (t_delete n t)) _ (World s' inp tr disk)
                (holds_cell _ _ Hh')) as Hnone.
  destruct (explore_catalog_from fuel (t_delete n t) [shown_name "house" (t_delete n t)]
              s' inp tr disk Hh' Hfuel') as (s'' & _ & Hrun).
  cbn [cd_name] in Hnone. rewrite root_t_delete in Hnone, Hrun.
  exists (has_match n t), s', s''. split; [done|].
  rewrite Hnone. unfold shown_name in Hrun at 1. rewrite Hrun. by rewrite cards_t_delete.
Qed.

Lemma explore_catalog_after_delete_object_witness :
  wf two_bulbs_store two_bulbs_tree ∧ height two_bulbs_tree < 3 ∧
  ∃ deleted s' s'',
    delete_object 3 1%positive "bulb" two_bulbs_store = Ret deleted s' ∧
    explore_catalog 3 1%positive None (World s' [] [] (Storage.Completed tt))
    = Done tt (World s'' []
        [Printed "Name: lamp"; Printed "Category: lighting";
         Printed "Location: house > a"; Printed rule;
         Printed "Name: bulb"; Printed "Category: spare";
         Printed "Location: house > b"; Printed rule]
        (Storage.Completed tt)).
Proof.
  split; [exact two_bulbs_wf|]. split; [exact two_bulbs_height|].
  destruct (explore_catalog_after_delete_object two_bulbs_store two_bulbs_tree 3 "bulb"
              [] [] (Storage.Completed tt) two_bulbs_wf two_bulbs_height)
    as (deleted & s' & s'' & Hdel & Hrun).
  exists deleted, s', s''. split; [exact Hdel | exact Hrun].
Defined.

Lemma shown_path_upd_entry o d e : shown_path (upd_entry o d e) = shown_path e.
Proof.
  unfold shown_path, descent, e_chain, upd_entry. cbn [e_parent e_above].
  change (t_update o d (e_parent e) :: map (t_update o d) (e_above e))
    with (map (t_update o d) (e_parent e :: e_above e)).
  rewrite <- fmap_reverse.
  destruct (reverse (e_parent e :: e_above e)) as [|r below]; [done|].
  cbn [fmap list_fmap]. unfold shown_name at 1 3. rewrite t_name_t_update. f_equal.
  induction below as [|c below IH]; [done|]. cbn [fmap list_fmap map].
  unfold shown_name at 1 3. by rewrite t_name_t_update, IH.
Qed.

(** X23. What [explore_catalog] lists after [modify_object] has found an
    object: the cards it listed before, in the same order and under the
    same paths, with the dictionary of the first match shown with its new
    contents. *)
Theorem explore_catalog_after_modify_object s t fuel n nn nc e inp tr disk :
  wf s t → height t < fuel → first_match n t = Some e →
  ∃ s' s'',
    modify_object fuel (root t) n nn nc s = Ret true s' ∧
    explore_catalog fuel (root t) None (World s' inp tr disk)
    = Done tt (World s'' inp
        (tr ++ flat_map
                 (λ x, card (set_obj (e_loc e) (updated nn nc (e_obj e).2) (e_obj x))
                            (shown_path x))
                 (dfs t)) disk).
Proof.
  intros Hwf Hfuel Hm.
  destruct (modify_object_run fuel t s n nn nc Hwf Hfuel) as (s' & Hmod & [_ Hh'] & _).
  unfold has_match in Hmod. rewrite Hm in Hmod.
  unfold t_modify in Hh'. rewrite Hm in Hh'.
  set (o := e_loc e) in *. set (d := updated nn nc (e_obj e).2) in *.
  assert (Hfuel' : height (t_update o d t) < fuel) by by rewrite height_t_update.
  pose proof (explore_catalog_None fuel (root (t_update o d t)) _ (World s' inp tr disk)
                (holds_cell _ _ Hh')) as Hnone.
  destruct (explore_catalog_from fuel (t_update o d t) [shown_name "house" (t_update o d t)]
              s' inp tr disk Hh' Hfuel') as (s'' & _ & Hrun).
  cbn [cd_name] in Hnone. rewrite root_t_update in Hnone, Hrun.
  rewrite cards_shown_path in Hrun.
  exists s', s''. split; [done|]. rewrite Hnone. unfold shown_name in Hrun at 1.
  rewrite Hrun. do 3 f_equal.
  rewrite dfs_t_update, flat_map_map. apply flat_map_ext_In. intros x _.
  by rewrite shown_path_upd_entry.
Qed.

Lemma explore_catalog_after_modify_object_witness :
  ∃ e,
    wf two_bulbs_store two_bulbs_tree ∧ height two_bulbs_tree < 3 ∧
    first_match "lamp" two_bulbs_tree = Some e ∧
    ∃ s' s'',
      modify_object 3 1%positive "lamp" "" "decor" two_bulbs_store = Ret true s' ∧
      explore_catalog 3 1%positive None (World s' [] [] (Storage.Completed tt))
      = Done tt (World s'' []
          [Printed "Name: bulb"; Printed "Category: lighting";
           Printed "Location: house > a"; Printed rule;
           Printed "Name: lamp"; Printed "Category: decor";
           Printed "Location: house > a"; Printed rule;
           Printed "Name: bulb"; Printed "Category: spare";
           Printed "Location: house > b"; Printed rule]
          (Storage.Completed tt)).
Proof.
  eexists. split; [exact two_bulbs_wf|]. split; [exact two_bulbs_height|].
  split; [vm_compute; reflexivity|].
  destruct (explore_catalog_after_modify_object two_bulbs_store two_bulbs_tree 3
              "lamp" "" "decor" _ [] [] (Storage.Completed tt)
              two_bulbs_wf two_bulbs_height eq_refl) as (s' & s'' & Hmod & Hrun).
  exists s', s''. split; [exact Hmod | exact Hrun].
Defined.

End ShellProofs.
